(** * Supervision Helper: retry wrapper, generation client and wizard pipeline

    A shallow embedding of [src/services/geminiService.ts] (the retry
    wrapper [withRetry] and the five generation functions built on it), of
    the stage handlers of the [App] component and of
    [src/services/exportService.ts] (the converter from markdown to a
    document), followed by the properties of the specification that were
    checked against them and by further properties of the code.

    Conventions of the embedding.
    - A JavaScript string is its UTF-8 byte sequence, a Rocq [string].
    - A JavaScript value that the code inspects dynamically (the parsed
      JSON payload, a looked-up style template) is a [JsValue].
    - An [async] function is a state-passing function over an abstract
      host state [X] (provider, random generator); an awaited call that
      rejects is the completion [Throw].  The handlers run one at a time
      (the controls are disabled while one is pending), so the state a
      handler leaves is the state it started from with its setter calls
      applied in program order.
    - The delay of the retry wrapper ([Math.pow], [Math.random]) is given
      twice: in exact rationals ([backoff], [withRetry]), which is enough
      for what does not depend on its last bit, and in binary64, as the
      code computes it ([backoff64], [withRetry64]). *)

From Stdlib Require Import String Ascii List Bool Arith ZArith NArith QArith Qpower Qabs Qround DecimalString SpecFloat Lia Lqa.
Import ListNotations.

Set Warnings "-register-all".

Local Close Scope Q_scope.
Local Open Scope nat_scope.
Local Open Scope list_scope.
Local Open Scope string_scope.

(** ** Strings *)

Module Str.

(** [haystack.includes(needle)] *)
Fixpoint includes (needle hay : string) : bool :=
  if String.prefix needle hay then true
  else match hay with
       | EmptyString => false
       | String _ rest => includes needle rest
       end.

Definition bytes (s : string) : list N := map N_of_ascii (list_ascii_of_string s).

Definition of_bytes (l : list N) : string :=
  string_of_list_ascii (map ascii_of_N l).

(** Number of bytes of the white space or line terminator character that
    starts [l], [0] when [l] starts with none.  These are the characters
    [String.prototype.trim] strips: TAB, LF, VT, FF, CR, SP, U+00A0,
    U+1680, U+2000..U+200A, U+2028, U+2029, U+202F, U+205F, U+3000 and
    U+FEFF, here in UTF-8. *)
Definition ws_width (l : list N) : nat :=
  match l with
  | 9%N :: _ | 10%N :: _ | 11%N :: _ | 12%N :: _ | 13%N :: _ | 32%N :: _ => 1
  | 194%N :: 160%N :: _ => 2
  | 225%N :: 154%N :: 128%N :: _ => 3
  | 226%N :: 128%N :: c :: _ =>
      if ((128 <=? c) && (c <=? 138) || (c =? 168) || (c =? 169) || (c =? 175))%N
      then 3 else 0
  | 226%N :: 129%N :: 159%N :: _ => 3
  | 227%N :: 128%N :: 128%N :: _ => 3
  | 239%N :: 187%N :: 191%N :: _ => 3
  | _ => 0
  end.

(** Whether [l] consists of white space only; [fuel] bounds the number of
    characters, the length of [l] is always enough. *)
Fixpoint all_ws (fuel : nat) (l : list N) : bool :=
  match l with
  | [] => true
  | _ :: _ =>
      match fuel, ws_width l with
      | _, O | O, _ => false
      | S fuel', w => all_ws fuel' (skipn w l)
      end
  end.

Fixpoint trim_start (fuel : nat) (l : list N) : list N :=
  match fuel, ws_width l with
  | _, O | O, _ => l
  | S fuel', w => trim_start fuel' (skipn w l)
  end.

Fixpoint trim_end (l : list N) : list N :=
  match l with
  | [] => []
  | c :: rest => if all_ws (length l) l then [] else c :: trim_end rest
  end.

(** [s.trim()] *)
Definition trim (s : string) : string :=
  let l := bytes s in of_bytes (trim_end (trim_start (length l) l)).

(** Truthiness of a string: every string but the empty one. *)
Definition truthy (s : string) : bool :=
  match s with EmptyString => false | _ => true end.

Definition nl : string := String (ascii_of_nat 10) EmptyString.

(** UTF-8 bytes of a code point, least significant last (a lone
    surrogate takes the three-byte form). *)
Definition utf8 (cp : N) : list N :=
  if (cp <? 128)%N then [cp]
  else if (cp <? 2048)%N then [192 + cp / 64; 128 + cp mod 64]%N
  else if (cp <? 65536)%N then
    [224 + cp / 4096; 128 + (cp / 64) mod 64; 128 + cp mod 64]%N
  else [240 + cp / 262144; 128 + (cp / 4096) mod 64;
        128 + (cp / 64) mod 64; 128 + cp mod 64]%N.

(** The UTF-16 code units of a text, each as a string of its own: a
    character outside the basic plane gives its two surrogates. *)
Fixpoint code_units (fuel : nat) (l : list N) : list string :=
  match fuel, l with
  | O, _ | _, [] => []
  | S f, a :: r =>
      if (a <? 192)%N then of_bytes [a] :: code_units f r
      else if (a <? 224)%N then of_bytes (a :: firstn 1 r) :: code_units f (skipn 1 r)
      else if (a <? 240)%N then of_bytes (a :: firstn 2 r) :: code_units f (skipn 2 r)
      else
        match r with
        | b :: c :: d :: r' =>
            let cp := ((a mod 8) * 262144 + (b mod 64) * 4096
                       + (c mod 64) * 64 + d mod 64 - 65536)%N in
            of_bytes (utf8 (55296 + cp / 1024)) :: of_bytes (utf8 (56320 + cp mod 1024))
              :: code_units f r'
        | _ => [of_bytes l]
        end
  end.

End Str.

(** ** JavaScript values *)

(** ** Numbers

    A JavaScript Number is a double, a value of the binary64 format.
    [Double] takes the format and its operations from the specification of
    floating-point arithmetic of the Standard Library, with 53 bits of
    precision and exponents up to 1024: results are rounded to the nearest
    double, ties to the even one. *)

Module Double.

Definition prec : Z := 53.
Definition emax : Z := 1024.

(** [x * y] and [x + y] on Numbers. *)
Definition mul : spec_float -> spec_float -> spec_float := SFmul prec emax.
Definition add : spec_float -> spec_float -> spec_float := SFadd prec emax.

(** The Number an integer literal of the program denotes. *)
Definition ofZ (n : Z) : spec_float := binary_normalize prec emax n 0 false.

(** [Math.pow(2, i)] for an integer [i] that is not negative: [2^i],
    which is a double up to [i = 1023], and [Infinity] from there on. *)
Definition pow2 (i : nat) : spec_float :=
  binary_normalize prec emax 1 (Z.of_nat i) false.

(** The rational a finite double is; a double that is not finite has
    none, and is given 0. *)
Definition value (f : spec_float) : Q :=
  match f with
  | S754_finite s m e => Qred (inject_Z (cond_Zopp s (Zpos m)) * 2 ^ e)
  | _ => 0%Q
  end.

(** The double nearest to a rational with a power of two as its
    denominator. *)
Definition ofQ (q : Q) : spec_float :=
  binary_normalize prec emax (Qnum q) (- Z.log2 (Zpos (Qden q))) false.

(** The rationals that are doubles: rounding leaves them as they are. *)
Definition isDouble (q : Q) : bool :=
  match ofQ q with
  | S754_zero _ | S754_finite _ _ _ => Qeq_bool (value (ofQ q)) q
  | _ => false
  end.

(** The double nearest to [d * 10^e10], ties to even, with the sign [s]. *)
Definition ofDecimal (s : bool) (d e10 : Z) : spec_float :=
  match d with
  | Zpos p =>
      if (0 <=? e10)%Z then binary_round prec emax s (Z.to_pos (Zpos p * 10 ^ e10)) 0
      else
        let '(q, e, l) := SFdiv_core_binary prec emax (Zpos p) 0 (10 ^ (- e10)) 0 in
        binary_round_aux prec emax s q e l
  | _ => S754_zero s
  end.

Definition is_digit (c : ascii) : bool :=
  (48 <=? nat_of_ascii c)%nat && (nat_of_ascii c <=? 57)%nat.

(** The number a run of decimal digits denotes. *)
Definition digits_value (l : list ascii) : Z :=
  fold_left (fun acc c => (acc * 10 + (Z.of_nat (nat_of_ascii c) - 48))%Z) l 0%Z.

(** The longest run of digits at the head of [l], and what follows. *)
Fixpoint span_digits (l : list ascii) : list ascii * list ascii :=
  match l with
  | c :: rest =>
      if is_digit c then let (d, r) := span_digits rest in (c :: d, r) else ([], l)
  | [] => ([], [])
  end.

(** The Number a JSON number literal denotes. *)
Definition ofLiteral (literal : string) : spec_float :=
  let cs := list_ascii_of_string literal in
  let (negative, body) :=
    match cs with
    | c :: rest => if Ascii.eqb c "-"%char then (true, rest) else (false, cs)
    | [] => (false, cs)
    end in
  let (int, r1) := span_digits body in
  let (frac, r2) :=
    match r1 with
    | c :: rest => if Ascii.eqb c "."%char then span_digits rest else ([], r1)
    | [] => ([], r1)
    end in
  let exponent :=
    match r2 with
    | c :: rest =>
        if Ascii.eqb c "e"%char || Ascii.eqb c "E"%char then
          match rest with
          | s :: digits =>
              if Ascii.eqb s "-"%char then (- digits_value digits)%Z
              else if Ascii.eqb s "+"%char then digits_value digits
              else digits_value rest
          | [] => 0%Z
          end
        else 0%Z
    | [] => 0%Z
    end in
  ofDecimal negative (digits_value (int ++ frac)) (exponent - Z.of_nat (length frac)).

Definition eqb (x y : spec_float) : bool :=
  match x, y with
  | S754_finite s m e, S754_finite s' m' e' =>
      Bool.eqb s s' && Pos.eqb m m' && Z.eqb e e'
  | S754_zero s, S754_zero s' => Bool.eqb s s'
  | S754_infinity s, S754_infinity s' => Bool.eqb s s'
  | S754_nan, S754_nan => true
  | _, _ => false
  end.

(** [q * 10^(-n)] *)
Definition scaled (q : Q) (n : Z) : Q := (q * 10 ^ (- n))%Q.

(** The [n] with [10^(n-1) <= q < 10^n], for a positive [q]. *)
Definition magnitude10 (q : Q) : Z :=
  let guess := ((Z.log2 (Qnum q) - Z.log2 (Zpos (Qden q))) * 30103 / 100000)%Z in
  let candidates := map (fun d => (guess + d)%Z) [-2; -1; 0; 1; 2; 3]%Z in
  match find (fun n => Qle_bool 1 (scaled q (n - 1)) && negb (Qle_bool 1 (scaled q n)))
             candidates with
  | Some n => n
  | None => guess
  end.

(** The candidates [(s, n)] with [k] digits for a positive double [f] of
    value [q]: [10^(k-1) <= s < 10^k] and [s * 10^(n-k)] rounds to [f]. *)
Definition candidates (f : spec_float) (q : Q) (n0 k : Z) : list (Z * Z) :=
  flat_map
    (fun n =>
       let t := Qfloor (scaled q (n - k)) in
       filter (fun sn =>
                 let s := fst sn in
                 (10 ^ (k - 1) <=? s)%Z && (s <? 10 ^ k)%Z
                 && eqb (ofDecimal false s (n - k)) f)
              [(t, n); ((t + 1)%Z, n)])
    [n0; (n0 + 1)%Z].

(** The distance of [s * 10^(n-k)] from [q]. *)
Definition distance (q : Q) (k : Z) (sn : Z * Z) : Q :=
  Qabs (inject_Z (fst sn) * 10 ^ (snd sn - k) - q)%Q.

(** The closest candidate, the even one of two that are as close. *)
Fixpoint closest (q : Q) (k : Z) (best : Z * Z) (l : list (Z * Z)) : Z * Z :=
  match l with
  | [] => best
  | sn :: rest =>
      let better :=
        match (distance q k sn ?= distance q k best)%Q with
        | Lt => true
        | Eq => Z.even (fst sn)
        | Gt => false
        end in
      closest q k (if better then sn else best) rest
  end.

(** The digits [s], their number [k] and the position [n] of the point
    that [Number::toString] chooses: [k] as small as possible. *)
Fixpoint shortest (f : spec_float) (q : Q) (n0 : Z) (ks : list Z) : Z * Z * Z :=
  match ks with
  | [] => (0, 1, 0)%Z
  | k :: rest =>
      match candidates f q n0 k with
      | [] => shortest f q n0 rest
      | sn :: others =>
          let '(s, n) := closest q k sn others in (s, k, n)
      end
  end.

Definition decimal_string (z : Z) : string := NilZero.string_of_uint (N.to_uint (Z.to_N z)).

Fixpoint zeros (n : nat) : string :=
  match n with O => "" | S n' => String "0"%char (zeros n') end.

Fixpoint take (n : nat) (s : string) : string :=
  match n, s with
  | S n', String c rest => String c (take n' rest)
  | _, _ => ""
  end.

Fixpoint drop (n : nat) (s : string) : string :=
  match n, s with
  | S n', String _ rest => drop n' rest
  | _, _ => s
  end.

(** [Number::toString] for a positive finite double. *)
Definition positive_string (f : spec_float) (q : Q) : string :=
  let '(s, k, n) :=
    shortest f q (magnitude10 q) [1; 2; 3; 4; 5; 6; 7; 8; 9; 10; 11; 12; 13; 14; 15; 16; 17]%Z in
  let digits := decimal_string s in
  if ((k <=? n) && (n <=? 21))%Z then digits ++ zeros (Z.to_nat (n - k))
  else if ((0 <? n) && (n <=? 21))%Z then
    take (Z.to_nat n) digits ++ "." ++ drop (Z.to_nat n) digits
  else if ((-6 <? n) && (n <=? 0))%Z then "0." ++ zeros (Z.to_nat (- n)) ++ digits
  else
    let e := (n - 1)%Z in
    let exponent := (if (e <? 0)%Z then "-" else "+") ++ decimal_string (Z.abs e) in
    if (k =? 1)%Z then digits ++ "e" ++ exponent
    else take 1 digits ++ "." ++ drop 1 digits ++ "e" ++ exponent.

(** [Number::toString], radix 10. *)
Definition toString (f : spec_float) : string :=
  match f with
  | S754_nan => "NaN"
  | S754_zero _ => "0"
  | S754_infinity s => if s then "-Infinity" else "Infinity"
  | S754_finite s m e =>
      (if s then "-" else "")
      ++ positive_string (S754_finite false m e) (inject_Z (Zpos m) * 2 ^ e)%Q
  end.

End Double.

(** The values the code handles dynamically.  A number keeps the literal
    it was read from, which denotes the double [Double.ofLiteral] gives; an
    object keeps its own enumerable properties in the order in which the
    language lists them; [VFunction] is a built-in function object. *)
Inductive JsValue : Type :=
| VUndefined
| VNull
| VBool (b : bool)
| VNumber (literal : string)
| VString (s : string)
| VArray (items : list JsValue)
| VObject (props : list (string * JsValue))
| VFunction (name : string).

Module Js.

Definition Props := list (string * JsValue).

(** Own property lookup, [undefined] when absent. *)
Fixpoint get (props : Props) (key : string) : JsValue :=
  match props with
  | [] => VUndefined
  | (k, v) :: rest => if String.eqb k key then v else get rest key
  end.

Fixpoint has (props : Props) (key : string) : bool :=
  match props with
  | [] => false
  | (k, _) :: rest => String.eqb k key || has rest key
  end.

(** Defining a property whose name is no array index, the way
    [{...obj, key: v}] defines [key]: an existing key keeps its place, a
    new one goes last. *)
Fixpoint set (props : Props) (key : string) (v : JsValue) : Props :=
  match props with
  | [] => [(key, v)]
  | (k, w) :: rest =>
      if String.eqb k key then (k, v) :: rest else (k, w) :: set rest key v
  end.

Definition is_decimal_digit (c : ascii) : bool :=
  (48 <=? nat_of_ascii c)%nat && (nat_of_ascii c <=? 57)%nat.

(** The number a property name denotes when it is an array index: the
    canonical decimal numeral, without a leading zero, of an integer from
    0 to [2^32 - 2]. *)
Definition array_index (key : string) : option N :=
  match list_ascii_of_string key with
  | [] => None
  | c :: rest =>
      if forallb is_decimal_digit (c :: rest)
         && (negb (Ascii.eqb c "0"%char) || match rest with [] => true | _ => false end)
      then
        let n := fold_left (fun acc d => (acc * 10 + (N_of_ascii d - 48))%N) (c :: rest) 0%N in
        if (n <=? 4294967294)%N then Some n else None
      else None
  end.

(** Where a new array index goes: after the smaller array indices that
    lead the properties. *)
Fixpoint insert_index (n : N) (key : string) (v : JsValue) (props : Props) : Props :=
  match props with
  | [] => [(key, v)]
  | (k, w) :: rest =>
      match array_index k with
      | Some m =>
          if (m <? n)%N then (k, w) :: insert_index n key v rest
          else (key, v) :: props
      | None => (key, v) :: props
      end
  end.

(** Defining a property the way [JSON.parse] does.  The properties of
    an object are kept in the order in which the language lists them:
    the array indices in ascending order, then the other names in the
    order of their creation.  An existing key keeps its place. *)
Definition define (props : Props) (key : string) (v : JsValue) : Props :=
  if has props key then set props key v
  else match array_index key with
       | Some n => insert_index n key v props
       | None => set props key v
       end.

(** A number literal denotes zero when the double nearest to it is
    zero: [0], [-0.0], and also a literal too small for any other double,
    such as [1e-400]. *)
Definition number_is_zero (literal : string) : bool :=
  match Double.ofLiteral literal with
  | S754_zero _ => true
  | _ => false
  end.

(** ToBoolean *)
Definition truthy (v : JsValue) : bool :=
  match v with
  | VUndefined | VNull => false
  | VBool b => b
  | VNumber l => negb (number_is_zero l)
  | VString s => Str.truthy s
  | VArray _ | VObject _ | VFunction _ => true
  end.

(** [a || b] *)
Definition or (a b : JsValue) : JsValue := if truthy a then a else b.

Fixpoint join (sep : string) (parts : list string) : string :=
  match parts with
  | [] => ""
  | [p] => p
  | p :: rest => p ++ sep ++ join sep rest
  end.

Fixpoint all_some (l : list (option string)) : option (list string) :=
  match l with
  | [] => Some []
  | None :: _ => None
  | Some a :: rest => option_map (cons a) (all_some rest)
  end.

(** ToString, as a template literal applies it to [${v}]; [None] is the
    [TypeError] for an object that cannot be converted.  A number prints
    as the language prints the double its literal denotes.  An array joins
    its elements.  An object prints through [Object.prototype.toString]
    unless it has a property [toString] of its own, which in a value read
    from JSON is never callable.  A built-in function prints the way V8
    prints it. *)
Fixpoint toString (v : JsValue) : option string :=
  match v with
  | VUndefined => Some "undefined"
  | VNull => Some "null"
  | VBool true => Some "true"
  | VBool false => Some "false"
  | VNumber l => Some (Double.toString (Double.ofLiteral l))
  | VString s => Some s
  | VArray items =>
      option_map (join ",")
        (all_some (map (fun it => match it with
                                  | VUndefined | VNull => Some ""
                                  | _ => toString it
                                  end) items))
  | VObject props => if has props "toString" then None else Some "[object Object]"
  | VFunction name => Some ("function " ++ name ++ "() { [native code] }")
  end.

(** The properties every plain object inherits from [Object.prototype]:
    the built-in methods, [constructor], and the [__proto__] accessor,
    which on an object literal yields [Object.prototype] itself (an object
    without enumerable properties). *)
Definition Object_prototype (key : string) : JsValue :=
  if String.eqb key "constructor" then VFunction "Object"
  else if String.eqb key "__proto__" then VObject []
  else if existsb (String.eqb key)
            ["toString"; "toLocaleString"; "valueOf"; "hasOwnProperty";
             "isPrototypeOf"; "propertyIsEnumerable"; "__defineGetter__";
             "__defineSetter__"; "__lookupGetter__"; "__lookupSetter__"]
       then VFunction key
  else VUndefined.

(** [obj[key]] on an object literal: an own property, else an inherited one. *)
Definition lookup (props : Props) (key : string) : JsValue :=
  if has props key then get props key else Object_prototype key.

(** [v.key] / [v?.key] for a value that is not null or undefined.  A
    primitive or an array has none of the property names this program
    reads ([feedbackCard], [healingSentence], [theme], [fullText]). *)
Definition member (v : JsValue) (key : string) : JsValue :=
  match v with
  | VObject props => lookup props key
  | _ => VUndefined
  end.

Definition index_key (i : nat) : string := NilZero.string_of_uint (Nat.to_uint i).

Fixpoint indexed {A} (f : A -> JsValue) (i : nat) (l : list A) : Props :=
  match l with
  | [] => []
  | a :: rest => (index_key i, f a) :: indexed f (S i) rest
  end.

(** The own enumerable properties that [{...v}] copies. *)
Definition spread (v : JsValue) : Props :=
  match v with
  | VObject props => props
  | VArray items => indexed (fun it => it) 0 items
  | VString s => indexed VString 0 (Str.code_units (String.length s) (Str.bytes s))
  | _ => []
  end.

End Js.

(** ** [JSON.parse]

    The built-in the schema-mode client applies to the payload.  The
    parser reads the UTF-8 bytes of the text and follows the JSON grammar
    of ECMA-404; [None] is the [SyntaxError] that [JSON.parse] throws. *)

Module JSON.

Definition Bytes := list N.

(** The bytes the grammar names. *)
Definition quote : N := 34.
Definition backslash : N := 92.
Definition comma : N := 44.
Definition colon : N := 58.
Definition lbrace : N := 123.
Definition rbrace : N := 125.
Definition lbracket : N := 91.
Definition rbracket : N := 93.

(** JSON white space: space, TAB, LF, CR. *)
Definition is_ws (c : N) : bool := ((c =? 32) || (c =? 9) || (c =? 10) || (c =? 13))%N.

Fixpoint skip_ws (cs : Bytes) : Bytes :=
  match cs with
  | c :: r => if is_ws c then skip_ws r else cs
  | [] => []
  end.

Definition hex_digit (c : N) : option N :=
  if ((48 <=? c) && (c <=? 57))%N then Some (c - 48)%N
  else if ((65 <=? c) && (c <=? 70))%N then Some (c - 55)%N
  else if ((97 <=? c) && (c <=? 102))%N then Some (c - 87)%N
  else None.

Definition hex4 (a b c d : N) : option N :=
  match hex_digit a, hex_digit b, hex_digit c, hex_digit d with
  | Some x, Some y, Some z, Some w => Some (((x * 16 + y) * 16 + z) * 16 + w)%N
  | _, _, _, _ => None
  end.

Definition is_high (u : N) : bool := ((55296 <=? u) && (u <=? 56319))%N.
Definition is_low (u : N) : bool := ((56320 <=? u) && (u <=? 57343))%N.

(** The character a one-letter escape stands for: the quote, the
    backslash and the slash stand for themselves, [b], [f], [n], [r] and
    [t] for BS, FF, LF, CR and TAB. *)
Definition escape (e : N) : option N :=
  if ((e =? 34) || (e =? 92) || (e =? 47))%N then Some e
  else if (e =? 98)%N then Some 8%N
  else if (e =? 102)%N then Some 12%N
  else if (e =? 110)%N then Some 10%N
  else if (e =? 114)%N then Some 13%N
  else if (e =? 116)%N then Some 9%N
  else None.

(** The characters of a string after its opening quote, up to the closing
    one; [acc] holds the decoded bytes in reverse.  A [\u] escape of a
    high surrogate followed by one of a low surrogate is one character. *)
Fixpoint string_body (cs : Bytes) (acc : Bytes) : option (string * Bytes) :=
  match cs with
  | [] => None
  | c :: r =>
      if (c =? quote)%N then Some (Str.of_bytes (rev acc), r)
      else if (c =? backslash)%N then
        match r with
        | [] => None
        | e :: r0 =>
            if (e =? 117)%N then
              match r0 with
              | a :: b :: c' :: d :: r1 =>
                  match hex4 a b c' d with
                  | None => None
                  | Some u =>
                      let alone := string_body r1 (rev (Str.utf8 u) ++ acc)%list in
                      match r1 with
                      | b1 :: e1 :: a' :: b' :: c'' :: d' :: r2 =>
                          match hex4 a' b' c'' d' with
                          | Some lo =>
                              if ((b1 =? backslash) && (e1 =? 117))%N
                                 && is_high u && is_low lo
                              then string_body r2
                                     (rev (Str.utf8 (65536 + (u - 55296) * 1024
                                                     + (lo - 56320))%N)
                                      ++ acc)%list
                              else alone
                          | None => alone
                          end
                      | _ => alone
                      end
                  end
              | _ => None
              end
            else
              match escape e with
              | Some ch => string_body r0 (ch :: acc)
              | None => None
              end
        end
      else if (c <? 32)%N then None
      else string_body r (c :: acc)
  end.

Definition is_digit (c : N) : bool := ((48 <=? c) && (c <=? 57))%N.

(** The longest run of digits at the head of [cs], and what follows. *)
Fixpoint digits (cs : Bytes) : Bytes * Bytes :=
  match cs with
  | c :: r => if is_digit c then let (d, r') := digits r in (c :: d, r') else ([], cs)
  | [] => ([], [])
  end.

Definition opt_minus (cs : Bytes) : Bytes * Bytes :=
  match cs with
  | c :: r => if (c =? 45)%N then ([c], r) else ([], cs)
  | [] => ([], cs)
  end.

(** [0], or a digit from 1 to 9 and the digits after it. *)
Definition int_part (cs : Bytes) : option (Bytes * Bytes) :=
  match cs with
  | c :: r =>
      if (c =? 48)%N then Some ([c], r)
      else if is_digit c then Some (digits cs)
      else None
  | [] => None
  end.

Definition frac_part (cs : Bytes) : option (Bytes * Bytes) :=
  match cs with
  | c :: r =>
      if (c =? 46)%N then
        match digits r with
        | ([], _) => None
        | (d, r') => Some (c :: d, r')
        end
      else Some ([], cs)
  | [] => Some ([], cs)
  end.

Definition exp_part (cs : Bytes) : option (Bytes * Bytes) :=
  match cs with
  | e :: r =>
      if ((e =? 101) || (e =? 69))%N then
        let (sign, r1) :=
          match r with
          | s :: r' => if ((s =? 43) || (s =? 45))%N then ([s], r') else ([], r)
          | [] => ([], r)
          end in
        match digits r1 with
        | ([], _) => None
        | (d, r2) => Some (e :: sign ++ d, r2)%list
        end
      else Some ([], cs)
  | [] => Some ([], cs)
  end.

Definition number (cs : Bytes) : option (JsValue * Bytes) :=
  let (m, r0) := opt_minus cs in
  match int_part r0 with
  | None => None
  | Some (i, r1) =>
      match frac_part r1 with
      | None => None
      | Some (f, r2) =>
          match exp_part r2 with
          | None => None
          | Some (e, r3) => Some (VNumber (Str.of_bytes (m ++ i ++ f ++ e)%list), r3)
          end
      end
  end.

(** What is left of [cs] after the word [w], when [cs] starts with it. *)
Fixpoint strip (w cs : Bytes) : option Bytes :=
  match w with
  | [] => Some cs
  | a :: w' =>
      match cs with
      | c :: cs' => if (c =? a)%N then strip w' cs' else None
      | [] => None
      end
  end.

(** [true], [false], [null] or a number. *)
Definition scalar (cs : Bytes) : option (JsValue * Bytes) :=
  match strip (Str.bytes "true") cs with
  | Some r => Some (VBool true, r)
  | None =>
      match strip (Str.bytes "false") cs with
      | Some r => Some (VBool false, r)
      | None =>
          match strip (Str.bytes "null") cs with
          | Some r => Some (VNull, r)
          | None => number cs
          end
      end
  end.

(** A value, the elements of an array after its first bracket, and the
    members of an object after its first brace.  A repeated key keeps its
    first place and its last value; array indices come first.  [fuel] bounds the depth of the calls;
    twice the length of the text is enough ([value_fuel] below). *)
Fixpoint value (fuel : nat) (cs : Bytes) : option (JsValue * Bytes) :=
  match fuel with
  | O => None
  | S f =>
      match skip_ws cs with
      | [] => None
      | c :: r =>
          if (c =? lbrace)%N then
            match skip_ws r with
            | [] => None
            | c1 :: r1 =>
                if (c1 =? rbrace)%N then Some (VObject [], r1)
                else members f (c1 :: r1) []
            end
          else if (c =? lbracket)%N then
            match skip_ws r with
            | [] => None
            | c1 :: r1 =>
                if (c1 =? rbracket)%N then Some (VArray [], r1)
                else elements f (c1 :: r1) []
            end
          else if (c =? quote)%N then
            match string_body r [] with
            | Some (s, r') => Some (VString s, r')
            | None => None
            end
          else scalar (c :: r)
      end
  end
with elements (fuel : nat) (cs : Bytes) (acc : list JsValue)
  : option (JsValue * Bytes) :=
  match fuel with
  | O => None
  | S f =>
      match value f cs with
      | None => None
      | Some (v, r) =>
          match skip_ws r with
          | [] => None
          | c :: r' =>
              if (c =? comma)%N then elements f r' (v :: acc)
              else if (c =? rbracket)%N then Some (VArray (rev (v :: acc)), r')
              else None
          end
      end
  end
with members (fuel : nat) (cs : Bytes) (acc : Js.Props)
  : option (JsValue * Bytes) :=
  match fuel with
  | O => None
  | S f =>
      match skip_ws cs with
      | [] => None
      | c :: r =>
          if (c =? quote)%N then
            match string_body r [] with
            | None => None
            | Some (k, r1) =>
                match skip_ws r1 with
                | [] => None
                | c1 :: r2 =>
                    if (c1 =? colon)%N then
                      match value f r2 with
                      | None => None
                      | Some (v, r3) =>
                          match skip_ws r3 with
                          | [] => None
                          | c2 :: r4 =>
                              if (c2 =? comma)%N then members f r4 (Js.define acc k v)
                              else if (c2 =? rbrace)%N
                                   then Some (VObject (Js.define acc k v), r4)
                              else None
                          end
                      end
                    else None
                end
            end
          else None
      end
  end.

(** The text as a whole: one value, white space around it allowed. *)
Definition document (fuel : nat) (text : string) : option JsValue :=
  match value fuel (Str.bytes text) with
  | Some (v, r) => match skip_ws r with [] => Some v | _ => None end
  | None => None
  end.

(** [JSON.parse(text)] *)
Definition parse (text : string) : option JsValue :=
  document (2 * String.length text + 2) text.

End JSON.

(** ** Completions, errors and effects *)

(** What the code reads of a thrown error object: [status], [code] (a
    number when present) and [message] (a string when present). *)
Record JsError : Type := mkError {
  name : string;
  status : option Z;
  code : option Z;
  message : option string
}.

(** A thrown value: an error object, or [undefined] (the initial value of
    [lastError] in [withRetry]). *)
Inductive Thrown : Type :=
| ThrownUndefined
| ThrownError (e : JsError).

(** How an awaited call settles: fulfilled with a value, or rejected. *)
Inductive Completion (A : Type) : Type :=
| Normal (v : A)
| Throw (e : Thrown).
Arguments Normal {A} v.
Arguments Throw {A} e.

(** The [TypeError] of reading a property of [null] and of converting to
    a string an object that has no usable [toString]. *)
Definition typeError (msg : string) : Thrown :=
  ThrownError (mkError "TypeError" None None (Some msg)).

(** *** Requests and responses of the provider *)

(** The response schema of a structured request. *)
Inductive Schema : Type :=
| SString (enum : option (list string))
| SObject (properties : list (string * Schema)) (required : list string).

Record ImageConfig : Type := mkImageConfig {
  aspectRatio : string;
  imageSize : string
}.

Record RequestConfig : Type := mkConfig {
  systemInstruction : option string;
  responseMimeType : option string;
  responseSchema : option Schema;
  imageConfig : option ImageConfig
}.

Definition noConfig : RequestConfig := mkConfig None None None None.

(** The [contents] of a request: a text, or an object with text parts. *)
Inductive Contents : Type :=
| Text (t : string)
| Parts (texts : list string).

(** The argument of [ai.models.generateContent]. *)
Record Request : Type := mkRequest {
  model : string;
  contents : Contents;
  config : RequestConfig
}.

Record InlineData : Type := mkInlineData { data : option string }.

Record Part : Type := mkPart {
  partText : option string;
  inlineData : option InlineData
}.

Record Content : Type := mkContent { parts : option (list Part) }.

Record Candidate : Type := mkCandidate { content : option Content }.

(** What the code reads of a response: [text] and [candidates]. *)
Record Response : Type := mkResponse {
  text : option string;
  candidates : option (list Candidate)
}.

(** *** Observable events

    [Attempt i inner] is one call of its operation by [withRetry], in
    iteration [i], with the events [inner] of the operation itself;
    [Warn] is the [console.warn] entry (rounded delay, attempt number,
    maximum); [Sleep d] is the suspension [setTimeout(resolve, d)];
    [Issued] is a request handed to the provider with the resolved key. *)
Inductive Event : Type :=
| Attempt (i : nat) (inner : list Event)
| Warn (rounded : Z) (attempt : nat) (maxRetries : nat)
| Sleep (delay : Q)
| Issued (apiKey : string) (req : Request).

(** The host of the program: the provider behind
    [ai.models.generateContent], [Math.random], the default credential
    [process.env.GEMINI_API_KEY], and the [SyntaxError] that [JSON.parse]
    throws for a text. *)
Record Host (X : Type) : Type := mkHost {
  generateContent : string -> Request -> X -> Completion Response * X;
  Math_random : X -> Q * X;
  GEMINI_API_KEY : option string;
  syntaxError : string -> JsError
}.
Arguments mkHost {X} _ _ _ _.
Arguments generateContent {X} _ _ _ _.
Arguments Math_random {X} _ _.
Arguments GEMINI_API_KEY {X} _.
Arguments syntaxError {X} _ _.

(** An asynchronous computation: from the host state to its completion,
    the host state it leaves and the events it produced, oldest first. *)
Definition Eff (X A : Type) : Type := X -> Completion A * X * list Event.

Definition ret {X A} (v : A) : Eff X A := fun x => (Normal v, x, []).

Definition throw {X A} (e : Thrown) : Eff X A := fun x => (Throw e, x, []).

Definition bind {X A B} (m : Eff X A) (k : A -> Eff X B) : Eff X B :=
  fun x =>
    match m x with
    | (Normal v, x1, tr1) => let '(r, x2, tr2) := k v x1 in (r, x2, (tr1 ++ tr2)%list)
    | (Throw e, x1, tr1) => (Throw e, x1, tr1)
    end.

Notation "v <- m ;; k" := (bind m (fun v => k))
  (at level 61, m at next level, right associativity).

(** A template literal whose interpolation may throw: [None] is the
    [TypeError] of the conversion to string. *)
Definition template {X} (s : option string) : Eff X string :=
  match s with
  | Some t => ret t
  | None => throw (typeError "Cannot convert object to primitive value")
  end.

(** ** The retry wrapper [withRetry] *)

Definition is429 (n : option Z) : bool :=
  match n with Some k => (k =? 429)%Z | None => false end.

Definition messageIncludes (needle : string) (m : option string) : bool :=
  match m with Some t => Str.includes needle t | None => false end.

(** [error?.status === 429 || error?.code === 429 ||
     error?.message?.includes("429") ||
     error?.message?.includes("RESOURCE_EXHAUSTED")] *)
Definition isRateLimit (error : Thrown) : bool :=
  match error with
  | ThrownUndefined => false
  | ThrownError e =>
      is429 (status e) || is429 (code e)
      || messageIncludes "429" (message e)
      || messageIncludes "RESOURCE_EXHAUSTED" (message e)
  end.

(** [Math.pow(2, i) * 2000 + Math.random() * 1000], [u] being the value
    [Math.random()] returned. *)
Definition backoff (i : nat) (u : Q) : Q :=
  inject_Z (2 ^ Z.of_nat i) * 2000 + u * 1000.

(** [Math.round(d)] *)
Definition Math_round (d : Q) : Z := Qfloor (d + (1 # 2)).

Section Retry.

Context {X T : Type} (h : Host X) (fn : Eff X T).

(** The loop of [withRetry] from iteration [i] on, with [remaining]
    iterations left before [i] reaches [maxRetries]
    ([i + remaining = maxRetries]).  When none is left the loop is over
    and the statement after it throws [lastError]. *)
Fixpoint retryLoop (maxRetries remaining i : nat) (lastError : Thrown)
  : Eff X T :=
  fun x =>
    match remaining with
    | O => (Throw lastError, x, [])
    | S remaining' =>
        match fn x with
        | (Normal v, x1, tr) => (Normal v, x1, [Attempt i tr])
        | (Throw error, x1, tr) =>
            if isRateLimit error && (Z.of_nat i <? Z.of_nat maxRetries - 1)%Z
            then
              let (u, x2) := Math_random h x1 in
              let delay := backoff i u in
              let '(r, x3, tr') :=
                retryLoop maxRetries remaining' (S i) error x2 in
              (r, x3,
               ([Attempt i tr; Warn (Math_round delay) (i + 1) maxRetries; Sleep delay]
                ++ tr')%list)
            else (Throw error, x1, [Attempt i tr])
        end
    end.

Definition withRetry (maxRetries : nat) : Eff X T :=
  retryLoop maxRetries maxRetries 0 ThrownUndefined.

End Retry.

(** The default of the parameter [maxRetries]; every call in the module
    relies on it. *)
Definition defaultRetries : nat := 3.

(** ** The delay as the code computes it

    [backoff] above is the delay in exact arithmetic.  The code computes
    it in binary64: each product and the sum are rounded to the nearest
    double, ties to the even one ([Double.mul], [Double.add]). *)

(** [Math.pow(2, i) * 2000 + Math.random() * 1000] in binary64, [u]
    being the double [Math.random()] returned. *)
Definition backoff64 (i : nat) (u : Q) : Q :=
  Double.value
    (Double.add (Double.mul (Double.pow2 i) (Double.ofZ 2000))
                (Double.mul (Double.ofQ u) (Double.ofZ 1000))).

Section Retry64.

Context {X T : Type} (h : Host X) (fn : Eff X T).

(** The loop of [withRetry] with the delay computed in binary64: the
    same calls of the operation and of [Math.random] as [retryLoop], and
    the delay of the code in the warning and in the suspension. *)
Fixpoint retryLoop64 (maxRetries remaining i : nat) (lastError : Thrown)
  : Eff X T :=
  fun x =>
    match remaining with
    | O => (Throw lastError, x, [])
    | S remaining' =>
        match fn x with
        | (Normal v, x1, tr) => (Normal v, x1, [Attempt i tr])
        | (Throw error, x1, tr) =>
            if isRateLimit error && (Z.of_nat i <? Z.of_nat maxRetries - 1)%Z
            then
              let (u, x2) := Math_random h x1 in
              let delay := backoff64 i u in
              let '(r, x3, tr') :=
                retryLoop64 maxRetries remaining' (S i) error x2 in
              (r, x3,
               ([Attempt i tr; Warn (Math_round delay) (i + 1) maxRetries; Sleep delay]
                ++ tr')%list)
            else (Throw error, x1, [Attempt i tr])
        end
    end.

Definition withRetry64 (maxRetries : nat) : Eff X T :=
  retryLoop64 maxRetries maxRetries 0 ThrownUndefined.

End Retry64.

(** ** The generation client ([geminiService.ts]) *)

(** The prompt of [generateFormalRecord], up to the interpolated input. *)
Definition recordPrompt : string :=
"你是一位資深的社工督導行政助理。你的專長是聆聽督導會議的逐字稿或口述內容，並將其整理成專業、結構化且符合邏輯的「社工督導記錄表」。

**你的核心任務：**
1. **分析**：閱讀使用者提供的督導對話逐字稿、口述重點。
2. **歸納**：根據對話內容，判斷本次督導涵蓋了哪些「教育性」、「行政性」與「支持性」功能，以及討論了哪些議題。
3. **轉譯**：將口語化的對話轉化為社工專業術語（例如：「個案很盧」轉為「案主出現抗拒行為」）。
4. **輸出**：直接顯示 Markdown 格式的內容。

**判斷邏輯指南：**
* **教育性**：涉及處遇計畫邏輯、倫理、技巧示範。
* **行政性**：涉及時間管理、記錄、核銷、方案進度。
* **支持性**：涉及情緒抒發、自信建立、自我照顧。
* **成效評估**：根據語氣自動判斷（待觀察/部份達成/達成目標）。

**輸出格式內容：**

# 社工個別督導記錄表
(包含受督者、督導者、日期、時間、地點等基本欄位)

## 一、 督導功能檢核 (請勾選)
### 1. 教育性功能
(包含：處遇計畫邏輯、專業關係與倫理、會談技巧示範...)
### 2. 行政性功能
(包含：時間管理、記錄完成度、服務流程、出缺勤、核銷、方案執行...)
### 3. 支持性功能
(包含：專業角色認知、反情感轉移、自我覺察...)

## 二、 督導議題 (請勾選)
(包含：專業關係、知能提升、個案研討、跨網絡合作...)

## 三、 督導策略 (請勾選)
(包含：個案討論、記錄檢核、角色扮演...)

## 四、 督導內容摘要與討論 (重點撰寫區)
1. **針對個案/議題之主要發現**
2. **督導給予之建議與指導**
3. **受督者之反思與回應**

## 五、 督導成效評估
(待觀察 / 部份達成 / 下次再加油 / 達成目標)

## 六、 下次督導預告
1. 預計追蹤事項
2. 受督者應完成作業

---
以下是輸入內容：
".

(** The prompt of [generateFeedbackSummary], up to the interpolated record. *)
Definition feedbackPrompt : string :=
"你是一位具社會工作督導經驗的專業工作者，理解敘事取向、創傷知情與支持式督導的精神。
你的任務是將提供的「督導紀錄」轉譯為一張「寫給社工的回饋卡片」。

【輸出要求】
1. **feedbackCard**：字數 50 到 80 字之間。語氣溫暖、肯定、具有支持力量。包含「看見」、「轉換」、「祝福」。**嚴格禁止使用任何關於「發芽、生長、種子、茁壯、長出」等植物生長的隱喻。** 請改用「構築、編織、沉澱、凝聚、點亮、守護、並行」等意象。
2. **healingSentence**：提供一句療癒金句。**嚴格禁止使用植物生長隱喻。**
3. **theme**：用於生成插圖的英文關鍵字（例如：inner peace, weaving light, gentle morning sun）。**嚴格禁止使用「sprout, seedling, growth」等關鍵字。**
4. **designConfig**：根據回饋內容的「情緒重量」與「主題」，建議最適合的排版設計：
   - **textColor**: 'light' (白色系，適合深色背景) 或 'dark' (深灰色系，適合淺色背景)。
   - **textPosition**: 'top', 'center', 或 'bottom'。
   - **fontStyle**: 'rounded' (親切、柔和), 'serif' (優雅、專業), 或 'handwritten' (感性、個人化)。

請以 JSON 格式回傳。

督導紀錄內容：
".

(** The system instructions of [refineContent], one per kind of content,
    and of [refineImagePrompt]. *)
Definition recordEditor : string :=
"你是一位資深的社工督導行政助理。請根據使用者的指令微調目前的督導紀錄。保持專業、結構化且符合邏輯。".

Definition feedbackEditor : string :=
"你是一位溫暖的社工督導。請根據使用者的指令微調目前的回饋卡片內容。保持溫暖、正向，字數控制在 50-80 字。".

Definition promptEngineer : string :=
"你是一位專業的 AI 繪圖提示詞工程師。請根據使用者的指令微調目前的提示詞。保持英文輸出，確保提示詞精確且能生成高品質圖像。不要包含任何解釋文字，只輸出最終的提示詞。".

(** The fixed text of the template of [refineContent], before the
    current content and between it and the instruction. *)
Definition refineHead : string :=
"目前的內容：
      ".

Definition refineMiddle : string :=
"

      指令：
      ".

(** The same for [refineImagePrompt]. *)
Definition refinePromptHead : string :=
"目前的提示詞：
      ".

Definition refinePromptMiddle : string :=
"

      指令：
      ".

(** The style table [IMAGE_STYLES]: its ten own properties, in source order. *)
Definition IMAGE_STYLES : Js.Props :=
  [ ("auto", VString
      "A unique, artistic illustration. Style: Modern, healing. SCENE: A vast landscape with rolling hills, a distant mountain range, or an abstract tapestry of weaving light. STICK TO LANDSCAPES OR ABSTRACT ART. STRICTLY FORBIDDEN: SPROUTS, SEEDLINGS, LEAVES, GREEN PLANTS, ANY GROWTH METAPHORS. ABSOLUTELY NO TEXT.");
    ("cute_animal", VString
      "A cute and warm illustration. SCENE: A busy forest festival with many different animals (rabbits, cats, dogs, bears) playing musical instruments or sharing a feast. RICH BACKGROUND with many details. NO PLANTS IN FOCUS. STRICTLY FORBIDDEN: SPROUTS, SEEDLINGS, LEAVES. ABSOLUTELY NO TEXT.");
    ("warm_book", VString
      "A warm, healing illustration, picture book style. SCENE: A wide-angle view of a cozy village at night with glowing windows, or a library with floating books and warm candlelight. FOCUS ON ATMOSPHERE. STRICTLY FORBIDDEN: SPROUTS, SEEDLINGS, LEAVES. ABSOLUTELY NO TEXT.");
    ("nature_organic", VString
      "Style: Soft painterly edges, ink wash. SCENE: A grand waterfall cascading into a misty lake, or a wide rocky canyon with glowing minerals. FOCUS ON GEOLOGICAL VASTNESS. STRICTLY FORBIDDEN: SPROUTS, SEEDLINGS, GREEN LEAVES. ABSOLUTELY NO TEXT.");
    ("frieren_fantasy", VString
      "A beautiful elf female mage, Sousou no Frieren style. SCENE: She is standing on a high stone balcony overlooking a massive stone castle and a sunset sea. FOCUS ON ARCHITECTURE AND SCALE. STRICTLY FORBIDDEN: SPROUTS, SEEDLINGS, LEAVES. ABSOLUTELY NO TEXT.");
    ("professional_calm", VString
      "Professional, minimalist illustration. Modern editorial style. SCENE: An abstract composition of many overlapping translucent geometric shapes, or a complex network of delicate golden threads. FOCUS ON BALANCE. STRICTLY FORBIDDEN: SPROUTS, SEEDLINGS, LEAVES. ABSOLUTELY NO TEXT.");
    ("starry_dream", VString
      "A dreamlike illustration of a vast galaxy. SCENE: Thousands of stars, swirling nebulae, and distant planets. A cosmic journey. STRICTLY FORBIDDEN: ANY TERRESTRIAL PLANTS, SPROUTS, SEEDLINGS. ABSOLUTELY NO TEXT.");
    ("oil_texture", VString
      "A rich, textured oil painting. SCENE: A classic landscape of a winding river through a rocky valley, or a stormy sea with crashing waves. FOCUS ON TEXTURE. STRICTLY FORBIDDEN: SPROUTS, SEEDLINGS, LEAVES. ABSOLUTELY NO TEXT.");
    ("minimalist_line", VString
      "Minimalist line art on textured cream background. SCENE: A complex, continuous line drawing of a mountain range or a series of interconnected geometric patterns. STRICTLY FORBIDDEN: SPROUTS, SEEDLINGS, LEAVES. ABSOLUTELY NO TEXT.");
    ("ghibli_fresh", VString
      "Studio Ghibli style. SCENE: A vast, lush valley with a train track running through it, or a high-altitude view of a seaside town with many houses, ships, and a bustling harbor. RICH IN ARCHITECTURAL DETAIL. STRICTLY FORBIDDEN: SPROUTS, SEEDLINGS, LEAVES. ABSOLUTELY NO TEXT.") ].

(** The negative constraint appended to every image prompt. *)
Definition noText : string :=
  "ABSOLUTELY NO TEXT, NO LETTERS, NO CHARACTERS, NO WORDS IN THE IMAGE.".

(** [a || b] for a string or [undefined] on the left. *)
Definition orElse (a : option string) (b : string) : string :=
  match a with
  | Some s => if Str.truthy s then s else b
  | None => b
  end.

(** A piece of literal text in a template. *)
Definition lit (s : string) : option string := Some s.

(** A template literal: its pieces converted and concatenated in order;
    [None] when a conversion throws. *)
Definition interp (pieces : list (option string)) : option string :=
  option_map (String.concat "") (Js.all_some pieces).

(** The schema [generateFeedbackSummary] sends. *)
Definition feedbackSchema : Schema :=
  SObject
    [ ("feedbackCard", SString None);
      ("healingSentence", SString None);
      ("theme", SString None);
      ("designConfig",
        SObject
          [ ("textColor", SString (Some ["light"; "dark"]));
            ("textPosition", SString (Some ["top"; "center"; "bottom"]));
            ("fontStyle", SString (Some ["rounded"; "serif"; "handwritten"])) ]
          ["textColor"; "textPosition"; "fontStyle"]) ]
    ["feedbackCard"; "healingSentence"; "theme"; "designConfig"].

(** The [type] argument of [refineContent]: ['record' | 'feedback']. *)
Inductive ContentKind : Type := KRecord | KFeedback.

(** The first part of the first candidate that carries inline data, as
    a data URI; [None] is the [null] returned when there is none. *)
Fixpoint firstInline (ps : list Part) : option string :=
  match ps with
  | [] => None
  | part :: rest =>
      match inlineData part with
      | Some d =>
          Some ("data:image/png;base64,"
                ++ match data d with Some b => b | None => "undefined" end)
      | None => firstInline rest
      end
  end.

(** [response.candidates?.[0]?.content?.parts || []] *)
Definition firstParts (response : Response) : list Part :=
  match candidates response with
  | Some (c :: _) =>
      match content c with
      | Some ct => match parts ct with Some ps => ps | None => [] end
      | None => []
      end
  | _ => []
  end.

Section Client.

Context {X : Type} (h : Host X).

(** [getAI(customKey)]: the key the client is built with,
    [customKey || process.env.GEMINI_API_KEY || ""]. *)
Definition getAI (customKey : option string) : string :=
  orElse customKey (orElse (GEMINI_API_KEY h) "").

(** [await ai.models.generateContent(req)] *)
Definition generate (ai : string) (req : Request) : Eff X Response :=
  fun x => let (r, x1) := generateContent h ai req x in (r, x1, [Issued ai req]).

Definition generateFormalRecord (input : string) (customKey : option string)
  : Eff X (option string) :=
  withRetry h
    (response <- generate (getAI customKey)
                   (mkRequest "gemini-3.1-pro-preview" (Text (recordPrompt ++ input)) noConfig) ;;
     ret (text response))
    defaultRetries.

(** The object [{ ...data, fullText: `${data.feedbackCard}\n\n${data.healingSentence}` }];
    reading a property of [null] throws. *)
Definition withFullText (data : JsValue) : Eff X Js.Props :=
  match data with
  | VNull => throw (typeError "Cannot read properties of null (reading 'feedbackCard')")
  | _ =>
      fullText <- template (interp [Js.toString (Js.member data "feedbackCard");
                                    lit (Str.nl ++ Str.nl);
                                    Js.toString (Js.member data "healingSentence")]) ;;
      ret (Js.set (Js.spread data) "fullText" (VString fullText))
  end.

(** [JSON.parse(response.text || "{}")] *)
Definition parsePayload (response : Response) : Eff X JsValue :=
  let payload := orElse (text response) "{}" in
  match JSON.parse payload with
  | Some data => ret data
  | None => throw (ThrownError (syntaxError h payload))
  end.

Definition feedbackRequest (formalRecord : string) : Request :=
  mkRequest "gemini-3.1-pro-preview" (Text (feedbackPrompt ++ formalRecord))
    (mkConfig None (Some "application/json") (Some feedbackSchema) None).

Definition generateFeedbackSummary (formalRecord : string) (customKey : option string)
  : Eff X Js.Props :=
  withRetry h
    (response <- generate (getAI customKey) (feedbackRequest formalRecord) ;;
     data <- parsePayload response ;;
     withFullText data)
    defaultRetries.

(** The prompt [generateCardImage] sends: the raw prompt when one is
    given, else the template of the style, [warm_book] standing in for a
    style whose lookup is falsy. *)
Definition finalPrompt (theme : JsValue) (styleKey : string) (rawPrompt : option string)
  : option string :=
  let styled :=
    let stylePrompt :=
      Js.or (Js.lookup IMAGE_STYLES styleKey) (Js.lookup IMAGE_STYLES "warm_book") in
    if String.eqb styleKey "auto"
    then interp [Js.toString stylePrompt; lit " The theme is: "; Js.toString theme;
                 lit ". Create a visual metaphor for this theme. "; lit noText]
    else interp [Js.toString stylePrompt; lit " Theme: "; Js.toString theme;
                 lit ". "; lit noText] in
  match rawPrompt with
  | Some raw => if Str.truthy raw then Some (raw ++ ". " ++ noText) else styled
  | None => styled
  end.

Definition imageRequest (prompt : string) : Request :=
  mkRequest "gemini-3-pro-image-preview" (Parts [prompt])
    (mkConfig None None None (Some (mkImageConfig "3:4" "1K"))).

(** [styleKey] defaults to ['warm_book'] when the argument is [undefined]. *)
Definition generateCardImage (theme : JsValue) (styleKey : option string)
    (rawPrompt : option string) (customKey : option string)
  : Eff X (option string) :=
  let styleKey := match styleKey with Some k => k | None => "warm_book" end in
  withRetry h
    (prompt <- template (finalPrompt theme styleKey rawPrompt) ;;
     response <- generate (getAI customKey) (imageRequest prompt) ;;
     ret (firstInline (firstParts response)))
    defaultRetries.

Definition refineContent (currentContent : JsValue) (instruction : string)
    (type : ContentKind) (customKey : option string)
  : Eff X (option string) :=
  withRetry h
    (let systemPrompt :=
       match type with KRecord => recordEditor | KFeedback => feedbackEditor end in
     body <- template (interp [lit refineHead; Js.toString currentContent;
                               lit refineMiddle; lit instruction]) ;;
     response <- generate (getAI customKey)
                   (mkRequest "gemini-3.1-pro-preview" (Text body)
                      (mkConfig (Some systemPrompt) None None None)) ;;
     ret (text response))
    defaultRetries.

Definition refineImagePrompt (currentPrompt : string) (instruction : string)
    (customKey : option string)
  : Eff X (option string) :=
  withRetry h
    (response <- generate (getAI customKey)
                   (mkRequest "gemini-3.1-pro-preview"
                      (Text (refinePromptHead ++ currentPrompt
                             ++ refinePromptMiddle ++ instruction))
                      (mkConfig (Some promptEngineer) None None None)) ;;
     ret (text response))
    defaultRetries.

End Client.

(** ** The wizard ([App]) *)

(** The messages the handlers store in [error]. *)
Definition errKeyExpired : string :=
  "API Key 效期已過或未設定，請重新連接。".

Definition errQuota : string :=
  "API 使用額度已達上限，請稍後再試，或檢查您的 API Key 設定。".

Definition errRecord : string :=
  "生成紀錄時發生錯誤，請稍後再試。".

Definition errRefine : string :=
  "微調內容時發生錯誤，請稍後再試。".

Definition errRefineImage : string :=
  "微調圖像提示詞時發生錯誤，請稍後再試。".

Definition errFeedback : string :=
  "生成回饋內容時發生錯誤。".

Definition errVisual : string :=
  "生成視覺卡片時發生錯誤。".

(** [type Step = 'initial' | 'record' | 'feedback' | 'visual'] *)
Module Step.
Inductive t : Type := initial | record | feedback | visual.
End Step.

(** The state hooks of [App] that the handlers read or write. *)
Record AppState : Type := mkApp {
  input : string;
  isGenerating : bool;
  formalRecord : string;
  feedback : option Js.Props;
  cardImage : option string;
  imagePrompt : option string;
  step : Step.t;
  selectedStyle : string;
  error : option string;
  hasKey : bool;
  isEditing : bool;
  refinementInput : string;
  isRefining : bool;
  imageRefinementInput : string;
  isRefiningImage : bool;
  userApiKey : string
}.

(** The initial value of every hook. *)
Definition initialState : AppState :=
  mkApp "" false "" None None None Step.initial "auto" None true
        false "" false "" false "".

(** *** The setters *)

Definition setInput (v : string) (s : AppState) : AppState :=
  let 'mkApp _ isGenerating formalRecord feedback cardImage imagePrompt step
        selectedStyle error hasKey isEditing refinementInput isRefining
        imageRefinementInput isRefiningImage userApiKey := s in
  mkApp v isGenerating formalRecord feedback cardImage imagePrompt step
        selectedStyle error hasKey isEditing refinementInput isRefining
        imageRefinementInput isRefiningImage userApiKey.

Definition setIsGenerating (v : bool) (s : AppState) : AppState :=
  let 'mkApp input _ formalRecord feedback cardImage imagePrompt step
        selectedStyle error hasKey isEditing refinementInput isRefining
        imageRefinementInput isRefiningImage userApiKey := s in
  mkApp input v formalRecord feedback cardImage imagePrompt step
        selectedStyle error hasKey isEditing refinementInput isRefining
        imageRefinementInput isRefiningImage userApiKey.

Definition setFormalRecord (v : string) (s : AppState) : AppState :=
  let 'mkApp input isGenerating _ feedback cardImage imagePrompt step
        selectedStyle error hasKey isEditing refinementInput isRefining
        imageRefinementInput isRefiningImage userApiKey := s in
  mkApp input isGenerating v feedback cardImage imagePrompt step
        selectedStyle error hasKey isEditing refinementInput isRefining
        imageRefinementInput isRefiningImage userApiKey.

(** [setFeedback] takes the function of the previous value, as the
    functional updates of the source do. *)
Definition setFeedback (f : option Js.Props -> option Js.Props) (s : AppState)
  : AppState :=
  let 'mkApp input isGenerating formalRecord feedback cardImage imagePrompt step
        selectedStyle error hasKey isEditing refinementInput isRefining
        imageRefinementInput isRefiningImage userApiKey := s in
  mkApp input isGenerating formalRecord (f feedback) cardImage imagePrompt step
        selectedStyle error hasKey isEditing refinementInput isRefining
        imageRefinementInput isRefiningImage userApiKey.

Definition setCardImage (v : option string) (s : AppState) : AppState :=
  let 'mkApp input isGenerating formalRecord feedback _ imagePrompt step
        selectedStyle error hasKey isEditing refinementInput isRefining
        imageRefinementInput isRefiningImage userApiKey := s in
  mkApp input isGenerating formalRecord feedback v imagePrompt step
        selectedStyle error hasKey isEditing refinementInput isRefining
        imageRefinementInput isRefiningImage userApiKey.

Definition setImagePrompt (v : option string) (s : AppState) : AppState :=
  let 'mkApp input isGenerating formalRecord feedback cardImage _ step
        selectedStyle error hasKey isEditing refinementInput isRefining
        imageRefinementInput isRefiningImage userApiKey := s in
  mkApp input isGenerating formalRecord feedback cardImage v step
        selectedStyle error hasKey isEditing refinementInput isRefining
        imageRefinementInput isRefiningImage userApiKey.

Definition setStep (v : Step.t) (s : AppState) : AppState :=
  let 'mkApp input isGenerating formalRecord feedback cardImage imagePrompt _
        selectedStyle error hasKey isEditing refinementInput isRefining
        imageRefinementInput isRefiningImage userApiKey := s in
  mkApp input isGenerating formalRecord feedback cardImage imagePrompt v
        selectedStyle error hasKey isEditing refinementInput isRefining
        imageRefinementInput isRefiningImage userApiKey.

Definition setError (v : option string) (s : AppState) : AppState :=
  let 'mkApp input isGenerating formalRecord feedback cardImage imagePrompt step
        selectedStyle _ hasKey isEditing refinementInput isRefining
        imageRefinementInput isRefiningImage userApiKey := s in
  mkApp input isGenerating formalRecord feedback cardImage imagePrompt step
        selectedStyle v hasKey isEditing refinementInput isRefining
        imageRefinementInput isRefiningImage userApiKey.

Definition setHasKey (v : bool) (s : AppState) : AppState :=
  let 'mkApp input isGenerating formalRecord feedback cardImage imagePrompt step
        selectedStyle error _ isEditing refinementInput isRefining
        imageRefinementInput isRefiningImage userApiKey := s in
  mkApp input isGenerating formalRecord feedback cardImage imagePrompt step
        selectedStyle error v isEditing refinementInput isRefining
        imageRefinementInput isRefiningImage userApiKey.

Definition setIsEditing (v : bool) (s : AppState) : AppState :=
  let 'mkApp input isGenerating formalRecord feedback cardImage imagePrompt step
        selectedStyle error hasKey _ refinementInput isRefining
        imageRefinementInput isRefiningImage userApiKey := s in
  mkApp input isGenerating formalRecord feedback cardImage imagePrompt step
        selectedStyle error hasKey v refinementInput isRefining
        imageRefinementInput isRefiningImage userApiKey.

Definition setRefinementInput (v : string) (s : AppState) : AppState :=
  let 'mkApp input isGenerating formalRecord feedback cardImage imagePrompt step
        selectedStyle error hasKey isEditing _ isRefining
        imageRefinementInput isRefiningImage userApiKey := s in
  mkApp input isGenerating formalRecord feedback cardImage imagePrompt step
        selectedStyle error hasKey isEditing v isRefining
        imageRefinementInput isRefiningImage userApiKey.

Definition setIsRefining (v : bool) (s : AppState) : AppState :=
  let 'mkApp input isGenerating formalRecord feedback cardImage imagePrompt step
        selectedStyle error hasKey isEditing refinementInput _
        imageRefinementInput isRefiningImage userApiKey := s in
  mkApp input isGenerating formalRecord feedback cardImage imagePrompt step
        selectedStyle error hasKey isEditing refinementInput v
        imageRefinementInput isRefiningImage userApiKey.

Definition setImageRefinementInput (v : string) (s : AppState) : AppState :=
  let 'mkApp input isGenerating formalRecord feedback cardImage imagePrompt step
        selectedStyle error hasKey isEditing refinementInput isRefining
        _ isRefiningImage userApiKey := s in
  mkApp input isGenerating formalRecord feedback cardImage imagePrompt step
        selectedStyle error hasKey isEditing refinementInput isRefining
        v isRefiningImage userApiKey.

Definition setIsRefiningImage (v : bool) (s : AppState) : AppState :=
  let 'mkApp input isGenerating formalRecord feedback cardImage imagePrompt step
        selectedStyle error hasKey isEditing refinementInput isRefining
        imageRefinementInput _ userApiKey := s in
  mkApp input isGenerating formalRecord feedback cardImage imagePrompt step
        selectedStyle error hasKey isEditing refinementInput isRefining
        imageRefinementInput v userApiKey.

(** Which way a handler went: it returned at its guard, it ran its [try]
    block to the end, or it ran its [catch] block with the error. *)
Inductive Path : Type :=
| Skipped
| Completed
| Caught (e : Thrown).

(** What a handler leaves: the state, the host state, the events and the
    way it went. *)
Definition Handled (X : Type) : Type := AppState * X * list Event * Path.

Definition thrownMessage (e : Thrown) : option string :=
  match e with
  | ThrownUndefined => None
  | ThrownError err => message err
  end.

Definition Step_eqb (a b : Step.t) : bool :=
  match a, b with
  | Step.initial, Step.initial | Step.record, Step.record
  | Step.feedback, Step.feedback | Step.visual, Step.visual => true
  | _, _ => false
  end.

(** [feedback?.key] *)
Definition feedbackField (fb : option Js.Props) (key : string) : JsValue :=
  match fb with
  | Some props => Js.lookup props key
  | None => VUndefined
  end.

Definition ofText (t : option string) : JsValue :=
  match t with Some s => VString s | None => VUndefined end.

(** The prompt [handleGoToVisual] builds from the selected style and the
    theme of the feedback. *)
Definition visualTheme (s : AppState) : JsValue :=
  Js.or (feedbackField (feedback s) "theme") (VString "warmth").

Definition visualPrompt (s : AppState) : option string :=
  let stylePrompt := Js.lookup IMAGE_STYLES (selectedStyle s) in
  let theme := visualTheme s in
  if String.eqb (selectedStyle s) "auto"
  then interp [lit "aspect ratio 9:16. "; Js.toString stylePrompt;
               lit " The theme is: "; Js.toString theme;
               lit ". Create a visual metaphor for this theme."]
  else interp [Js.toString stylePrompt; lit " Theme: "; Js.toString theme; lit "."].

Section Handlers.

Context {X : Type} (h : Host X).

Definition handleGenerateRecord (s : AppState) (x : X) : Handled X :=
  if negb (Str.truthy (Str.trim (input s))) then (s, x, [], Skipped)
  else
    let s' := setError None (setIsGenerating true s) in
    match generateFormalRecord h (input s) (Some (userApiKey s)) x with
    | (Normal record, x1, tr) =>
        let s' := setStep Step.record (setFormalRecord (orElse record "") s') in
        (setIsGenerating false s', x1, tr, Completed)
    | (Throw err, x1, tr) =>
        let s' :=
          if messageIncludes "Requested entity was not found" (thrownMessage err)
          then setError (Some errKeyExpired) (setHasKey false s')
          else setError
                 (Some (if messageIncludes "RESOURCE_EXHAUSTED" (thrownMessage err)
                        then errQuota else errRecord)) s' in
        (setIsGenerating false s', x1, tr, Caught err)
    end.

Definition handleRefine (s : AppState) (x : X) : Handled X :=
  if negb (Str.truthy (Str.trim (refinementInput s))) then (s, x, [], Skipped)
  else
    let isRecord := Step_eqb (step s) Step.record in
    let s' := setError None (setIsRefining true s) in
    let currentContent :=
      if isRecord then VString (formalRecord s)
      else Js.or (feedbackField (feedback s) "fullText") (VString "") in
    let type := if isRecord then KRecord else KFeedback in
    match refineContent h currentContent (refinementInput s) type
            (Some (userApiKey s)) x with
    | (Normal refined, x1, tr) =>
        let s' :=
          if isRecord then setFormalRecord (orElse refined "") s'
          else setFeedback
                 (fun prev => match prev with
                              | Some p => Some (Js.set p "fullText" (ofText refined))
                              | None => None
                              end) s' in
        (setIsRefining false (setRefinementInput "" s'), x1, tr, Completed)
    | (Throw err, x1, tr) =>
        (setIsRefining false (setError (Some errRefine) s'), x1, tr, Caught err)
    end.

Definition handleRefineImage (s : AppState) (x : X) : Handled X :=
  let currentPrompt := orElse (imagePrompt s) "" in
  if negb (Str.truthy (Str.trim (imageRefinementInput s)))
     || negb (Str.truthy currentPrompt)
  then (s, x, [], Skipped)
  else
    let s' := setError None (setIsRefiningImage true s) in
    let failed t := setIsRefiningImage false (setError (Some errRefineImage) t) in
    match refineImagePrompt h currentPrompt (imageRefinementInput s)
            (Some (userApiKey s)) x with
    | (Normal refinedPrompt, x1, tr1) =>
        if Str.truthy (orElse refinedPrompt "") then
          let s' := setCardImage None (setImagePrompt refinedPrompt s') in
          match generateCardImage h (VString "") (Some (selectedStyle s))
                  refinedPrompt (Some (userApiKey s)) x1 with
          | (Normal newImage, x2, tr2) =>
              let s' := setImageRefinementInput "" (setCardImage newImage s') in
              (setIsRefiningImage false s', x2, (tr1 ++ tr2)%list, Completed)
          | (Throw err, x2, tr2) => (failed s', x2, (tr1 ++ tr2)%list, Caught err)
          end
        else
          (setIsRefiningImage false (setImageRefinementInput "" s'), x1, tr1, Completed)
    | (Throw err, x1, tr1) => (failed s', x1, tr1, Caught err)
    end.

Definition handleGoToFeedback (s : AppState) (x : X) : Handled X :=
  let s' := setError None (setIsGenerating true s) in
  let failed := setIsGenerating false (setError (Some errFeedback) s') in
  match generateFeedbackSummary h (formalRecord s) (Some (userApiKey s)) x with
  | (Normal summary, x1, tr) =>
      match interp [Js.toString (Js.lookup summary "feedbackCard");
                    lit (Str.nl ++ Str.nl);
                    Js.toString (Js.lookup summary "healingSentence")] with
      | Some fullText =>
          let s' :=
            setFeedback (fun _ => Some (Js.set summary "fullText" (VString fullText))) s' in
          let s' := setIsEditing false (setStep Step.feedback s') in
          (setIsGenerating false s', x1, tr, Completed)
      | None =>
          (failed, x1, tr,
           Caught (typeError "Cannot convert object to primitive value"))
      end
  | (Throw err, x1, tr) => (failed, x1, tr, Caught err)
  end.

Definition handleGoToVisual (s : AppState) (x : X) : Handled X :=
  let s' := setError None (setIsGenerating true s) in
  let failed t := setIsGenerating false (setError (Some errVisual) t) in
  match visualPrompt s with
  | Some prompt =>
      let s' := setImagePrompt (Some prompt) s' in
      match generateCardImage h (visualTheme s) (Some (selectedStyle s))
              (Some prompt) (Some (userApiKey s)) x with
      | (Normal image, x1, tr) =>
          let s' := setStep Step.visual (setCardImage image s') in
          (setIsGenerating false s', x1, tr, Completed)
      | (Throw err, x1, tr) => (failed s', x1, tr, Caught err)
      end
  | None =>
      (failed s', x, [],
       Caught (typeError "Cannot convert object to primitive value"))
  end.

End Handlers.

(** The [onClick] of the button that leads back from the card:
    [setStep('feedback')]. *)
Definition backToFeedback (s : AppState) : AppState := setStep Step.feedback s.

Definition reset (s : AppState) : AppState :=
  setIsEditing false
    (setInput ""
       (setImagePrompt None
          (setCardImage None
             (setFeedback (fun _ => None)
                (setFormalRecord "" (setStep Step.initial s)))))).

(** ** The export service ([exportService.ts]) *)

Module ExportService.

Definition newline : ascii := ascii_of_nat 10.

(** [s.split("\n")]: the lines of a text; the empty text has one line. *)
Fixpoint split (s : string) : list string :=
  match s with
  | EmptyString => [""]
  | String c rest =>
      match split rest with
      | line :: lines =>
          if Ascii.eqb c newline then "" :: line :: lines
          else String c line :: lines
      | [] => [String c ""]
      end
  end.

(** What is left of [s] after its first [n] bytes. *)
Fixpoint drop (n : nat) (s : string) : string :=
  match n, s with
  | O, _ => s
  | S n', String _ rest => drop n' rest
  | S _, EmptyString => ""
  end.

(** [s.replace(pattern, replacement)] for a string pattern and a
    replacement without [$]: the first occurrence only. *)
Fixpoint replace (pattern replacement s : string) : string :=
  if String.prefix pattern s
  then replacement ++ drop (String.length pattern) s
  else match s with
       | EmptyString => ""
       | String c rest => String c (replace pattern replacement rest)
       end.

(** [HeadingLevel] of the docx library, as far as it is used. *)
Inductive HeadingLevel : Type := HEADING_1 | HEADING_2 | HEADING_3.

(** [new TextRun(text)] *)
Record TextRun : Type := mkTextRun { runText : string }.

(** The options a [Paragraph] is built from: [text], [heading],
    [bullet.level] and [children]. *)
Record Paragraph : Type := mkParagraph {
  text : option string;
  heading : option HeadingLevel;
  bullet : option nat;
  children : list TextRun
}.

(** The paragraph that the body of [lines.forEach] pushes for a line.
    [trimmed.substring(2)] follows a test that the first two characters
    are ASCII, so it drops two bytes. *)
Definition paragraph (line : string) : Paragraph :=
  let trimmed := Str.trim line in
  if String.prefix "# " trimmed then
    mkParagraph (Some (replace "# " "" trimmed)) (Some HEADING_1) None []
  else if String.prefix "## " trimmed then
    mkParagraph (Some (replace "## " "" trimmed)) (Some HEADING_2) None []
  else if String.prefix "### " trimmed then
    mkParagraph (Some (replace "### " "" trimmed)) (Some HEADING_3) None []
  else if String.prefix "- " trimmed || String.prefix "* " trimmed then
    mkParagraph (Some (drop 2 trimmed)) None (Some 0) []
  else if (0 <? String.length trimmed)%nat then
    mkParagraph None None None [mkTextRun trimmed]
  else mkParagraph (Some "") None None [].

(** One section with the paragraphs as its children. *)
Record Document : Type := mkDocument { sections : list (list Paragraph) }.

(** The document [exportToWord] builds from the markdown text. *)
Definition document (markdown : string) : Document :=
  mkDocument [map paragraph (split markdown)].

(** The name the file is saved under. *)
Definition fileName : string := "督導紀錄表.docx".

Section Saving.

(** The docx packer and the file saver: [Packer.toBlob] may reject,
    [saveAs] stores a blob under a name. *)
Context {Y Blob : Type}
        (Packer_toBlob : Document -> Y -> Completion Blob * Y)
        (saveAs : Blob -> string -> Y -> Y).

Definition exportToWord (markdown : string) (y : Y) : Completion unit * Y :=
  match Packer_toBlob (document markdown) y with
  | (Normal blob, y1) => (Normal tt, saveAs blob fileName y1)
  | (Throw e, y1) => (Throw e, y1)
  end.

(** [handleDownloadWord]: nothing is exported for an empty record. *)
Definition handleDownloadWord (s : AppState) (y : Y) : Completion unit * Y :=
  if Str.truthy (formalRecord s) then exportToWord (formalRecord s) y
  else (Normal tt, y).

End Saving.

End ExportService.

(** * Vocabulary of the properties *)

(** ** What a successful parse tells *)

Module ParseOk.

Import JSON.

(** What a successful parse tells: the rest is shorter than the text,
    and any fuel from a bound in the number of bytes consumed gives the
    same result. *)
Definition value_ok (f : nat) : Prop :=
  forall cs v r,
    value f cs = Some (v, r) ->
    length r < length cs
    /\ forall g, 2 * (length cs - length r) <= g -> value g cs = Some (v, r).

Definition elements_ok (f : nat) : Prop :=
  forall cs acc v r,
    elements f cs acc = Some (v, r) ->
    length r < length cs
    /\ forall g, 2 * (length cs - length r) + 1 <= g ->
                 elements g cs acc = Some (v, r).

Definition members_ok (f : nat) : Prop :=
  forall cs acc v r,
    members f cs acc = Some (v, r) ->
    length r < length cs
    /\ forall g, 2 * (length cs - length r) + 1 <= g ->
                 members g cs acc = Some (v, r).

End ParseOk.

(** ** Traces of the retry wrapper *)

Definition isAttempt (ev : Event) : bool :=
  match ev with Attempt _ _ => true | _ => false end.

Definition isSleep (ev : Event) : bool :=
  match ev with Sleep _ => true | _ => false end.

(** How many times a trace of [withRetry] shows the operation called. *)
Definition attempts (tr : list Event) : nat := length (filter isAttempt tr).

Section RetryVocabulary.

Context {X T : Type} (h : Host X) (fn : Eff X T).

(** The host state a retried attempt leaves to the next one: the state
    after the operation, then after the draw of [Math.random]. *)
Definition afterRetry (x : X) : X := snd (Math_random h (snd (fst (fn x)))).

(** The host state in which attempt [k] runs when every attempt before
    it was retried. *)
Fixpoint hostBefore (k : nat) (x : X) : X :=
  match k with
  | O => x
  | S k' => hostBefore k' (afterRetry x)
  end.

Definition outcome (k : nat) (x : X) : Completion T := fst (fst (fn (hostBefore k x))).

Definition hostAfter (k : nat) (x : X) : X := snd (fst (fn (hostBefore k x))).

(** Attempt [k] fails with an error classified as rate limit. *)
Definition rateLimited (k : nat) (x : X) : Prop :=
  exists e, outcome k x = Throw e /\ isRateLimit e = true.

End RetryVocabulary.

(** ** The pipeline state

    The part of the state of [App] that the specification calls the
    pipeline state: the raw input, the formal record, the feedback, the
    image prompt, the card image and the current stage. *)

Module Pipeline.

Record State : Type := mk {
  rawInput : string;
  formalRecord : string;
  feedback : option Js.Props;
  imagePrompt : option string;
  cardImage : option string;
  currentStage : Step.t
}.

Definition setImagePrompt (v : option string) (p : State) : State :=
  mk (rawInput p) (formalRecord p) (feedback p) v (cardImage p) (currentStage p).

Definition setCardImage (v : option string) (p : State) : State :=
  mk (rawInput p) (formalRecord p) (feedback p) (imagePrompt p) v (currentStage p).

Definition setStage (v : Step.t) (p : State) : State :=
  mk (rawInput p) (formalRecord p) (feedback p) (imagePrompt p) (cardImage p) v.

End Pipeline.

Definition pipeline (s : AppState) : Pipeline.State :=
  Pipeline.mk (input s) (formalRecord s) (feedback s) (imagePrompt s)
              (cardImage s) (step s).

(** The transitions of the stage machine. *)
Module Transition.
Inductive t : Type :=
| generateRecord
| generateFeedback
| generateVisual
| backToFeedback
| reset
| refine
| refineImage.
End Transition.

(** The handler behind each transition. *)
Definition run {X} (h : Host X) (t : Transition.t) (s : AppState) (x : X)
  : Handled X :=
  match t with
  | Transition.generateRecord => handleGenerateRecord h s x
  | Transition.generateFeedback => handleGoToFeedback h s x
  | Transition.generateVisual => handleGoToVisual h s x
  | Transition.backToFeedback => (backToFeedback s, x, [], Completed)
  | Transition.reset => (reset s, x, [], Completed)
  | Transition.refine => handleRefine h s x
  | Transition.refineImage => handleRefineImage h s x
  end.

(** ** Concrete hosts and states *)

Definition quotaError : Thrown :=
  ThrownError (mkError "ApiError" (Some 429%Z) None
                 (Some "RESOURCE_EXHAUSTED: quota exceeded")).

Definition serverError : Thrown :=
  ThrownError (mkError "ApiError" (Some 500%Z) None (Some "Internal error")).

Definition parseError (payload : string) : JsError :=
  mkError "SyntaxError" None None (Some "Unexpected token in JSON").

(** A host whose provider rejects every request with [err]; the host
    state counts the requests, [Math.random] always returns one half. *)
Definition failingHost (err : Thrown) : Host nat :=
  mkHost (fun _ _ n => (Throw err, S n)) (fun n => ((1 # 2)%Q, n)) None parseError.

(** A host whose provider answers every request with the text [payload]. *)
Definition answeringHost (payload : option string) : Host nat :=
  mkHost (fun _ _ n => (Normal (mkResponse payload None), S n))
         (fun n => ((1 # 2)%Q, n)) None parseError.

Definition dquote : string := String (ascii_of_nat 34) EmptyString.

(** [s] between double quotes. *)
Definition quoted (s : string) : string := dquote ++ s ++ dquote.

(** The payload
    [{"feedbackCard":"A","healingSentence":"B","theme":"calm",
      "designConfig":{"textColor":"light","textPosition":"center","fontStyle":"serif"}}]. *)
Definition samplePayload : string :=
  "{" ++ quoted "feedbackCard" ++ ":" ++ quoted "A" ++ ","
  ++ quoted "healingSentence" ++ ":" ++ quoted "B" ++ ","
  ++ quoted "theme" ++ ":" ++ quoted "calm" ++ ","
  ++ quoted "designConfig" ++ ":{"
  ++ quoted "textColor" ++ ":" ++ quoted "light" ++ ","
  ++ quoted "textPosition" ++ ":" ++ quoted "center" ++ ","
  ++ quoted "fontStyle" ++ ":" ++ quoted "serif" ++ "}}".

(** What that payload parses to. *)
Definition sampleData : Js.Props :=
  [ ("feedbackCard", VString "A");
    ("healingSentence", VString "B");
    ("theme", VString "calm");
    ("designConfig",
      VObject [ ("textColor", VString "light");
                ("textPosition", VString "center");
                ("fontStyle", VString "serif") ]) ].

Definition sampleFeedback : Js.Props :=
  (sampleData ++ [("fullText", VString ("A" ++ Str.nl ++ Str.nl ++ "B"))])%list.

(** The wizard at the feedback stage, with the sample feedback, the style
    [auto] selected and no image asked for yet. *)
Definition atFeedback : AppState :=
  setStep Step.feedback
    (setFeedback (fun _ => Some sampleFeedback)
       (setFormalRecord "record" (setInput "notes" initialState))).

(** An operation that always fails with [err]; the host state counts its
    calls. *)
Definition failingOperation (err : Thrown) : Eff nat unit :=
  fun n => (Throw err, S n, []).

(** A host whose provider answers ["C"] to every request. *)
Definition refiningHost : Host nat := answeringHost (Some "C").

(** The wizard at the feedback stage with an instruction typed in. *)
Definition refiningFeedback : AppState := setRefinementInput "shorter" atFeedback.

(** The wizard at the record stage. *)
Definition atRecord : AppState :=
  setStep Step.record (setFormalRecord "record" (setInput "notes" initialState)).

(** The white space and line terminator characters of ECMAScript, each
    as a string: U+0009..U+000D, U+0020, U+00A0, U+1680, U+2000..U+200A,
    U+2028, U+2029, U+202F, U+205F, U+3000 and U+FEFF. *)
Definition whitespace : list string :=
  map Str.of_bytes
    [ [9]; [10]; [11]; [12]; [13]; [32]; [194; 160]; [225; 154; 128];
      [226; 128; 128]; [226; 128; 129]; [226; 128; 130]; [226; 128; 131];
      [226; 128; 132]; [226; 128; 133]; [226; 128; 134]; [226; 128; 135];
      [226; 128; 136]; [226; 128; 137]; [226; 128; 138];
      [226; 128; 168]; [226; 128; 169]; [226; 128; 175];
      [226; 129; 159]; [227; 128; 128]; [239; 187; 191] ]%N.

(** A text made of white space only, the empty text included. *)
Definition blank (s : string) : Prop :=
  exists chars, Forall (fun c => In c whitespace) chars /\ s = String.concat "" chars.

(** The wizard at its first stage with a line of blanks typed in: two
    spaces, a tab, a no-break space, an ideographic space and a line feed. *)
Definition blankChars : list string :=
  map Str.of_bytes [ [32]; [32]; [9]; [194; 160]; [227; 128; 128]; [10] ]%N.

Definition blankTyped : AppState := setInput (String.concat "" blankChars) initialState.

(** The wizard showing a card. *)
Definition atVisual : AppState :=
  setStep Step.visual
    (setCardImage (Some "data:image/png;base64,AAAA")
       (setImagePrompt (Some "a prompt") atFeedback)).

(** ** More about traces *)

Definition isWarn (ev : Event) : bool :=
  match ev with Warn _ _ _ => true | _ => false end.

(** How many suspensions and how many warnings a trace of [withRetry]
    shows. *)
Definition sleeps (tr : list Event) : nat := length (filter isSleep tr).

Definition warns (tr : list Event) : nat := length (filter isWarn tr).

(** The time slept in a trace of [withRetry], in milliseconds. *)
Fixpoint sleepTotal (tr : list Event) : Q :=
  match tr with
  | [] => 0%Q
  | Sleep d :: rest => (d + sleepTotal rest)%Q
  | _ :: rest => sleepTotal rest
  end.

(** The longest a call of [withRetry] may sleep in all, in
    milliseconds: [2000 + 4000 + ...] and one second of jitter for each
    of the [maxRetries - 1] retries. *)
Definition worstBackoff (maxRetries : nat) : Z :=
  (2 ^ Z.of_nat (maxRetries - 1) - 1) * 2000 + Z.of_nat (maxRetries - 1) * 1000.

(** The requests handed to the provider in a trace, oldest first, those
    of the attempts included. *)
Fixpoint issued (tr : list Event) : list (string * Request) :=
  match tr with
  | [] => []
  | Attempt _ inner :: rest =>
      ((fix inside (l : list Event) : list (string * Request) :=
          match l with
          | [] => []
          | Issued k r :: l' => (k, r) :: inside l'
          | _ :: l' => inside l'
          end) inner ++ issued rest)%list
  | Issued k r :: rest => (k, r) :: issued rest
  | _ :: rest => issued rest
  end.

(** An operation that fails with [err] on its first [failures] calls and
    returns the number of the call afterwards; the host state counts the
    calls. *)
Definition flakyOperation (failures : nat) (err : Thrown) : Eff nat nat :=
  fun n => if (n <? failures)%nat then (Throw err, S n, []) else (Normal n, S n, []).

(** ** More about transitions *)

(** The stage a transition leads to when it completes. *)
Definition target (t : Transition.t) (from : Step.t) : Step.t :=
  match t with
  | Transition.generateRecord => Step.record
  | Transition.generateFeedback => Step.feedback
  | Transition.generateVisual => Step.visual
  | Transition.backToFeedback => Step.feedback
  | Transition.reset => Step.initial
  | Transition.refine | Transition.refineImage => from
  end.

(** Whether a transition is one of the five handlers that call the
    client. *)
Definition callsClient (t : Transition.t) : bool :=
  match t with
  | Transition.backToFeedback | Transition.reset => false
  | _ => true
  end.

(** The message a handler stores when it catches [e]. *)
Definition errorMessage (t : Transition.t) (e : Thrown) : string :=
  match t with
  | Transition.generateRecord =>
      if messageIncludes "Requested entity was not found" (thrownMessage e)
      then errKeyExpired
      else if messageIncludes "RESOURCE_EXHAUSTED" (thrownMessage e)
           then errQuota else errRecord
  | Transition.generateFeedback => errFeedback
  | Transition.generateVisual => errVisual
  | Transition.refine => errRefine
  | Transition.refineImage => errRefineImage
  | Transition.backToFeedback | Transition.reset => ""
  end.

(** The three busy flags, in the order [isGenerating], [isRefining],
    [isRefiningImage]. *)
Definition busy (s : AppState) : bool * bool * bool :=
  (isGenerating s, isRefining s, isRefiningImage s).

(** The busy flags after a transition that went past its guard: the
    flag of the handler is down, the others are as they were. *)
Definition released (t : Transition.t) (s : AppState) : bool * bool * bool :=
  match t with
  | Transition.generateRecord | Transition.generateFeedback
  | Transition.generateVisual => (false, isRefining s, isRefiningImage s)
  | Transition.refine => (isGenerating s, false, isRefiningImage s)
  | Transition.refineImage => (isGenerating s, isRefining s, false)
  | Transition.backToFeedback | Transition.reset => busy s
  end.

(** ** Attempts that end a call, and the backoff still ahead *)

(** An attempt is final when it succeeds, when its error is not a rate
    limit, or when it is the last one allowed. *)
Definition settled {T} (maxRetries k : nat) (c : Completion T) : Prop :=
  match c with
  | Normal _ => True
  | Throw e => isRateLimit e = false \/ S k = maxRetries
  end.

(** The backoff still ahead when [remaining] iterations are left from
    iteration [i] on. *)
Fixpoint backoffAhead (remaining i : nat) : Z :=
  match remaining with
  | O => 0
  | S r =>
      match r with
      | O => 0
      | S _ => 2 ^ Z.of_nat i * 2000 + 1000 + backoffAhead r (S i)
      end
  end.

(** The keys of the elements of an array or of the characters of a
    string are numerals: none is a name that starts with a letter. *)
Definition notNumeral (key : string) : Prop :=
  forall d, String.eqb (NilZero.string_of_uint d) key = false.

(** ** The exported document *)

(** The number of line feeds of a text. *)
Fixpoint lineBreaks (s : string) : nat :=
  match s with
  | EmptyString => 0
  | String c rest =>
      (if Ascii.eqb c ExportService.newline then 1 else 0) + lineBreaks rest
  end.

(** The marker that starts a heading of a level. *)
Definition marker (level : ExportService.HeadingLevel) : string :=
  match level with
  | ExportService.HEADING_1 => "# "
  | ExportService.HEADING_2 => "## "
  | ExportService.HEADING_3 => "### "
  end.

(** The paragraph of an empty line, and the paragraph of a line without
    a marker. *)
Definition emptyParagraph : ExportService.Paragraph :=
  ExportService.mkParagraph (Some "") None None [].

Definition plainParagraph (t : string) : ExportService.Paragraph :=
  ExportService.mkParagraph None None None [ExportService.mkTextRun t].

(** The texts a paragraph shows: its [text] option and its runs. *)
Definition texts (p : ExportService.Paragraph) : list string :=
  (match ExportService.text p with Some t => [t] | None => [] end
   ++ map ExportService.runText (ExportService.children p))%list.

(** The paragraphs of the sections of the document. *)
Definition paragraphs (markdown : string) : list ExportService.Paragraph :=
  concat (ExportService.sections (ExportService.document markdown)).

(** ** More hosts and states *)

(** A host whose provider answers the first request with the text ["C"]
    and rejects every later one with [err]; the host state counts the
    requests. *)
Definition falteringHost (err : Thrown) : Host nat :=
  mkHost (fun _ _ n =>
            (match n with
             | O => Normal (mkResponse (Some "C") None)
             | S _ => Throw err
             end, S n))
         (fun n => ((1 # 2)%Q, n)) None parseError.

(** The wizard showing a card, with an instruction for the image typed
    in. *)
Definition refiningImage : AppState := setImageRefinementInput "warmer" atVisual.

(** The wizard with a record of white space only: a space, a line feed
    and a space. *)
Definition blankRecordChars : list string := map Str.of_bytes [ [32]; [10]; [32] ]%N.

Definition blankRecord : AppState :=
  setFormalRecord (String.concat "" blankRecordChars) initialState.

(** A packer that never fails and a saver that notes the names of the
    files it stores. *)
Definition packAlways (d : ExportService.Document) (y : list string) :
    Completion ExportService.Document * list string :=
  (Normal d, y).

Definition saveName (blob : ExportService.Document) (name : string)
    (y : list string) : list string :=
  (name :: y)%list.

(** ** More about the retry wrapper *)

(** The rate limit condition as the specification words it: a failure
    whose signal indicates HTTP 429 (its status or its code is 429) or
    resource exhaustion (its message names [RESOURCE_EXHAUSTED]). *)
Definition signalsRateLimit (error : Thrown) : bool :=
  match error with
  | ThrownUndefined => false
  | ThrownError e =>
      is429 (status e) || is429 (code e)
      || messageIncludes "RESOURCE_EXHAUSTED" (message e)
  end.

(** The [SyntaxError] of a text that cannot be parsed, telling the
    position of the offending character. *)
Definition positionError : Thrown :=
  ThrownError (mkError "SyntaxError" None None
                 (Some "Unexpected token x in JSON at position 1429")).

(** The events after an attempt that is retried: the warning that names
    attempt [i] of [maxRetries] and the rounded delay, the suspension for
    that delay, attempt [i], and so on. *)
Fixpoint retries (maxRetries i : nat) (tr : list Event) : bool :=
  match tr with
  | [] => true
  | Warn rounded attempt m :: Sleep delay :: Attempt j _ :: rest =>
      (rounded =? Math_round delay)%Z && (attempt =? i)%nat
      && (m =? maxRetries)%nat && (j =? i)%nat
      && retries maxRetries (S i) rest
  | _ => false
  end.

(** A trace in the order of the loop: attempt 0 and then the retries;
    empty when nothing was attempted. *)
Definition inLoopOrder (maxRetries : nat) (tr : list Event) : bool :=
  match tr with
  | [] => true
  | Attempt O _ :: rest => retries maxRetries 1 rest
  | _ => false
  end.

(** A trace without its delays. *)
Definition untimed (ev : Event) : Event :=
  match ev with
  | Warn _ attempt m => Warn 0 attempt m
  | Sleep _ => Sleep 0
  | _ => ev
  end.

(** A host whose provider rejects every request with [err] and whose
    [Math.random] always returns [u]. *)
Definition drawingHost (u : Q) (err : Thrown) : Host nat :=
  mkHost (fun _ _ n => (Throw err, S n)) (fun n => (u, n)) None parseError.

(** The largest values below 1 that a generator of 52 and one of 53
    random bits return: [1 - 2^-52] and [1 - 2^-53]. *)
Definition nearOne52 : Q := (4503599627370495 # 4503599627370496)%Q.
Definition nearOne53 : Q := (9007199254740991 # 9007199254740992)%Q.

(** ** Rounding in binary64 *)

(** A shifted mantissa has lost a bit that was set. *)
Definition inexact (mrs : shr_record) : bool := shr_r mrs || shr_s mrs.

(** A double that is zero or positive. *)
Definition nonneg (f : spec_float) : Prop :=
  f = S754_zero false \/ exists m e, f = S754_finite false m e.

(** * Properties *)

(** ** The fuel of the parser is enough *)

Module JSONFacts.

Import JSON ParseOk.

Lemma skip_ws_length (cs : Bytes) : length (skip_ws cs) <= length cs.
Proof.
  induction cs as [|c r IH]; cbn; [lia|].
  destruct (is_ws c); cbn; lia.
Qed.

(** A string body that closes has consumed its closing quote at least. *)
Lemma string_body_length (n : nat) :
  forall cs acc s r,
    length cs <= n -> string_body cs acc = Some (s, r) -> length r < length cs.
Proof.
  induction n as [|n IH]; intros cs acc s r Hn Hbody.
  - destruct cs; [discriminate | cbn in Hn; lia].
  - destruct cs as [|c t]; [discriminate|]. cbn [string_body] in Hbody.
    cbn [length] in *.
    destruct (c =? quote)%N.
    { inversion Hbody; subst. lia. }
    destruct (c =? backslash)%N.
    { destruct t as [|e r0]; [discriminate|]. cbn [length] in *.
      destruct (e =? 117)%N.
      - destruct r0 as [|a [|b [|c' [|d r1]]]]; try discriminate.
        cbn [length] in *.
        destruct (hex4 a b c' d) as [u|]; [|discriminate].
        assert (Halone : forall acc', string_body r1 acc' = Some (s, r) ->
                                      length r < length r1).
        { intros acc'. apply IH. lia. }
        destruct r1 as [|b1 [|e1 [|a' [|b' [|c'' [|d' r2]]]]]];
          try (apply Halone in Hbody; cbn [length] in *; lia).
        destruct (hex4 a' b' c'' d') as [lo|];
          [|apply Halone in Hbody; cbn [length] in *; lia].
        destruct (_ && _ && _ && _);
          [|apply Halone in Hbody; cbn [length] in *; lia].
        apply IH in Hbody; cbn [length] in *; lia.
      - destruct (escape e); [|discriminate].
        apply IH in Hbody; lia. }
    destruct (c <? 32)%N; [discriminate|].
    apply IH in Hbody; lia.
Qed.

Lemma digits_length (cs : Bytes) : length (snd (digits cs)) <= length cs.
Proof.
  induction cs as [|c r IH]; cbn; [lia|].
  destruct (is_digit c); [|cbn; lia].
  destruct (digits r) as [d r']. cbn in *. lia.
Qed.

Lemma opt_minus_length (cs : Bytes) : length (snd (opt_minus cs)) <= length cs.
Proof. destruct cs as [|c r]; cbn; [lia|]. destruct (c =? 45)%N; cbn; lia. Qed.

Lemma int_part_length (cs i r : Bytes) :
  int_part cs = Some (i, r) -> length r < length cs.
Proof.
  destruct cs as [|c t]; [discriminate|]. unfold int_part.
  destruct (c =? 48)%N.
  - intros H. inversion H; subst. cbn. lia.
  - destruct (is_digit c) eqn:Hd; [|discriminate].
    intros H. inversion H as [Hdig]. clear H.
    cbn [digits] in Hdig. rewrite Hd in Hdig.
    pose proof (digits_length t) as Ht.
    destruct (digits t) as [d r']. inversion Hdig; subst. cbn in *. lia.
Qed.

Lemma frac_part_length (cs f r : Bytes) :
  frac_part cs = Some (f, r) -> length r <= length cs.
Proof.
  destruct cs as [|c t]; cbn.
  - intros H. inversion H; subst. cbn. lia.
  - destruct (c =? 46)%N.
    + pose proof (digits_length t) as Ht.
      destruct (digits t) as [[|d0 d] r']; [discriminate|].
      intros H. inversion H; subst. cbn in *. lia.
    + intros H. inversion H; subst. cbn. lia.
Qed.

Lemma sign_length (t sign r1 : Bytes) :
  match t with
  | s :: r' => if ((s =? 43) || (s =? 45))%N then ([s], r') else ([], t)
  | [] => ([], t)
  end = (sign, r1) ->
  length r1 <= length t.
Proof.
  destruct t as [|s r'].
  - intros H. inversion H; subst. lia.
  - destruct (_ || _)%N; intros H; inversion H; subst; cbn; lia.
Qed.

Lemma exp_part_length (cs e r : Bytes) :
  exp_part cs = Some (e, r) -> length r <= length cs.
Proof.
  destruct cs as [|c t]; cbn.
  - intros H. inversion H; subst. cbn. lia.
  - destruct (_ || _)%N.
    + destruct (match t with [] => _ | _ => _ end) as [sign r1] eqn:Hs.
      apply sign_length in Hs.
      pose proof (digits_length r1) as Hd.
      destruct (digits r1) as [[|d0 d] r2]; [discriminate|].
      intros H. inversion H; subst. cbn in *. lia.
    + intros H. inversion H; subst. cbn. lia.
Qed.

Lemma number_length (cs : Bytes) (v : JsValue) (r : Bytes) :
  number cs = Some (v, r) -> length r < length cs.
Proof.
  unfold number. pose proof (opt_minus_length cs) as Hm.
  destruct (opt_minus cs) as [m r0]. cbn [snd] in Hm.
  destruct (int_part r0) as [[i r1]|] eqn:Hi; [|discriminate].
  apply int_part_length in Hi.
  destruct (frac_part r1) as [[f r2]|] eqn:Hf; [|discriminate].
  apply frac_part_length in Hf.
  destruct (exp_part r2) as [[e r3]|] eqn:He; [|discriminate].
  apply exp_part_length in He.
  intros H. inversion H; subst. lia.
Qed.

Lemma strip_length (w cs r : Bytes) :
  strip w cs = Some r -> length cs = length w + length r.
Proof.
  revert cs. induction w as [|a w IH]; intros cs; cbn.
  - intros H. now inversion H.
  - destruct cs as [|c t]; [discriminate|].
    destruct (c =? a)%N; [|discriminate].
    intros H. apply IH in H. cbn. lia.
Qed.

Lemma scalar_length (cs : Bytes) (v : JsValue) (r : Bytes) :
  scalar cs = Some (v, r) -> length r < length cs.
Proof.
  unfold scalar.
  destruct (strip (Str.bytes "true") cs) as [r1|] eqn:H1.
  { intros H. inversion H; subst. apply strip_length in H1. cbn in H1. lia. }
  destruct (strip (Str.bytes "false") cs) as [r2|] eqn:H2.
  { intros H. inversion H; subst. apply strip_length in H2. cbn in H2. lia. }
  destruct (strip (Str.bytes "null") cs) as [r3|] eqn:H3.
  { intros H. inversion H; subst. apply strip_length in H3. cbn in H3. lia. }
  apply number_length.
Qed.

Lemma value_step (f : nat) :
  elements_ok f -> members_ok f -> value_ok (S f).
Proof.
  intros HE HM cs v r H. cbn [value] in H.
  pose proof (skip_ws_length cs) as Hlen.
  destruct (skip_ws cs) as [|c l] eqn:Hws; [discriminate|].
  cbn [length] in Hlen.
  pose proof (skip_ws_length l) as Hlen1.
  destruct (c =? lbrace)%N eqn:Hbrace.
  { destruct (skip_ws l) as [|c1 r1] eqn:Hws1; [discriminate|].
    cbn [length] in Hlen1.
    destruct (c1 =? rbrace)%N eqn:Hclose.
    - inversion H; subst. split; [lia|]. intros g Hg.
      destruct g as [|g]; [lia|]. cbn [value].
      now rewrite Hws, Hbrace, Hws1, Hclose.
    - apply HM in H as [Hr Hfuel]. cbn [length] in *. split; [lia|].
      intros g Hg. destruct g as [|g]; [lia|]. cbn [value].
      rewrite Hws, Hbrace, Hws1, Hclose. apply Hfuel. cbn [length]. lia. }
  destruct (c =? lbracket)%N eqn:Hbracket.
  { destruct (skip_ws l) as [|c1 r1] eqn:Hws1; [discriminate|].
    cbn [length] in Hlen1.
    destruct (c1 =? rbracket)%N eqn:Hclose.
    - inversion H; subst. split; [lia|]. intros g Hg.
      destruct g as [|g]; [lia|]. cbn [value].
      now rewrite Hws, Hbrace, Hbracket, Hws1, Hclose.
    - apply HE in H as [Hr Hfuel]. cbn [length] in *. split; [lia|].
      intros g Hg. destruct g as [|g]; [lia|]. cbn [value].
      rewrite Hws, Hbrace, Hbracket, Hws1, Hclose. apply Hfuel. cbn [length]. lia. }
  destruct (c =? quote)%N eqn:Hquote.
  { destruct (string_body l []) as [[s r']|] eqn:Hbody; [|discriminate].
    inversion H; subst.
    apply (string_body_length (length l)) in Hbody as Hr; [|lia].
    split; [lia|]. intros g Hg. destruct g as [|g]; [lia|]. cbn [value].
    now rewrite Hws, Hbrace, Hbracket, Hquote, Hbody. }
  apply scalar_length in H as Hr. cbn [length] in Hr.
  split; [lia|]. intros g Hg. destruct g as [|g]; [lia|]. cbn [value].
  now rewrite Hws, Hbrace, Hbracket, Hquote.
Qed.

Lemma elements_step (f : nat) :
  value_ok f -> elements_ok f -> elements_ok (S f).
Proof.
  intros HV HE cs acc v r H. cbn [elements] in H.
  destruct (value f cs) as [[v0 r0]|] eqn:Hv; [|discriminate].
  apply HV in Hv as [Hr0 Hfuel0].
  pose proof (skip_ws_length r0) as Hlen.
  destruct (skip_ws r0) as [|c r'] eqn:Hws; [discriminate|].
  cbn [length] in Hlen.
  destruct (c =? comma)%N eqn:Hcomma.
  { apply HE in H as [Hr Hfuel]. split; [lia|].
    intros g Hg. destruct g as [|g]; [lia|]. cbn [elements].
    rewrite Hfuel0 by lia. rewrite Hws, Hcomma. apply Hfuel. lia. }
  destruct (c =? rbracket)%N eqn:Hclose; [|discriminate].
  inversion H; subst. split; [lia|].
  intros g Hg. destruct g as [|g]; [lia|]. cbn [elements].
  rewrite Hfuel0 by lia. now rewrite Hws, Hcomma, Hclose.
Qed.

Lemma members_step (f : nat) :
  value_ok f -> members_ok f -> members_ok (S f).
Proof.
  intros HV HM cs acc v r H. cbn [members] in H.
  pose proof (skip_ws_length cs) as Hlen.
  destruct (skip_ws cs) as [|c l] eqn:Hws; [discriminate|].
  cbn [length] in Hlen.
  destruct (c =? quote)%N eqn:Hquote; [|discriminate].
  destruct (string_body l []) as [[k r1]|] eqn:Hbody; [|discriminate].
  apply (string_body_length (length l)) in Hbody as Hr1; [|lia].
  pose proof (skip_ws_length r1) as Hlen1.
  destruct (skip_ws r1) as [|c1 r2] eqn:Hws1; [discriminate|].
  cbn [length] in Hlen1.
  destruct (c1 =? colon)%N eqn:Hcolon; [|discriminate].
  destruct (value f r2) as [[v0 r3]|] eqn:Hv; [|discriminate].
  apply HV in Hv as [Hr3 Hfuel3].
  pose proof (skip_ws_length r3) as Hlen3.
  destruct (skip_ws r3) as [|c2 r4] eqn:Hws3; [discriminate|].
  cbn [length] in Hlen3.
  destruct (c2 =? comma)%N eqn:Hcomma.
  { apply HM in H as [Hr Hfuel]. split; [lia|].
    intros g Hg. destruct g as [|g]; [lia|]. cbn [members].
    rewrite Hws, Hquote, Hbody, Hws1, Hcolon.
    rewrite Hfuel3 by lia. rewrite Hws3, Hcomma. apply Hfuel. lia. }
  destruct (c2 =? rbrace)%N eqn:Hclose; [|discriminate].
  inversion H; subst. split; [lia|].
  intros g Hg. destruct g as [|g]; [lia|]. cbn [members].
  rewrite Hws, Hquote, Hbody, Hws1, Hcolon.
  rewrite Hfuel3 by lia. now rewrite Hws3, Hcomma, Hclose.
Qed.

Lemma parser_ok (f : nat) : value_ok f /\ elements_ok f /\ members_ok f.
Proof.
  induction f as [|f (HV & HE & HM)].
  - repeat split; discriminate.
  - split; [now apply value_step|].
    split; [now apply elements_step | now apply members_step].
Qed.

(** Whatever a parse with some fuel yields, the parse with twice the
    length of the text yields too. *)
Lemma value_fuel (f : nat) (cs : Bytes) (v : JsValue) (r : Bytes) :
  value f cs = Some (v, r) -> value (2 * length cs + 2) cs = Some (v, r).
Proof.
  intros H. destruct (parser_ok f) as (HV & _).
  apply HV in H as [_ Hfuel]. apply Hfuel. lia.
Qed.

Lemma bytes_length (s : string) : length (Str.bytes s) = String.length s.
Proof.
  unfold Str.bytes. rewrite length_map.
  induction s as [|c s IH]; cbn; [reflexivity | now rewrite IH].
Qed.

(** [JSON.parse] fails on a text only if no fuel parses it. *)
Lemma parse_complete (text : string) :
  parse text = None -> forall fuel, document fuel text = None.
Proof.
  unfold parse, document. intros Hparse fuel.
  destruct (value fuel (Str.bytes text)) as [[v r]|] eqn:Hv; [|reflexivity].
  apply value_fuel in Hv. rewrite bytes_length in Hv.
  now rewrite Hv in Hparse.
Qed.

End JSONFacts.

(** ** The retry wrapper *)

Section RetryFacts.

Context {X T : Type} (h : Host X) (fn : Eff X T).

Lemma retry_test (i maxRetries : nat) :
  (Z.of_nat i <? Z.of_nat maxRetries - 1)%Z = (S i <? maxRetries)%nat.
Proof.
  destruct (Nat.ltb_spec (S i) maxRetries); [apply Z.ltb_lt | apply Z.ltb_ge]; lia.
Qed.

(** The loop stops at a failure that is not a rate limit, and at any
    failure of the last iteration. *)
Lemma retryLoop_stop maxRetries remaining i lastError x e x1 tr :
  fn x = (Throw e, x1, tr) ->
  isRateLimit e = false \/ maxRetries <= S i ->
  retryLoop h fn maxRetries (S remaining) i lastError x
  = (Throw e, x1, [Attempt i tr]).
Proof.
  intros Hfn Hstop. cbn [retryLoop]. rewrite Hfn, retry_test.
  destruct Hstop as [-> | Hlast]; [reflexivity|].
  destruct (Nat.ltb_spec (S i) maxRetries); [lia|].
  now rewrite andb_false_r.
Qed.

(** The loop goes on after a rate limit failure of an earlier iteration. *)
Lemma retryLoop_retry maxRetries remaining i lastError x e x1 tr :
  fn x = (Throw e, x1, tr) ->
  isRateLimit e = true ->
  S i < maxRetries ->
  retryLoop h fn maxRetries (S remaining) i lastError x
  = let u := fst (Math_random h x1) in
    let '(r, x3, tr') :=
      retryLoop h fn maxRetries remaining (S i) e (afterRetry h fn x) in
    (r, x3,
     ([Attempt i tr; Warn (Math_round (backoff i u)) (i + 1) maxRetries;
       Sleep (backoff i u)] ++ tr')%list).
Proof.
  intros Hfn Hrate Hlt. cbn [retryLoop]. rewrite Hfn, retry_test, Hrate.
  destruct (Nat.ltb_spec (S i) maxRetries); [|lia]. cbn [andb].
  unfold afterRetry. rewrite Hfn. cbn [fst snd].
  destruct (Math_random h x1) as [u x2]. reflexivity.
Qed.

(** An iteration of the loop starts by calling the operation. *)
Lemma retryLoop_head maxRetries remaining i lastError x :
  exists inner rest,
    snd (retryLoop h fn maxRetries (S remaining) i lastError x)
    = Attempt i inner :: rest.
Proof.
  cbn [retryLoop]. destruct (fn x) as [[[v|e] x1] tr].
  - now exists tr, [].
  - destruct (isRateLimit e && _).
    + destruct (Math_random h x1) as [u x2].
      destruct (retryLoop h fn maxRetries remaining (S i) e x2) as [[r x3] tr'].
      now eexists _, _.
    + now exists tr, [].
Qed.

(** After [k] rate limit failures in a row the loop is at iteration
    [i + k], and its trace so far shows [k] attempts. *)
Lemma retryLoop_reaches maxRetries k :
  forall remaining i lastError x,
    i + k < maxRetries ->
    (forall j, j < k -> rateLimited h fn j x) ->
    exists pre lastError',
      attempts pre = k /\
      retryLoop h fn maxRetries (k + S remaining) i lastError x
      = let '(r, x', tr') :=
          retryLoop h fn maxRetries (S remaining) (i + k) lastError'
            (hostBefore h fn k x) in
        (r, x', (pre ++ tr')%list).
Proof.
  induction k as [|k IH]; intros remaining i lastError x Hlt Hall.
  - exists [], lastError. split; [reflexivity|].
    rewrite Nat.add_0_r. cbn [Nat.add hostBefore app].
    now destruct (retryLoop _ _ _ _ _ _ _) as [[r x'] tr'].
  - destruct (Hall 0) as (e & He & Hrate); [lia|].
    unfold outcome in He. cbn [hostBefore] in He.
    destruct (fn x) as [[c x1] tr] eqn:Hfn. cbn [fst] in He. subst c.
    destruct (IH remaining (S i) e (afterRetry h fn x)) as (pre & le & Hpre & Hrun).
    { lia. }
    { intros j Hj. destruct (Hall (S j)) as (e' & He' & Hr'); [lia|].
      exists e'. split; [exact He' | exact Hr']. }
    exists ([Attempt i tr;
             Warn (Math_round (backoff i (fst (Math_random h x1)))) (i + 1) maxRetries;
             Sleep (backoff i (fst (Math_random h x1)))] ++ pre)%list, le.
    split.
    + unfold attempts in *. cbn. now rewrite Hpre.
    + cbn [Nat.add]. rewrite (retryLoop_retry _ _ _ _ _ _ _ _ Hfn Hrate) by lia.
      cbn zeta. rewrite Hrun. cbn [hostBefore].
      replace (S i + k) with (i + S k) by lia.
      destruct (retryLoop h fn maxRetries (S remaining) (i + S k) le _) as [[r x'] tr'].
      reflexivity.
Qed.

End RetryFacts.

Lemma attempts_app (a b : list Event) :
  attempts (a ++ b) = attempts a + attempts b.
Proof. unfold attempts. now rewrite filter_app, length_app. Qed.


(** ** Rounding in binary64

    What the loop needs of the arithmetic of doubles: a product or a sum
    of doubles that are not negative is rounded to a double that no
    multiple of [2^E] separates from the exact result, when [E] is at least
    the exponent of that double. *)

Section Binary64.

Local Open Scope Z_scope.

Lemma digits2_size (p : positive) : digits2_pos p = Pos.size p.
Proof. induction p; cbn; congruence. Qed.

Lemma Zdigits2_log2 (z : Z) : 0 < z -> Zdigits2 z = Z.log2 z + 1.
Proof.
  destruct z as [|p|p]; try lia. intros _. cbn [Zdigits2].
  rewrite digits2_size. destruct p; cbn; lia.
Qed.

Lemma Zdigits2_nonneg (z : Z) : 0 <= Zdigits2 z.
Proof. destruct z; cbn; lia. Qed.

Lemma Zdigits2_gt (z : Z) : 0 <= z -> z < 2 ^ Zdigits2 z.
Proof.
  intros Hz. destruct (Z.eq_dec z 0) as [->|Hne]; [reflexivity|].
  rewrite Zdigits2_log2 by lia. apply Z.log2_spec. lia.
Qed.

Lemma Zdigits2_le (z t : Z) : 0 <= z -> 0 <= t -> z < 2 ^ t -> Zdigits2 z <= t.
Proof.
  intros Hz Ht Hlt. destruct (Z.eq_dec z 0) as [->|Hne]; [exact Ht|].
  rewrite Zdigits2_log2 by lia.
  assert (Z.log2 z < t) by (apply Z.log2_lt_pow2; lia). lia.
Qed.

Lemma shr_1_spec (mrs : shr_record) :
  0 <= shr_m mrs ->
  shr_m (shr_1 mrs) = shr_m mrs / 2
  /\ inexact (shr_1 mrs) = Z.odd (shr_m mrs) || inexact mrs.
Proof.
  destruct mrs as [m r s]. cbn [shr_m]. intros Hm. unfold inexact.
  rewrite <- Z.div2_div.
  destruct m as [|[p|p|]|p]; try lia; cbn; split; try reflexivity;
    destruct r, s; reflexivity.
Qed.

Lemma mod_mul_zero (a b m : Z) :
  0 < a -> 0 < b -> (m mod (a * b) = 0 <-> m mod a = 0 /\ (m / a) mod b = 0).
Proof.
  intros Ha Hb. rewrite Z.rem_mul_r by lia.
  pose proof (Z.mod_pos_bound m a Ha). pose proof (Z.mod_pos_bound (m / a) b Hb).
  split; [intros H1; split; nia | intros [-> ->]; lia].
Qed.

Lemma iter_nat_shr (k : nat) :
  forall mrs, 0 <= shr_m mrs ->
  0 <= shr_m (Nat.iter k shr_1 mrs)
  /\ shr_m (Nat.iter k shr_1 mrs) = shr_m mrs / 2 ^ Z.of_nat k
  /\ (inexact (Nat.iter k shr_1 mrs) = false <->
      inexact mrs = false /\ shr_m mrs mod 2 ^ Z.of_nat k = 0).
Proof.
  induction k as [|k IH]; intros mrs Hm.
  - cbn. rewrite Z.div_1_r, Z.mod_1_r. tauto.
  - change (Nat.iter (S k) shr_1 mrs) with (shr_1 (Nat.iter k shr_1 mrs)).
    destruct (IH mrs Hm) as (Hpos & Hdiv & Hex).
    destruct (shr_1_spec (Nat.iter k shr_1 mrs) Hpos) as (Hm1 & Hi1).
    rewrite Hm1, Hi1, Hdiv.
    rewrite Nat2Z.inj_succ, Z.pow_succ_r by lia.
    assert (Hp : 0 < 2 ^ Z.of_nat k) by (apply Z.pow_pos_nonneg; lia).
    split; [apply Z.div_pos; [apply Z.div_pos|]; lia|].
    split; [rewrite Z.div_div by lia; f_equal; lia|].
    rewrite (Z.mul_comm 2), (mod_mul_zero (2 ^ Z.of_nat k) 2) by lia.
    rewrite orb_false_iff, Hex, <- Z.negb_even, negb_false_iff.
    rewrite Z.even_spec.
    split.
    + intros ((q & Hq) & Hi & Hmod). repeat split; try assumption.
      rewrite Hq. rewrite Z.mul_comm. apply Z.mod_mul. lia.
    + intros (Hi & Hmod & Hmod2). repeat split; try assumption.
      exists (shr_m mrs / 2 ^ Z.of_nat k / 2).
      apply Z.div_exact in Hmod2; lia.
Qed.

Lemma iter_pos_nat {A} (f : A -> A) (p : positive) :
  forall x, iter_pos f p x = Nat.iter (Pos.to_nat p) f x.
Proof.
  induction p as [p IH|p IH|]; intros x; cbn [iter_pos].
  - rewrite !IH, Pos2Nat.inj_xI. rewrite <- Nat.iter_add.
    replace (S (2 * Pos.to_nat p))%nat with (S (Pos.to_nat p + Pos.to_nat p))%nat by lia.
    now rewrite Nat.iter_succ_r.
  - rewrite !IH, Pos2Nat.inj_xO. rewrite <- Nat.iter_add.
    f_equal. lia.
  - reflexivity.
Qed.

Lemma shr_spec (m e n : Z) :
  0 <= m ->
  let k := Z.max 0 n in
  let '(mrs, e') := shr (shr_record_of_loc m loc_Exact) e n in
  e' = e + k
  /\ 0 <= shr_m mrs
  /\ shr_m mrs = m / 2 ^ k
  /\ (inexact mrs = false <-> m mod 2 ^ k = 0).
Proof.
  intros Hm k. subst k. unfold shr.
  destruct n as [|p|p].
  - cbn. rewrite Z.div_1_r, Z.mod_1_r, Z.add_0_r. tauto.
  - rewrite iter_pos_nat.
    destruct (iter_nat_shr (Pos.to_nat p) (shr_record_of_loc m loc_Exact) Hm)
      as (H1 & H2 & H3).
    rewrite positive_nat_Z in *. cbn [shr_record_of_loc shr_m] in *.
    replace (Z.max 0 (Z.pos p)) with (Z.pos p) by lia.
    repeat split; try assumption; [apply H3 | intros H; apply H3; split; [reflexivity|exact H]].
  - cbn. rewrite Z.div_1_r, Z.mod_1_r, Z.add_0_r. tauto.
Qed.

Lemma rne_spec (mrs : shr_record) :
  let m1 := round_nearest_even (shr_m mrs) (loc_of_shr_record mrs) in
  shr_m mrs <= m1 <= shr_m mrs + 1
  /\ (inexact mrs = false -> m1 = shr_m mrs).
Proof.
  destruct mrs as [m r s]. unfold inexact. cbn [shr_m shr_r shr_s].
  destruct r, s; cbn; try destruct (Z.even m); split; try lia; discriminate.
Qed.


Lemma fexp_eq (e : Z) : fexp Double.prec Double.emax e = Z.max (e - 53) (-1074).
Proof. reflexivity. Qed.

Lemma round_aux_spec (mx : positive) (ex : Z) :
  let e1 := Z.max ex (fexp Double.prec Double.emax (Zdigits2 (Zpos mx) + ex)) in
  exists m1 k2,
    0 <= m1 /\ 0 <= k2 <= 1 /\ (m1 / 2 ^ k2) * 2 ^ k2 = m1
    /\ binary_round_aux Double.prec Double.emax false (Zpos mx) ex loc_Exact
       = match m1 / 2 ^ k2 with
         | Z0 => S754_zero false
         | Zpos m =>
             if e1 + k2 <=? Double.emax - Double.prec then S754_finite false m (e1 + k2)
             else S754_infinity false
         | Zneg _ => S754_nan
         end
    /\ (forall C, C * 2 ^ (e1 - ex) <= Zpos mx -> C <= m1)
    /\ (forall C, Zpos mx <= C * 2 ^ (e1 - ex) -> m1 <= C).
Proof.
  intros e1. unfold binary_round_aux, shr_fexp.
  set (d := Zdigits2 (Zpos mx)) in *.
  set (n := fexp Double.prec Double.emax (d + ex) - ex).
  pose proof (shr_spec (Zpos mx) ex n ltac:(lia)) as H1.
  destruct (shr (shr_record_of_loc (Zpos mx) loc_Exact) ex n) as [mrs' e'].
  destruct H1 as (He' & Hpos' & Hm' & Hex').
  set (k1 := Z.max 0 n) in *.
  assert (Hk1 : e1 - ex = k1) by (subst e1 k1 n; lia).
  assert (He1 : e' = e1) by lia.
  assert (Hmin : -1074 <= e1) by (subst e1; rewrite fexp_eq; lia).
  assert (Hp1 : 0 < 2 ^ k1) by (apply Z.pow_pos_nonneg; lia).
  destruct (rne_spec mrs') as (Hrange & Hexact).
  set (m1 := round_nearest_even (shr_m mrs') (loc_of_shr_record mrs')) in *.
  assert (Hm1 : m1 <= 2 ^ 53).
  { assert (shr_m mrs' < 2 ^ 53); [|lia].
    rewrite Hm'. apply Z.div_lt_upper_bound; [lia|].
    pose proof (Zdigits2_gt (Zpos mx) ltac:(lia)) as Hd. fold d in Hd.
    pose proof (Zdigits2_nonneg (Zpos mx)) as Hd0. fold d in Hd0.
    assert (d <= 53 + k1) by (subst k1 n; rewrite fexp_eq; lia).
    assert (2 ^ d <= 2 ^ (53 + k1)) by (apply Z.pow_le_mono_r; lia).
    rewrite Z.pow_add_r in * by lia. lia. }
  set (n2 := fexp Double.prec Double.emax (Zdigits2 m1 + e') - e').
  pose proof (shr_spec m1 e' n2 ltac:(lia)) as H2.
  destruct (shr (shr_record_of_loc m1 loc_Exact) e' n2) as [mrs'' e''].
  destruct H2 as (He'' & Hpos'' & Hm'' & Hex'').
  exists m1, (Z.max 0 n2).
  assert (Hk2 : Z.max 0 n2 = 0 \/ (Z.max 0 n2 = 1 /\ m1 = 2 ^ 53)).
  { destruct (Z.eq_dec m1 (2 ^ 53)) as [Heq|Hne].
    - right. split; [|exact Heq]. subst n2. rewrite Heq.
      change (Zdigits2 (2 ^ 53)) with 54. rewrite fexp_eq. lia.
    - left. assert (Zdigits2 m1 <= 53) by (apply Zdigits2_le; lia).
      subst n2. rewrite fexp_eq. lia. }
  split; [lia|]. split; [lia|]. split.
  { destruct Hk2 as [-> | [-> ->]]; [rewrite Z.div_1_r; lia | reflexivity]. }
  split.
  { rewrite Hm'', He'', He1. reflexivity. }
  rewrite Hk1. split.
  - intros C HC. assert (C <= Zpos mx / 2 ^ k1); [|lia].
    apply Z.div_le_lower_bound; lia.
  - intros C HC. destruct (Z.eq_dec (Zpos mx mod 2 ^ k1) 0) as [Hz|Hnz].
    + rewrite Hexact by (now apply Hex'). rewrite Hm'.
      apply Z.div_le_upper_bound; lia.
    + assert (Zpos mx / 2 ^ k1 < C); [|lia].
      apply Z.div_lt_upper_bound; [lia|].
      assert (Zpos mx <> C * 2 ^ k1); [|lia].
      intros Heq. apply Hnz. rewrite Heq. apply Z.mod_mul. lia.
Qed.


Lemma pow2_pos (e : Z) : (0 < 2 ^ e)%Q.
Proof. apply Qpower_0_lt. reflexivity. Qed.

Lemma pow2_add (a b : Z) : (2 ^ (a + b) == 2 ^ a * 2 ^ b)%Q.
Proof. apply Qpower_plus. discriminate. Qed.

Lemma pow2_inject (k : Z) : 0 <= k -> (inject_Z (2 ^ k) == 2 ^ k)%Q.
Proof. intros Hk. now rewrite Zpower_Qpower. Qed.

(** [c * 2^E] at a smaller exponent. *)
Lemma rescale (c e E : Z) :
  e <= E -> (inject_Z c * 2 ^ E == inject_Z (c * 2 ^ (E - e)) * 2 ^ e)%Q.
Proof.
  intros He. replace E with ((E - e) + e) at 1 by lia.
  rewrite pow2_add, inject_Z_mult, pow2_inject by lia. ring.
Qed.

Lemma scaled_le (a b e : Z) :
  (inject_Z a * 2 ^ e <= inject_Z b * 2 ^ e)%Q <-> a <= b.
Proof. rewrite Qmult_le_r by apply pow2_pos. now rewrite <- Zle_Qle. Qed.

Lemma scaled_lt (a b e : Z) :
  (inject_Z a * 2 ^ e < inject_Z b * 2 ^ e)%Q <-> a < b.
Proof. rewrite Qmult_lt_r by apply pow2_pos. now rewrite <- Zlt_Qlt. Qed.

Lemma value_finite (m : positive) (e : Z) :
  (Double.value (S754_finite false m e) == inject_Z (Zpos m) * 2 ^ e)%Q.
Proof. unfold Double.value. cbn [cond_Zopp]. apply Qred_correct. Qed.

Lemma value_nonneg (f : spec_float) : nonneg f -> (0 <= Double.value f)%Q.
Proof.
  intros [-> | (m & e & ->)]; [apply Qle_refl|].
  rewrite value_finite. apply Qmult_le_0_compat; [|apply Qlt_le_weak, pow2_pos].
  now rewrite <- (Zle_Qle 0).
Qed.

(** A positive number below [2^t] has its last digit below position [t]. *)
Lemma digits_bound (m : positive) (e t : Z) :
  (inject_Z (Zpos m) * 2 ^ e < 2 ^ t)%Q -> Zdigits2 (Zpos m) + e <= t.
Proof.
  intros Hlt. rewrite <- (Qmult_1_l (2 ^ t)) in Hlt. change 1%Q with (inject_Z 1) in Hlt.
  destruct (Z_le_gt_dec e t) as [Hle|Hgt].
  - rewrite (rescale 1 e t Hle), scaled_lt in Hlt.
    assert (Zdigits2 (Zpos m) <= t - e); [|lia].
    apply Zdigits2_le; lia.
  - rewrite (rescale (Zpos m) t e) in Hlt by lia. rewrite scaled_lt in Hlt.
    assert (0 < 2 ^ (e - t)) by (apply Z.pow_pos_nonneg; lia). nia.
Qed.

Lemma exponent_bound (m : positive) (e t : Z) :
  (inject_Z (Zpos m) * 2 ^ e < 2 ^ t)%Q -> e < t.
Proof.
  intros Hlt. apply digits_bound in Hlt.
  assert (1 <= Zdigits2 (Zpos m)) by (cbn; lia). lia.
Qed.

(** Rounding does not cross a multiple of [2^E] when [E] is at least
    the exponent of the result. *)
Lemma round_aux_between (mx : positive) (ex t E : Z) :
  let x := (inject_Z (Zpos mx) * 2 ^ ex)%Q in
  (x < 2 ^ t)%Q -> ex <= E -> t - 53 <= E -> -1074 <= E -> E <= 970 ->
  let r := binary_round_aux Double.prec Double.emax false (Zpos mx) ex loc_Exact in
  nonneg r
  /\ forall c,
       ((inject_Z c * 2 ^ E <= x)%Q -> (inject_Z c * 2 ^ E <= Double.value r)%Q)
       /\ ((x <= inject_Z c * 2 ^ E)%Q -> (Double.value r <= inject_Z c * 2 ^ E)%Q).
Proof.
  intros x Ht Hex HtE Hmin Hmax r. subst r x.
  pose proof (digits_bound mx ex t Ht) as Hd.
  destruct (round_aux_spec mx ex) as (m1 & k2 & Hm1 & Hk2 & Hexact & Hr & Hlo & Hhi).
  set (e1 := Z.max ex (fexp Double.prec Double.emax (Zdigits2 (Zpos mx) + ex))) in *.
  assert (He1 : ex <= e1 <= E) by (subst e1; rewrite fexp_eq; lia).
  assert (Hval : (Double.value (binary_round_aux Double.prec Double.emax false (Zpos mx) ex loc_Exact)
                  == inject_Z m1 * 2 ^ e1)%Q).
  { rewrite Hr. destruct (m1 / 2 ^ k2) as [|m|m] eqn:Hq.
    - rewrite <- Hexact. cbn. ring.
    - replace (e1 + k2 <=? Double.emax - Double.prec) with true
        by (symmetry; apply Z.leb_le; unfold Double.emax, Double.prec; lia).
      rewrite value_finite, <- Hexact.
      rewrite (rescale (Zpos m) e1 (e1 + k2)) by lia.
      now replace (e1 + k2 - e1) with k2 by lia.
    - assert (0 <= m1 / 2 ^ k2) by (apply Z.div_pos; [lia | apply Z.pow_pos_nonneg; lia]).
      lia. }
  split.
  { rewrite Hr. destruct (m1 / 2 ^ k2) as [|m|m] eqn:Hq.
    - now left.
    - replace (e1 + k2 <=? Double.emax - Double.prec) with true
        by (symmetry; apply Z.leb_le; unfold Double.emax, Double.prec; lia).
      right. now eexists _, _.
    - assert (0 <= m1 / 2 ^ k2) by (apply Z.div_pos; [lia | apply Z.pow_pos_nonneg; lia]).
      lia. }
  intros c. rewrite Hval. split; intros Hc.
  - rewrite (rescale c e1 E) by lia. apply scaled_le. apply Hlo.
    rewrite (rescale c ex E) in Hc by lia. apply scaled_le in Hc.
    replace (E - ex) with ((E - e1) + (e1 - ex)) in Hc by lia.
    rewrite Z.pow_add_r in Hc by lia. lia.
  - rewrite (rescale c e1 E) by lia. apply scaled_le. apply Hhi.
    rewrite (rescale c ex E) in Hc by lia. apply scaled_le in Hc.
    replace (E - ex) with ((E - e1) + (e1 - ex)) in Hc by lia.
    rewrite Z.pow_add_r in Hc by lia. lia.
Qed.


Lemma iter_xO (m d : positive) : Zpos (Pos.iter xO m d) = Zpos m * 2 ^ Zpos d.
Proof.
  induction d as [|d IH] using Pos.peano_ind.
  - cbn. lia.
  - rewrite Pos.iter_succ, Pos2Z.inj_succ, Z.pow_succ_r by lia.
    rewrite Pos2Z.inj_xO, IH. lia.
Qed.

Lemma shl_align_spec (m : positive) (e e' : Z) :
  snd (shl_align m e e') = Z.min e e'
  /\ Zpos (fst (shl_align m e e')) = Zpos m * 2 ^ (e - Z.min e e').
Proof.
  unfold shl_align. destruct (e' - e) as [|d|d] eqn:Hd; cbn [fst snd].
  - replace (Z.min e e') with e by lia. rewrite Z.sub_diag. lia.
  - replace (Z.min e e') with e by lia. rewrite Z.sub_diag. lia.
  - replace (Z.min e e') with e' by lia. rewrite iter_xO.
    split; [reflexivity|]. f_equal. f_equal. lia.
Qed.

Lemma binary_round_between (m : positive) (e t E : Z) :
  let x := (inject_Z (Zpos m) * 2 ^ e)%Q in
  (x < 2 ^ t)%Q -> t - 53 <= E -> -1074 <= E -> E <= 970 ->
  let r := binary_round Double.prec Double.emax false m e in
  nonneg r
  /\ forall c,
       ((inject_Z c * 2 ^ E <= x)%Q -> (inject_Z c * 2 ^ E <= Double.value r)%Q)
       /\ ((x <= inject_Z c * 2 ^ E)%Q -> (Double.value r <= inject_Z c * 2 ^ E)%Q).
Proof.
  intros x Ht HtE Hmin Hmax r. subst r x. unfold binary_round.
  pose proof (digits_bound m e t Ht) as Hd.
  destruct (shl_align_spec m e (fexp Double.prec Double.emax (Zpos (digits2_pos m) + e))) as (Hez & Hmz).
  destruct (shl_align m e (fexp Double.prec Double.emax (Zpos (digits2_pos m) + e))) as [mz ez].
  cbn [fst snd] in Hez, Hmz.
  assert (Hle : ez <= e) by lia.
  assert (HezE : ez <= E).
  { rewrite Hez, fexp_eq. cbn [Zdigits2] in Hd. lia. }
  assert (Hx : (inject_Z (Zpos mz) * 2 ^ ez == inject_Z (Zpos m) * 2 ^ e)%Q).
  { rewrite (rescale (Zpos m) ez e Hle). now rewrite Hmz, Hez. }
  destruct (round_aux_between mz ez t E) as (Hnn & Hc); try assumption.
  { now rewrite Hx. }
  split; [exact Hnn|]. intros c. destruct (Hc c) as [Hlo Hhi].
  split; intros H; [apply Hlo | apply Hhi]; now rewrite Hx.
Qed.


Lemma nonneg_positive (f : spec_float) :
  nonneg f -> (0 < Double.value f)%Q -> exists m e, f = S754_finite false m e.
Proof.
  intros [-> | H] Hpos; [|exact H]. now apply Qlt_irrefl in Hpos.
Qed.

(** [Math.pow(2, i)] is [2^i]. *)
Lemma pow2_exact (i : nat) :
  Z.of_nat i <= 970 ->
  exists m e,
    Double.pow2 i = S754_finite false m e
    /\ (inject_Z (Zpos m) * 2 ^ e == 2 ^ Z.of_nat i)%Q.
Proof.
  intros Hi. unfold Double.pow2. cbn [binary_normalize].
  destruct (binary_round_between 1 (Z.of_nat i) (Z.of_nat i + 1) (Z.of_nat i))
    as (Hnn & Hc); try lia.
  { rewrite pow2_add. change (inject_Z 1) with 1%Q.
    pose proof (pow2_pos (Z.of_nat i)).
    change (2 ^ 1)%Q with 2%Q. generalize dependent (2 ^ Z.of_nat i)%Q. intros q Hq. lra. }
  destruct (Hc 1) as [Hlo Hhi].
  specialize (Hlo (Qle_refl _)). specialize (Hhi (Qle_refl _)).
  assert (Hv : (Double.value (binary_round Double.prec Double.emax false 1 (Z.of_nat i))
                == inject_Z 1 * 2 ^ Z.of_nat i)%Q) by (now apply Qle_antisym).
  destruct (nonneg_positive _ Hnn) as (m & e & Hf).
  { rewrite Hv. change (inject_Z 1) with 1%Q. rewrite Qmult_1_l. apply pow2_pos. }
  exists m, e. split; [exact Hf|].
  rewrite <- value_finite, <- Hf. rewrite Hv.
  change (inject_Z 1) with 1%Q. ring.
Qed.

Lemma two_thousand : Double.ofZ 2000 = S754_finite false 8796093022208000 (-42).
Proof. reflexivity. Qed.

Lemma one_thousand : Double.ofZ 1000 = S754_finite false 8796093022208000 (-43).
Proof. reflexivity. Qed.

Lemma mul_finite (m1 m2 : positive) (e1 e2 : Z) :
  Double.mul (S754_finite false m1 e1) (S754_finite false m2 e2)
  = binary_round_aux Double.prec Double.emax false (Zpos (m1 * m2)) (e1 + e2) loc_Exact.
Proof. reflexivity. Qed.

Lemma product_value (m1 m2 : positive) (e1 e2 : Z) :
  (inject_Z (Zpos (m1 * m2)) * 2 ^ (e1 + e2)
   == (inject_Z (Zpos m1) * 2 ^ e1) * (inject_Z (Zpos m2) * 2 ^ e2))%Q.
Proof. rewrite Pos2Z.inj_mul, inject_Z_mult, pow2_add. ring. Qed.

(** [Math.pow(2, i) * 2000] is [2^i * 2000], for [i <= 45]. *)
Lemma base_exact (i : nat) :
  Z.of_nat i <= 45 ->
  exists m e,
    Double.mul (Double.pow2 i) (Double.ofZ 2000) = S754_finite false m e
    /\ (inject_Z (Zpos m) * 2 ^ e == inject_Z (250 * 2 ^ Z.of_nat i) * 2 ^ 3)%Q.
Proof.
  intros Hi. destruct (pow2_exact i) as (mp & ep & Hp & Hpv); [lia|].
  rewrite Hp, two_thousand, mul_finite.
  assert (Hpow : 0 < 2 ^ Z.of_nat i) by (apply Z.pow_pos_nonneg; lia).
  assert (Hx : (inject_Z (Zpos (mp * 8796093022208000)) * 2 ^ (ep + -42)
                == inject_Z (250 * 2 ^ Z.of_nat i) * 2 ^ 3)%Q).
  { rewrite product_value, Hpv, inject_Z_mult, <- pow2_inject by lia.
    assert (H2000 : (inject_Z 8796093022208000 * 2 ^ (-42) == 2000)%Q) by reflexivity.
    rewrite H2000. change (2 ^ 3)%Q with 8%Q. change (inject_Z 250) with 250%Q. ring. }
  assert (Hep : ep < Z.of_nat i + 1).
  { apply (exponent_bound mp). rewrite Hpv, pow2_add.
    pose proof (pow2_pos (Z.of_nat i)). change (2 ^ 1)%Q with 2%Q.
    generalize dependent (2 ^ Z.of_nat i)%Q. intros q _ Hq. lra. }
  destruct (round_aux_between (mp * 8796093022208000) (ep + -42) (Z.of_nat i + 11) 3)
    as (Hnn & Hc); try lia.
  { rewrite Hx. rewrite <- (Qmult_1_l (2 ^ (Z.of_nat i + 11))).
    change 1%Q with (inject_Z 1).
    rewrite (rescale 1 3 (Z.of_nat i + 11)) by lia. apply scaled_lt.
    replace (Z.of_nat i + 11 - 3) with (Z.of_nat i + 8) by lia.
    rewrite Z.pow_add_r by lia. lia. }
  destruct (Hc (250 * 2 ^ Z.of_nat i)) as [Hlo Hhi].
  rewrite Hx in Hlo, Hhi.
  specialize (Hlo (Qle_refl _)). specialize (Hhi (Qle_refl _)).
  destruct (nonneg_positive _ Hnn) as (m & e & Hf).
  { apply (Qlt_le_trans _ (inject_Z (250 * 2 ^ Z.of_nat i) * 2 ^ 3)); [|exact Hlo].
    apply Qmult_lt_0_compat; [|apply pow2_pos]. rewrite <- (Zlt_Qlt 0). lia. }
  exists m, e. split; [exact Hf|].
  rewrite <- value_finite, <- Hf. now apply Qle_antisym.
Qed.


(** [u * 1000] is at most 1000 for a double [u] below 1. *)
Lemma jitter_bound (mu : positive) (eu : Z) :
  (inject_Z (Zpos mu) * 2 ^ eu < 1)%Q ->
  let p := Double.mul (S754_finite false mu eu) (Double.ofZ 1000) in
  nonneg p /\ (Double.value p <= inject_Z 125 * 2 ^ 3)%Q.
Proof.
  intros Hu p. subst p. rewrite one_thousand, mul_finite.
  assert (H1000 : (inject_Z 8796093022208000 * 2 ^ (-43) == 1000)%Q) by reflexivity.
  assert (Hx : (inject_Z (Zpos (mu * 8796093022208000)) * 2 ^ (eu + -43)
                == (inject_Z (Zpos mu) * 2 ^ eu) * 1000)%Q).
  { now rewrite product_value, H1000. }
  assert (Heu : eu < 0) by (apply (exponent_bound mu); exact Hu).
  assert (Hpos : (0 < inject_Z (Zpos mu) * 2 ^ eu)%Q).
  { apply Qmult_lt_0_compat; [reflexivity | apply pow2_pos]. }
  destruct (round_aux_between (mu * 8796093022208000) (eu + -43) 10 3)
    as (Hnn & Hc); try lia.
  { rewrite Hx. change (2 ^ 10)%Q with 1024%Q.
    generalize dependent (inject_Z (Zpos mu) * 2 ^ eu)%Q. intros q Hq _ _. lra. }
  split; [exact Hnn|]. apply (Hc 125). rewrite Hx.
  change (inject_Z 125 * 2 ^ 3)%Q with 1000%Q.
  generalize dependent (inject_Z (Zpos mu) * 2 ^ eu)%Q. intros q Hq _ _. lra.
Qed.

Lemma add_finite (m1 m2 : positive) (e1 e2 : Z) :
  Double.add (S754_finite false m1 e1) (S754_finite false m2 e2)
  = binary_round Double.prec Double.emax false
      (fst (shl_align m1 e1 (Z.min e1 e2)) + fst (shl_align m2 e2 (Z.min e1 e2)))
      (Z.min e1 e2).
Proof. reflexivity. Qed.

Lemma sum_value (m1 m2 : positive) (e1 e2 : Z) :
  (inject_Z (Zpos (fst (shl_align m1 e1 (Z.min e1 e2))
                   + fst (shl_align m2 e2 (Z.min e1 e2)))) * 2 ^ Z.min e1 e2
   == inject_Z (Zpos m1) * 2 ^ e1 + inject_Z (Zpos m2) * 2 ^ e2)%Q.
Proof.
  destruct (shl_align_spec m1 e1 (Z.min e1 e2)) as (_ & H1).
  destruct (shl_align_spec m2 e2 (Z.min e1 e2)) as (_ & H2).
  rewrite Pos2Z.inj_add, H1, H2, inject_Z_plus.
  replace (Z.min e1 (Z.min e1 e2)) with (Z.min e1 e2) by lia.
  replace (Z.min e2 (Z.min e1 e2)) with (Z.min e1 e2) by lia.
  rewrite (rescale (Zpos m1) (Z.min e1 e2) e1) by lia.
  rewrite (rescale (Zpos m2) (Z.min e1 e2) e2) by lia. ring.
Qed.

Lemma value_negative (m : positive) (e : Z) :
  (Double.value (S754_finite true m e) < 0)%Q.
Proof.
  unfold Double.value. rewrite Qred_correct. cbn [cond_Zopp Z.opp].
  setoid_replace 0%Q with (0 * 2 ^ e)%Q by ring.
  apply Qmult_lt_r; [apply pow2_pos | reflexivity].
Qed.

(** The delay the code computes lies between [2^i * 2000] and
    [2^i * 2000 + 1000], both included, for [i <= 45]. *)
Lemma backoff64_bounds (i : nat) (u : Q) :
  (i <= 45)%nat ->
  Double.isDouble u = true -> (0 <= u)%Q -> (u < 1)%Q ->
  (inject_Z (2 ^ Z.of_nat i) * 2000 <= backoff64 i u)%Q
  /\ (backoff64 i u <= inject_Z (2 ^ Z.of_nat i) * 2000 + 1000)%Q.
Proof.
  intros Hi Hdouble Hlo Hhi. unfold backoff64.
  destruct (base_exact i) as (mL & eL & HL & HLv); [lia|]. rewrite HL.
  assert (Hpow : 0 < 2 ^ Z.of_nat i) by (apply Z.pow_pos_nonneg; lia).
  assert (Hpow45 : 2 ^ Z.of_nat i <= 2 ^ 45) by (apply Z.pow_le_mono_r; lia).
  assert (Hbase : (inject_Z (250 * 2 ^ Z.of_nat i) * 2 ^ 3
                   == inject_Z (2 ^ Z.of_nat i) * 2000)%Q).
  { rewrite inject_Z_mult. change (2 ^ 3)%Q with 8%Q. change (inject_Z 250) with 250%Q. ring. }
  assert (Hexact : (inject_Z (2 ^ Z.of_nat i) * 2000
                    <= Double.value (S754_finite false mL eL))%Q
                   /\ (Double.value (S754_finite false mL eL)
                       <= inject_Z (2 ^ Z.of_nat i) * 2000 + 1000)%Q).
  { rewrite value_finite, HLv, Hbase. split; [apply Qle_refl|].
    generalize (inject_Z (2 ^ Z.of_nat i) * 2000)%Q. intros q. lra. }
  unfold Double.isDouble in Hdouble.
  destruct (Double.ofQ u) as [s| | |s mu eu] eqn:Hu; try discriminate.
  { (* u is zero *) exact Hexact. }
  apply Qeq_bool_iff in Hdouble.
  destruct s.
  { pose proof (value_negative mu eu) as Hneg. rewrite Hdouble in Hneg. lra. }
  rewrite value_finite in Hdouble.
  destruct (jitter_bound mu eu) as (Hnn & Hp); [now rewrite Hdouble|].
  destruct Hnn as [Hz | (mP & eP & HP)].
  { rewrite Hz. exact Hexact. }
  rewrite HP in *. rewrite value_finite in Hp.
  assert (HpP : (0 < inject_Z (Zpos mP) * 2 ^ eP)%Q).
  { apply Qmult_lt_0_compat; [reflexivity | apply pow2_pos]. }
  rewrite add_finite.
  destruct (binary_round_between
              (fst (shl_align mL eL (Z.min eL eP)) + fst (shl_align mP eP (Z.min eL eP)))
              (Z.min eL eP) 56 3) as (_ & Hc); try lia.
  { rewrite sum_value, HLv, Hbase.
    apply (Qle_lt_trans _ (inject_Z (2 ^ 45) * 2000 + inject_Z 125 * 2 ^ 3)).
    - apply Qplus_le_compat; [|exact Hp].
      apply Qmult_le_compat_r; [now rewrite <- Zle_Qle | discriminate].
    - reflexivity. }
  destruct (Hc (250 * 2 ^ Z.of_nat i)) as [Hlower _].
  destruct (Hc (250 * 2 ^ Z.of_nat i + 125)) as [_ Hupper].
  rewrite sum_value, HLv in Hlower, Hupper. split.
  - rewrite <- Hbase. apply Hlower.
    generalize dependent (inject_Z (Zpos mP) * 2 ^ eP)%Q. intros q _ Hq _.
    generalize (inject_Z (250 * 2 ^ Z.of_nat i) * 2 ^ 3)%Q. intros l. lra.
  - assert (Htop : (inject_Z (250 * 2 ^ Z.of_nat i + 125) * 2 ^ 3
                    == inject_Z (2 ^ Z.of_nat i) * 2000 + 1000)%Q).
    { rewrite inject_Z_plus, inject_Z_mult. change (2 ^ 3)%Q with 8%Q.
      change (inject_Z 250) with 250%Q. change (inject_Z 125) with 125%Q. ring. }
    rewrite <- Htop. apply Hupper.
    rewrite Htop, Hbase.
    change (inject_Z 125 * 2 ^ 3)%Q with 1000%Q in Hp.
    generalize dependent (inject_Z (Zpos mP) * 2 ^ eP)%Q. intros q Hq _ _.
    generalize (inject_Z (2 ^ Z.of_nat i) * 2000)%Q. intros l. lra.
Qed.

End Binary64.

(** ** The loop with the delay in binary64 *)

Section Retry64Facts.

Context {X T : Type} (h : Host X) (fn : Eff X T).

(** The two loops call the operation and [Math.random] alike: they end
    with the same completion in the same host state, and their traces
    differ in the delays only. *)
Lemma retryLoop64_untimed (maxRetries remaining : nat) :
  forall i lastError x,
    fst (retryLoop64 h fn maxRetries remaining i lastError x)
    = fst (retryLoop h fn maxRetries remaining i lastError x)
    /\ map untimed (snd (retryLoop64 h fn maxRetries remaining i lastError x))
       = map untimed (snd (retryLoop h fn maxRetries remaining i lastError x)).
Proof.
  induction remaining as [|remaining IH]; intros i lastError x; [now split|].
  cbn [retryLoop retryLoop64]. destruct (fn x) as [[[v|e] x1] tr]; [now split|].
  destruct (isRateLimit e && _); [|now split].
  destruct (Math_random h x1) as [u x2].
  destruct (IH (S i) e x2) as [Hfst Hsnd].
  destruct (retryLoop64 h fn maxRetries remaining (S i) e x2) as [[r x3] tr'].
  destruct (retryLoop h fn maxRetries remaining (S i) e x2) as [[r0 x0] tr0].
  cbn [fst snd] in *. inversion Hfst; subst. split; [reflexivity|].
  cbn [map app untimed]. now rewrite Hsnd.
Qed.

Lemma retryLoop64_retry maxRetries remaining i lastError x e x1 tr :
  fn x = (Throw e, x1, tr) ->
  isRateLimit e = true ->
  S i < maxRetries ->
  retryLoop64 h fn maxRetries (S remaining) i lastError x
  = let u := fst (Math_random h x1) in
    let '(r, x3, tr') :=
      retryLoop64 h fn maxRetries remaining (S i) e (afterRetry h fn x) in
    (r, x3,
     ([Attempt i tr; Warn (Math_round (backoff64 i u)) (i + 1) maxRetries;
       Sleep (backoff64 i u)] ++ tr')%list).
Proof.
  intros Hfn Hrate Hlt. cbn [retryLoop64]. rewrite Hfn, retry_test, Hrate.
  destruct (Nat.ltb_spec (S i) maxRetries); [|lia]. cbn [andb].
  unfold afterRetry. rewrite Hfn. cbn [fst snd].
  destruct (Math_random h x1) as [u x2]. reflexivity.
Qed.

Lemma retryLoop64_head maxRetries remaining i lastError x :
  exists inner rest,
    snd (retryLoop64 h fn maxRetries (S remaining) i lastError x)
    = Attempt i inner :: rest.
Proof.
  cbn [retryLoop64]. destruct (fn x) as [[[v|e] x1] tr].
  - now exists tr, [].
  - destruct (isRateLimit e && _).
    + destruct (Math_random h x1) as [u x2].
      destruct (retryLoop64 h fn maxRetries remaining (S i) e x2) as [[r x3] tr'].
      now eexists _, _.
    + now exists tr, [].
Qed.

Lemma retryLoop64_reaches maxRetries k :
  forall remaining i lastError x,
    i + k < maxRetries ->
    (forall j, j < k -> rateLimited h fn j x) ->
    exists pre lastError',
      attempts pre = k /\
      retryLoop64 h fn maxRetries (k + S remaining) i lastError x
      = let '(r, x', tr') :=
          retryLoop64 h fn maxRetries (S remaining) (i + k) lastError'
            (hostBefore h fn k x) in
        (r, x', (pre ++ tr')%list).
Proof.
  induction k as [|k IH]; intros remaining i lastError x Hlt Hall.
  - exists [], lastError. split; [reflexivity|].
    rewrite Nat.add_0_r. cbn [Nat.add hostBefore app].
    now destruct (retryLoop64 _ _ _ _ _ _ _) as [[r x'] tr'].
  - destruct (Hall 0) as (e & He & Hrate); [lia|].
    unfold outcome in He. cbn [hostBefore] in He.
    destruct (fn x) as [[c x1] tr] eqn:Hfn. cbn [fst] in He. subst c.
    destruct (IH remaining (S i) e (afterRetry h fn x)) as (pre & le & Hpre & Hrun).
    { lia. }
    { intros j Hj. destruct (Hall (S j)) as (e' & He' & Hr'); [lia|].
      exists e'. split; [exact He' | exact Hr']. }
    exists ([Attempt i tr;
             Warn (Math_round (backoff64 i (fst (Math_random h x1)))) (i + 1) maxRetries;
             Sleep (backoff64 i (fst (Math_random h x1)))] ++ pre)%list, le.
    split.
    + unfold attempts in *. cbn. now rewrite Hpre.
    + cbn [Nat.add]. rewrite (retryLoop64_retry _ _ _ _ _ _ _ _ Hfn Hrate) by lia.
      cbn zeta. rewrite Hrun. cbn [hostBefore].
      replace (S i + k) with (i + S k) by lia.
      destruct (retryLoop64 h fn maxRetries (S remaining) (i + S k) le _) as [[r x'] tr'].
      reflexivity.
Qed.

End Retry64Facts.

Section RetryContract.

Context {X T : Type} (h : Host X) (fn : Eff X T).

(** The first iteration of the wrapper, when the operation fails with an
    error that is not retried. *)
Lemma withRetry_throws_at_once (maxRetries : nat) (x x1 : X) (e : Thrown)
    (tr : list Event) :
  1 <= maxRetries ->
  fn x = (Throw e, x1, tr) ->
  isRateLimit e = false ->
  withRetry h fn maxRetries x = (Throw e, x1, [Attempt 0 tr]).
Proof.
  intros Hmax Hfn Hclass. unfold withRetry.
  destruct maxRetries as [|remaining]; [lia|].
  apply retryLoop_stop; [exact Hfn | now left].
Qed.

(** C4, as amended.  When the operation fails with an error that the
    wrapper does not classify as rate limit (neither its status nor its
    code is 429, and its message holds neither the text 429 nor
    RESOURCE_EXHAUSTED), [withRetry] has called it once, in iteration 0,
    throws that very error, and has neither warned nor slept: its trace
    is that single attempt. *)
Theorem nonRateLimit_failure_rethrown_at_once
    (maxRetries : nat) (x x1 : X) (e : Thrown) (tr : list Event) :
  1 <= maxRetries ->
  fn x = (Throw e, x1, tr) ->
  isRateLimit e = false ->
  withRetry h fn maxRetries x = (Throw e, x1, [Attempt 0 tr])
  /\ attempts (snd (withRetry h fn maxRetries x)) = 1
  /\ filter isSleep (snd (withRetry h fn maxRetries x)) = [].
Proof.
  intros Hmax Hfn Hclass.
  rewrite (withRetry_throws_at_once maxRetries x x1 e tr Hmax Hfn Hclass).
  repeat split.
Qed.

(** C5, as amended.  When attempt [i] fails with a rate limit error,
    [i <= maxRetries - 2] and [i <= 45], and [Math.random] returns a
    double [u] with [0 <= u < 1], the trace of the loop shows, right after
    that attempt, the warning, a suspension of [d] milliseconds and then
    attempt [i + 1], where [d] is the delay the code computes in binary64
    and [2^i * 2000 <= d <= 2^i * 2000 + 1000]: the upper bound is
    included. *)
Theorem rateLimit_failure_backs_off (maxRetries i : nat) (x : X) :
  (forall y, Double.isDouble (fst (Math_random h y)) = true
             /\ (0 <= fst (Math_random h y))%Q /\ (fst (Math_random h y) < 1)%Q) ->
  i + 2 <= maxRetries ->
  i <= 45 ->
  (forall k, k <= i -> rateLimited h fn k x) ->
  exists pre inner d inner' rest,
    snd (withRetry64 h fn maxRetries x)
    = (pre ++ [Attempt i inner; Warn (Math_round d) (i + 1) maxRetries;
               Sleep d; Attempt (S i) inner'] ++ rest)%list
    /\ attempts pre = i
    /\ d = backoff64 i (fst (Math_random h (hostAfter h fn i x)))
    /\ (inject_Z (2 ^ Z.of_nat i) * 2000 <= d)%Q
    /\ (d <= inject_Z (2 ^ Z.of_nat i) * 2000 + 1000)%Q.
Proof.
  intros Hrandom Hi Hsmall Hall.
  destruct (retryLoop64_reaches h fn maxRetries i (maxRetries - i - 1) 0
              ThrownUndefined x) as (pre & le & Hpre & Hrun).
  { lia. }
  { intros j Hj. apply Hall. lia. }
  assert (Hsplit : withRetry64 h fn maxRetries x
                   = retryLoop64 h fn maxRetries (i + S (maxRetries - i - 1)) 0
                       ThrownUndefined x).
  { unfold withRetry64. f_equal. lia. }
  rewrite Hsplit, Hrun. clear Hsplit Hrun. cbn [Nat.add].
  destruct (Hall i) as (e & He & Hrate); [lia|].
  unfold hostAfter. unfold outcome in He.
  destruct (fn (hostBefore h fn i x)) as [[c x1] tr] eqn:Hfn.
  cbn [fst snd] in *. subst c.
  rewrite (retryLoop64_retry h fn _ _ _ _ _ _ _ _ Hfn Hrate) by lia.
  cbn zeta.
  destruct (maxRetries - i - 1) as [|remaining] eqn:Hrem; [lia|].
  destruct (retryLoop64_head h fn maxRetries remaining (S i) e
              (afterRetry h fn (hostBefore h fn i x))) as (inner' & rest & Hhead).
  destruct (retryLoop64 h fn maxRetries (S remaining) (S i) e _) as [[r x3] tr'].
  cbn [snd] in *. subst tr'.
  exists pre, tr, (backoff64 i (fst (Math_random h x1))), inner', rest.
  destruct (Hrandom x1) as (Hdouble & Hlo & Hhi).
  destruct (backoff64_bounds i _ Hsmall Hdouble Hlo Hhi) as [Hge Hle].
  repeat split; auto.
Qed.

(** C6.  When the first [maxRetries] attempts all fail with rate limit
    errors, [withRetry] throws the error of the last of them, in the host
    state that attempt left; its trace shows [maxRetries] attempts and
    ends with the last one (nothing is slept or tried after it). *)
Theorem exhausted_retries_rethrow_last_error (maxRetries : nat) (x : X) :
  1 <= maxRetries ->
  (forall k, k < maxRetries -> rateLimited h fn k x) ->
  exists e pre inner,
    outcome h fn (maxRetries - 1) x = Throw e
    /\ withRetry h fn maxRetries x
       = (Throw e, hostAfter h fn (maxRetries - 1) x,
          (pre ++ [Attempt (maxRetries - 1) inner])%list)
    /\ attempts (pre ++ [Attempt (maxRetries - 1) inner]) = maxRetries.
Proof.
  intros Hmax Hall.
  destruct (retryLoop_reaches h fn maxRetries (maxRetries - 1) 0 0
              ThrownUndefined x) as (pre & le & Hpre & Hrun).
  { lia. }
  { intros j Hj. apply Hall. lia. }
  assert (Hsplit : withRetry h fn maxRetries x
                   = retryLoop h fn maxRetries (maxRetries - 1 + 1) 0
                       ThrownUndefined x).
  { unfold withRetry. f_equal. lia. }
  destruct (Hall (maxRetries - 1)) as (e & He & _); [lia|].
  unfold hostAfter. unfold outcome in *.
  destruct (fn (hostBefore h fn (maxRetries - 1) x)) as [[c x1] tr] eqn:Hfn.
  cbn [fst snd] in *. subst c.
  exists e, pre, tr. split; [reflexivity|]. split.
  - rewrite Hsplit, Hrun. cbn [Nat.add].
    rewrite (retryLoop_stop h fn _ _ _ _ _ _ _ _ Hfn) by (right; lia).
    reflexivity.
  - rewrite attempts_app, Hpre. cbn. lia.
Qed.

End RetryContract.

(** ** Failed transitions *)

(** Setters of hooks outside the pipeline state leave it as it is. *)
Lemma pipeline_setIsGenerating v s : pipeline (setIsGenerating v s) = pipeline s.
Proof. now destruct s. Qed.

Lemma pipeline_setError v s : pipeline (setError v s) = pipeline s.
Proof. now destruct s. Qed.

Lemma pipeline_setHasKey v s : pipeline (setHasKey v s) = pipeline s.
Proof. now destruct s. Qed.

Lemma pipeline_setIsEditing v s : pipeline (setIsEditing v s) = pipeline s.
Proof. now destruct s. Qed.

Lemma pipeline_setIsRefining v s : pipeline (setIsRefining v s) = pipeline s.
Proof. now destruct s. Qed.

Lemma pipeline_setIsRefiningImage v s :
  pipeline (setIsRefiningImage v s) = pipeline s.
Proof. now destruct s. Qed.

Lemma pipeline_setRefinementInput v s :
  pipeline (setRefinementInput v s) = pipeline s.
Proof. now destruct s. Qed.

Lemma pipeline_setImageRefinementInput v s :
  pipeline (setImageRefinementInput v s) = pipeline s.
Proof. now destruct s. Qed.

Lemma pipeline_setImagePrompt v s :
  pipeline (setImagePrompt v s) = Pipeline.setImagePrompt v (pipeline s).
Proof. now destruct s. Qed.

Lemma pipeline_setCardImage v s :
  pipeline (setCardImage v s) = Pipeline.setCardImage v (pipeline s).
Proof. now destruct s. Qed.

Lemma pipeline_setStep v s :
  pipeline (setStep v s) = Pipeline.setStage v (pipeline s).
Proof. now destruct s. Qed.

Create Rewrite HintDb frame.
#[local] Hint Rewrite pipeline_setIsGenerating pipeline_setError pipeline_setHasKey
  pipeline_setIsEditing pipeline_setIsRefining pipeline_setIsRefiningImage
  pipeline_setRefinementInput pipeline_setImageRefinementInput
  pipeline_setImagePrompt pipeline_setCardImage pipeline_setStep : frame.

(** C1, as amended.  A transition that ends in its [catch] block leaves
    the pipeline state as it was, with two exceptions.  [generateVisual]
    has stored the prompt it built before it asked for the image, so when
    that request fails the image prompt is the new one (stage, card image
    and the rest are as before).  [refineImage] whose second request
    fails has stored the refined prompt and cleared the card image. *)
Theorem failed_transition_frame {X} (h : Host X) (t : Transition.t)
    (s s' : AppState) (x x' : X) (tr : list Event) (e : Thrown) :
  run h t s x = (s', x', tr, Caught e) ->
  match t with
  | Transition.generateVisual =>
      (visualPrompt s = None /\ pipeline s' = pipeline s)
      \/ (exists prompt,
            visualPrompt s = Some prompt
            /\ fst (fst (generateCardImage h (visualTheme s) (Some (selectedStyle s))
                           (Some prompt) (Some (userApiKey s)) x)) = Throw e
            /\ pipeline s' = Pipeline.setImagePrompt (Some prompt) (pipeline s))
  | Transition.refineImage =>
      (fst (fst (refineImagePrompt h (orElse (imagePrompt s) "")
                   (imageRefinementInput s) (Some (userApiKey s)) x)) = Throw e
       /\ pipeline s' = pipeline s)
      \/ (exists refined,
            fst (fst (refineImagePrompt h (orElse (imagePrompt s) "")
                        (imageRefinementInput s) (Some (userApiKey s)) x))
            = Normal (Some refined)
            /\ fst (fst (generateCardImage h (VString "") (Some (selectedStyle s))
                           (Some refined) (Some (userApiKey s))
                           (snd (fst (refineImagePrompt h (orElse (imagePrompt s) "")
                                        (imageRefinementInput s)
                                        (Some (userApiKey s)) x))))) = Throw e
            /\ pipeline s'
               = Pipeline.setCardImage None
                   (Pipeline.setImagePrompt (Some refined) (pipeline s)))
  | _ => pipeline s' = pipeline s
  end.
Proof.
  intros Hrun. destruct t; cbn [run] in Hrun.
  - (* generateRecord *)
    unfold handleGenerateRecord in Hrun.
    destruct (negb _); [discriminate|].
    destruct (generateFormalRecord _ _ _ _) as [[[record|err] x1] tr1];
      [discriminate|].
    inversion Hrun; subst; clear Hrun.
    destruct (messageIncludes _ _); now autorewrite with frame.
  - (* generateFeedback *)
    unfold handleGoToFeedback in Hrun.
    destruct (generateFeedbackSummary _ _ _ _) as [[[summary|err] x1] tr1].
    + destruct (interp _); [discriminate|].
      inversion Hrun; subst. now autorewrite with frame.
    + inversion Hrun; subst. now autorewrite with frame.
  - (* generateVisual *)
    unfold handleGoToVisual in Hrun.
    destruct (visualPrompt s) as [prompt|].
    + right. exists prompt. split; [reflexivity|].
      destruct (generateCardImage _ _ _ _ _ _) as [[[image|err] x1] tr1];
        [discriminate|].
      inversion Hrun; subst. split; [reflexivity|]. now autorewrite with frame.
    + left. inversion Hrun; subst. split; [reflexivity|].
      now autorewrite with frame.
  - discriminate.
  - discriminate.
  - (* refine *)
    unfold handleRefine in Hrun.
    destruct (negb _); [discriminate|].
    destruct (refineContent _ _ _ _ _ _) as [[[refined|err] x1] tr1];
      [discriminate|].
    inversion Hrun; subst. now autorewrite with frame.
  - (* refineImage *)
    unfold handleRefineImage in Hrun.
    destruct (_ || _); [discriminate|].
    destruct (refineImagePrompt _ _ _ _ _) as [[[refined|err] x1] tr1].
    + destruct (Str.truthy (orElse refined "")) eqn:Htruthy; [|discriminate].
      destruct refined as [refined|]; [|discriminate].
      destruct (generateCardImage _ _ _ _ _ _) as [[[image|err] x2] tr2] eqn:Himage;
        [discriminate|].
      inversion Hrun; subst. right. exists refined. cbn [fst snd].
      split; [reflexivity|]. split; [now rewrite Himage|].
      now autorewrite with frame.
    + inversion Hrun; subst. left. split; [reflexivity|].
      now autorewrite with frame.
Qed.

(** C1, counterexample.  At the feedback stage, with no image prompt
    yet, [generateVisual] fails (the provider rejects the request): the
    stage and the card image are as before, the image prompt is not. *)
Lemma failed_generateVisual_changes_imagePrompt :
  let '(s', _, _, path) :=
    run (failingHost serverError) Transition.generateVisual atFeedback 0 in
  path = Caught serverError
  /\ step s' = step atFeedback
  /\ cardImage s' = cardImage atFeedback
  /\ imagePrompt atFeedback = None
  /\ imagePrompt s' <> imagePrompt atFeedback.
Proof. vm_compute. repeat split; discriminate. Qed.

Lemma failed_transition_frame_witness :
  let h := failingHost serverError in
  let s' := fst (fst (fst (run h Transition.generateVisual atFeedback 0))) in
  (visualPrompt atFeedback = None /\ pipeline s' = pipeline atFeedback)
  \/ (exists prompt,
        visualPrompt atFeedback = Some prompt
        /\ fst (fst (generateCardImage h (visualTheme atFeedback)
                       (Some (selectedStyle atFeedback)) (Some prompt)
                       (Some (userApiKey atFeedback)) 0)) = Throw serverError
        /\ pipeline s' = Pipeline.setImagePrompt (Some prompt) (pipeline atFeedback)).
Proof.
  intros h s'.
  apply (failed_transition_frame h Transition.generateVisual atFeedback s' 0 1
           [Attempt 0 [Issued "" (imageRequest
              (match finalPrompt (visualTheme atFeedback) "auto"
                       (visualPrompt atFeedback) with Some p => p | None => "" end))]]
           serverError).
  vm_compute. reflexivity.
Defined.

(** ** The structured client *)

(** An operation that succeeds at once is called once. *)
Lemma withRetry_returns {X T} (h : Host X) (fn : Eff X T) (maxRetries : nat)
    (x x1 : X) (v : T) (tr : list Event) :
  1 <= maxRetries ->
  fn x = (Normal v, x1, tr) ->
  withRetry h fn maxRetries x = (Normal v, x1, [Attempt 0 tr]).
Proof.
  intros Hmax Hfn. unfold withRetry.
  destruct maxRetries as [|remaining]; [lia|].
  cbn [retryLoop]. now rewrite Hfn.
Qed.

Lemma parse_empty_object : JSON.parse "{}" = Some (VObject []).
Proof. reflexivity. Qed.

Lemma parse_samplePayload : JSON.parse samplePayload = Some (VObject sampleData).
Proof. vm_compute. reflexivity. Qed.

Lemma orElse_falsy (a : option string) (b : string) :
  Str.truthy (orElse a "") = false -> orElse a b = b.
Proof. destruct a as [[|c t]|]; cbn; intros H; try reflexivity; discriminate. Qed.

Lemma orElse_truthy (t b : string) : Str.truthy t = true -> orElse (Some t) b = t.
Proof. intros H. cbn. now rewrite H. Qed.

(** C2, counterexample.  The provider answers in schema mode with a text
    that is not JSON (no fuel parses it): [generateFeedbackSummary]
    throws the [SyntaxError] of [JSON.parse] and returns no result. *)
Lemma unparsable_payload_raises :
  (forall fuel, JSON.document fuel "not json" = None)
  /\ fst (fst (generateFeedbackSummary (answeringHost (Some "not json")) "record" None 0))
     = Throw (ThrownError (parseError "not json"))
  /\ (forall result,
        fst (fst (generateFeedbackSummary (answeringHost (Some "not json"))
                    "record" None 0))
        <> Normal result).
Proof.
  split; [now apply JSONFacts.parse_complete|].
  split; [vm_compute; reflexivity|].
  intros result. vm_compute. discriminate.
Qed.

(** C2, as amended.  When the payload is missing or empty,
    [generateFeedbackSummary] parses ["{}"] in its place and returns an
    object without [feedbackCard], [healingSentence], [theme] and
    [designConfig], whose [fullText] joins two ["undefined"].  A payload
    that is not empty and is not JSON is not replaced: the [SyntaxError]
    of [JSON.parse] is thrown, and unless it is classified as a rate limit
    it leaves [generateFeedbackSummary] after that one attempt. *)
Theorem unparsable_payload_contract {X} (h : Host X) (formalRecord : string)
    (customKey : option string) (x x1 : X) (response : Response) :
  generateContent h (getAI h customKey) (feedbackRequest formalRecord) x
  = (Normal response, x1) ->
  let issued := [Attempt 0 [Issued (getAI h customKey) (feedbackRequest formalRecord)]] in
  (Str.truthy (orElse (text response) "") = false ->
   generateFeedbackSummary h formalRecord customKey x
   = (Normal [("fullText", VString ("undefined" ++ Str.nl ++ Str.nl ++ "undefined"))],
      x1, issued))
  /\ (forall payload,
        text response = Some payload ->
        Str.truthy payload = true ->
        JSON.parse payload = None ->
        isRateLimit (ThrownError (syntaxError h payload)) = false ->
        generateFeedbackSummary h formalRecord customKey x
        = (Throw (ThrownError (syntaxError h payload)), x1, issued)).
Proof.
  intros Hgen issued. split.
  - intros Hempty. unfold generateFeedbackSummary.
    apply withRetry_returns; [unfold defaultRetries; lia|].
    unfold bind, generate. rewrite Hgen.
    unfold parsePayload. rewrite (orElse_falsy _ _ Hempty), parse_empty_object.
    reflexivity.
  - intros payload Htext Htruthy Hparse Hclass. unfold generateFeedbackSummary.
    apply withRetry_throws_at_once;
      [unfold defaultRetries; lia | | exact Hclass].
    unfold bind, generate. rewrite Hgen.
    unfold parsePayload. rewrite Htext, (orElse_truthy _ _ Htruthy), Hparse.
    reflexivity.
Qed.

Lemma unparsable_payload_contract_witness :
  let h := answeringHost (Some "not json") in
  let issued := [Attempt 0 [Issued (getAI h None) (feedbackRequest "record")]] in
  (Str.truthy (orElse (Some "not json") "") = false ->
   generateFeedbackSummary h "record" None 0
   = (Normal [("fullText", VString ("undefined" ++ Str.nl ++ Str.nl ++ "undefined"))],
      1, issued))
  /\ generateFeedbackSummary h "record" None 0
     = (Throw (ThrownError (syntaxError h "not json")), 1, issued).
Proof.
  intros h issued.
  destruct (unparsable_payload_contract h "record" None 0 1
              (mkResponse (Some "not json") None) eq_refl) as [Hempty Hthrown].
  split; [exact Hempty|].
  apply (Hthrown "not json"); reflexivity.
Defined.

(** C7.  When the provider answers with the well-formed sample payload,
    [generateFeedbackSummary] returns, after one attempt, the fields of
    the payload as they were parsed, followed by [fullText], which is
    ["A"], a blank line, ["B"]. *)
Theorem wellFormed_payload_fullText {X} (h : Host X) (formalRecord : string)
    (customKey : option string) (x x1 : X) (response : Response) :
  generateContent h (getAI h customKey) (feedbackRequest formalRecord) x
  = (Normal response, x1) ->
  text response = Some samplePayload ->
  generateFeedbackSummary h formalRecord customKey x
  = (Normal [ ("feedbackCard", VString "A");
              ("healingSentence", VString "B");
              ("theme", VString "calm");
              ("designConfig",
                VObject [ ("textColor", VString "light");
                          ("textPosition", VString "center");
                          ("fontStyle", VString "serif") ]);
              ("fullText", VString ("A" ++ Str.nl ++ Str.nl ++ "B")) ],
     x1,
     [Attempt 0 [Issued (getAI h customKey) (feedbackRequest formalRecord)]]).
Proof.
  intros Hgen Htext. unfold generateFeedbackSummary.
  apply withRetry_returns; [unfold defaultRetries; lia|].
  unfold bind, generate. rewrite Hgen.
  unfold parsePayload. rewrite Htext.
  rewrite orElse_truthy by reflexivity. rewrite parse_samplePayload.
  reflexivity.
Qed.

Lemma wellFormed_payload_fullText_witness :
  let h := answeringHost (Some samplePayload) in
  generateFeedbackSummary h "record" None 0
  = (Normal (sampleData ++ [("fullText", VString ("A" ++ Str.nl ++ Str.nl ++ "B"))])%list,
     1, [Attempt 0 [Issued "" (feedbackRequest "record")]]).
Proof.
  intros h.
  exact (wellFormed_payload_fullText h "record" None 0 1
           (mkResponse (Some samplePayload) None) eq_refl eq_refl).
Defined.

(** ** The retry wrapper on concrete operations *)

Lemma nonRateLimit_failure_witness :
  withRetry (failingHost serverError) (failingOperation serverError) 3 0
  = (Throw serverError, 1, [Attempt 0 []])
  /\ attempts (snd (withRetry (failingHost serverError)
                      (failingOperation serverError) 3 0)) = 1
  /\ filter isSleep (snd (withRetry (failingHost serverError)
                            (failingOperation serverError) 3 0)) = [].
Proof.
  apply (nonRateLimit_failure_rethrown_at_once (failingHost serverError)
           (failingOperation serverError) 3 0 1 serverError []).
  - lia.
  - reflexivity.
  - reflexivity.
Defined.

Lemma failingOperation_rateLimited (k : nat) :
  rateLimited (failingHost quotaError) (failingOperation quotaError) k 0.
Proof. exists quotaError. split; reflexivity. Defined.

Lemma rateLimit_failure_witness :
  exists pre inner d inner' rest,
    snd (withRetry64 (failingHost quotaError) (failingOperation quotaError) 3 0)
    = (pre ++ [Attempt 1 inner; Warn (Math_round d) (1 + 1) 3;
               Sleep d; Attempt 2 inner'] ++ rest)%list
    /\ attempts pre = 1
    /\ d = backoff64 1 (fst (Math_random (failingHost quotaError)
                               (hostAfter (failingHost quotaError)
                                  (failingOperation quotaError) 1 0)))
    /\ (inject_Z (2 ^ Z.of_nat 1) * 2000 <= d)%Q
    /\ (d <= inject_Z (2 ^ Z.of_nat 1) * 2000 + 1000)%Q.
Proof.
  apply (rateLimit_failure_backs_off (failingHost quotaError)
           (failingOperation quotaError) 3 1 0).
  - intros y. cbn [failingHost Math_random fst].
    split; [vm_compute; reflexivity|]. split; [discriminate | reflexivity].
  - lia.
  - lia.
  - intros k _. apply failingOperation_rateLimited.
Defined.

(** C4, counterexample.  A [SyntaxError] has neither status nor code
    and says nothing of exhausted resources, so it is no rate limit in the
    words of the specification; yet its message tells the position 1429,
    the wrapper finds the text 429 in it, and the operation is called three
    times, with two suspensions in between. *)
Lemma message_digits_are_retried :
  signalsRateLimit positionError = false
  /\ isRateLimit positionError = true
  /\ fst (fst (withRetry (failingHost positionError)
                 (failingOperation positionError) 3 0)) = Throw positionError
  /\ attempts (snd (withRetry (failingHost positionError)
                      (failingOperation positionError) 3 0)) = 3
  /\ sleeps (snd (withRetry (failingHost positionError)
                    (failingOperation positionError) 3 0)) = 2.
Proof. vm_compute. repeat split. Qed.

(** C5, counterexample.  [Math.random] returns [1 - 2^-52], a double
    below 1, and every attempt fails with a rate limit error.  The code
    computes for attempt 0 the delay 3000 and for attempt 1 the delay 5000:
    the product [u * 1000] and the sum round to the nearest doubles, so the
    delay is [2^i * 2000 + 1000] itself, not below it.  The same holds for
    [1 - 2^-53].  From attempt 48 on the sum can even round above that
    bound. *)
Lemma delay_reaches_upper_bound :
  Double.isDouble nearOne52 = true
  /\ (0 <= nearOne52)%Q /\ (nearOne52 < 1)%Q
  /\ snd (withRetry64 (drawingHost nearOne52 quotaError)
            (failingOperation quotaError) 3 0)
     = [Attempt 0 []; Warn 3000 1 3; Sleep 3000; Attempt 1 [];
        Warn 5000 2 3; Sleep 5000; Attempt 2 []]
  /\ ~ (backoff64 0 nearOne52 < inject_Z (2 ^ Z.of_nat 0) * 2000 + 1000)%Q
  /\ backoff64 0 nearOne53 = 3000%Q
  /\ (inject_Z (2 ^ Z.of_nat 48) * 2000 + 1000 < backoff64 48 nearOne53)%Q.
Proof.
  vm_compute. repeat split; discriminate.
Qed.

Lemma exhausted_retries_witness :
  exists e pre inner,
    outcome (failingHost quotaError) (failingOperation quotaError) (3 - 1) 0 = Throw e
    /\ withRetry (failingHost quotaError) (failingOperation quotaError) 3 0
       = (Throw e,
          hostAfter (failingHost quotaError) (failingOperation quotaError) (3 - 1) 0,
          (pre ++ [Attempt (3 - 1) inner])%list)
    /\ attempts (pre ++ [Attempt (3 - 1) inner]) = 3.
Proof.
  apply (exhausted_retries_rethrow_last_error (failingHost quotaError)
           (failingOperation quotaError) 3 0).
  - lia.
  - intros k _. apply failingOperation_rateLimited.
Defined.

(** ** Feedback and its refinement *)

Lemma has_set_same (p : Js.Props) (k : string) (v : JsValue) :
  Js.has (Js.set p k v) k = true.
Proof.
  induction p as [|[k' w] p IH]; cbn.
  - now rewrite String.eqb_refl.
  - destruct (String.eqb k' k) eqn:E; cbn; rewrite E; [reflexivity | exact IH].
Qed.

Lemma get_set_same (p : Js.Props) (k : string) (v : JsValue) :
  Js.get (Js.set p k v) k = v.
Proof.
  induction p as [|[k' w] p IH]; cbn.
  - now rewrite String.eqb_refl.
  - destruct (String.eqb k' k) eqn:E; cbn; rewrite E; [reflexivity | exact IH].
Qed.

Lemma has_set_other (p : Js.Props) (k k' : string) (v : JsValue) :
  k <> k' -> Js.has (Js.set p k v) k' = Js.has p k'.
Proof.
  intros Hne. apply String.eqb_neq in Hne.
  induction p as [|[k0 w] p IH]; cbn.
  - now rewrite Hne.
  - destruct (String.eqb k0 k) eqn:E; cbn.
    + reflexivity.
    + now rewrite IH.
Qed.

Lemma get_set_other (p : Js.Props) (k k' : string) (v : JsValue) :
  k <> k' -> Js.get (Js.set p k v) k' = Js.get p k'.
Proof.
  intros Hne. apply String.eqb_neq in Hne.
  induction p as [|[k0 w] p IH]; cbn.
  - now rewrite Hne.
  - destruct (String.eqb k0 k) eqn:E; cbn.
    + apply String.eqb_eq in E. subst k0. now rewrite Hne.
    + now rewrite IH.
Qed.

(** Writing a property: it reads back, and the others read as before. *)
Lemma lookup_set_same (p : Js.Props) (k : string) (v : JsValue) :
  Js.lookup (Js.set p k v) k = v.
Proof. unfold Js.lookup. now rewrite has_set_same, get_set_same. Qed.

Lemma lookup_set_other (p : Js.Props) (k k' : string) (v : JsValue) :
  k <> k' -> Js.lookup (Js.set p k v) k' = Js.lookup p k'.
Proof.
  intros Hne. unfold Js.lookup.
  now rewrite (has_set_other _ _ _ _ Hne), (get_set_other _ _ _ _ Hne).
Qed.

(** C3, counterexample.  A feedback whose [fullText] is the join of
    [feedbackCard] "A" and [healingSentence] "B" is refined; the service
    answers "C".  Afterwards the two fields are as before and [fullText]
    is "C", not their join. *)
Lemma refinement_breaks_the_join :
  let '(s', _, _, path) := handleRefine refiningHost refiningFeedback 0 in
  path = Completed
  /\ feedbackField (feedback s') "feedbackCard" = VString "A"
  /\ feedbackField (feedback s') "healingSentence" = VString "B"
  /\ feedbackField (feedback s') "fullText" = VString "C"
  /\ feedbackField (feedback s') "fullText"
     <> VString ("A" ++ Str.nl ++ Str.nl ++ "B").
Proof. vm_compute. repeat split; discriminate. Qed.

(** C3, as amended.  [fullText] is the join of [feedbackCard], a blank
    line and [healingSentence] when the feedback is generated.  A
    refinement at the feedback stage does not recompute it: it replaces
    [fullText] with the text the service returned and leaves
    [feedbackCard] and [healingSentence] as they were. *)
Theorem fullText_joined_then_replaced {X} (h : Host X) :
  (forall s s' x x' tr,
     handleGoToFeedback h s x = (s', x', tr, Completed) ->
     exists card healing,
       Js.toString (feedbackField (feedback s') "feedbackCard") = Some card
       /\ Js.toString (feedbackField (feedback s') "healingSentence") = Some healing
       /\ feedbackField (feedback s') "fullText"
          = VString (card ++ Str.nl ++ Str.nl ++ healing))
  /\ (forall s s' x x' tr p,
        step s <> Step.record ->
        feedback s = Some p ->
        handleRefine h s x = (s', x', tr, Completed) ->
        exists refined,
          fst (fst (refineContent h (Js.or (Js.lookup p "fullText") (VString ""))
                      (refinementInput s) KFeedback (Some (userApiKey s)) x))
          = Normal refined
          /\ feedback s' = Some (Js.set p "fullText" (ofText refined))
          /\ feedbackField (feedback s') "fullText" = ofText refined
          /\ feedbackField (feedback s') "feedbackCard" = Js.lookup p "feedbackCard"
          /\ feedbackField (feedback s') "healingSentence"
             = Js.lookup p "healingSentence").
Proof.
  split.
  - intros s s' x x' tr. unfold handleGoToFeedback.
    destruct (generateFeedbackSummary _ _ _ _) as [[[summary|err] x1] tr1];
      [|discriminate].
    unfold interp. cbn [Js.all_some lit].
    destruct (Js.toString (Js.lookup summary "feedbackCard")) as [card|] eqn:Hcard;
      cbn [option_map]; [|discriminate].
    destruct (Js.toString (Js.lookup summary "healingSentence")) as [healing|]
      eqn:Hheal; cbn [option_map]; [|discriminate].
    intros Hrun. inversion Hrun; subst; clear Hrun.
    exists card, healing. destruct s; cbn [feedback setFeedback setStep setIsEditing
      setIsGenerating setError feedbackField].
    rewrite lookup_set_same, !lookup_set_other by discriminate.
    rewrite Hcard, Hheal. repeat split.
  - intros s s' x x' tr p Hstep Hfb. unfold handleRefine.
    destruct (negb _); [discriminate|].
    replace (Step_eqb (step s) Step.record) with false
      by (destruct (step s); [reflexivity | congruence | reflexivity | reflexivity]).
    rewrite Hfb. cbn [feedbackField].
    destruct (refineContent _ _ _ _ _ _) as [[[refined|err] x1] tr1];
      [|discriminate].
    intros Hrun. inversion Hrun; subst; clear Hrun.
    exists refined. split; [reflexivity|].
    assert (Hnew : feedback (setIsRefining false (setRefinementInput ""
                     (setFeedback (fun prev => match prev with
                                               | Some p0 => Some (Js.set p0 "fullText"
                                                                    (ofText refined))
                                               | None => None
                                               end)
                        (setError None (setIsRefining true s)))))
                   = Some (Js.set p "fullText" (ofText refined))).
    { destruct s; cbn in *. now rewrite Hfb. }
    rewrite Hnew. cbn [feedbackField].
    rewrite lookup_set_same, !lookup_set_other by discriminate.
    repeat split.
Qed.

Lemma fullText_joined_then_replaced_witness :
  (let s' := fst (fst (fst (handleGoToFeedback (answeringHost (Some samplePayload))
                              atRecord 0))) in
   exists card healing,
     Js.toString (feedbackField (feedback s') "feedbackCard") = Some card
     /\ Js.toString (feedbackField (feedback s') "healingSentence") = Some healing
     /\ feedbackField (feedback s') "fullText"
        = VString (card ++ Str.nl ++ Str.nl ++ healing))
  /\ (let s' := fst (fst (fst (handleRefine refiningHost refiningFeedback 0))) in
      exists refined,
        fst (fst (refineContent refiningHost
                    (Js.or (Js.lookup sampleFeedback "fullText") (VString ""))
                    (refinementInput refiningFeedback) KFeedback
                    (Some (userApiKey refiningFeedback)) 0))
        = Normal refined
        /\ feedback s' = Some (Js.set sampleFeedback "fullText" (ofText refined))
        /\ feedbackField (feedback s') "fullText" = ofText refined
        /\ feedbackField (feedback s') "feedbackCard"
           = Js.lookup sampleFeedback "feedbackCard"
        /\ feedbackField (feedback s') "healingSentence"
           = Js.lookup sampleFeedback "healingSentence").
Proof.
  split.
  - intros s'.
    apply (proj1 (fullText_joined_then_replaced (answeringHost (Some samplePayload)))
             atRecord s' 0 1 [Attempt 0 [Issued "" (feedbackRequest "record")]]).
    vm_compute. reflexivity.
  - intros s'.
    apply (proj2 (fullText_joined_then_replaced refiningHost)
             refiningFeedback s' 0 1
             (snd (fst (handleRefine refiningHost refiningFeedback 0)))
             sampleFeedback).
    + discriminate.
    + reflexivity.
    + vm_compute. reflexivity.
Defined.

(** ** Blank input *)

Lemma bytes_app (a b : string) :
  Str.bytes (a ++ b) = (Str.bytes a ++ Str.bytes b)%list.
Proof.
  unfold Str.bytes. induction a as [|c a IH]; cbn; [reflexivity|].
  now rewrite IH.
Qed.

Lemma bytes_concat (chars : list string) :
  Str.bytes (String.concat "" chars) = flat_map Str.bytes chars.
Proof.
  induction chars as [|c [|d rest] IH].
  - reflexivity.
  - cbn. now rewrite app_nil_r.
  - change (String.concat "" (c :: d :: rest))
      with (c ++ "" ++ String.concat "" (d :: rest)).
    rewrite bytes_app. cbn [append]. rewrite IH. reflexivity.
Qed.

(** [trimStart] eats a text of white space whole. *)
Lemma trim_start_blank (chars : list string) :
  Forall (fun c => In c whitespace) chars ->
  forall fuel, length chars <= fuel ->
  Str.trim_start fuel (flat_map Str.bytes chars) = [].
Proof.
  induction 1 as [|c chars Hc _ IH]; intros fuel Hfuel.
  - now destruct fuel.
  - destruct fuel as [|fuel]; [cbn in Hfuel; lia|].
    assert (Hle : length chars <= fuel) by (cbn in Hfuel; lia).
    specialize (IH fuel Hle).
    cbn [flat_map].
    unfold whitespace in Hc. cbn [map] in Hc.
    repeat (destruct Hc as [<- | Hc]; [exact IH|]).
    destruct Hc.
Qed.

Lemma blank_length (chars : list string) :
  Forall (fun c => In c whitespace) chars ->
  length chars <= length (flat_map Str.bytes chars).
Proof.
  induction 1 as [|c chars Hc _ IH]; [reflexivity|].
  cbn [flat_map]. rewrite length_app.
  assert (1 <= length (Str.bytes c)).
  { unfold whitespace in Hc. cbn [map] in Hc.
    repeat (destruct Hc as [<- | Hc]; [cbn; lia|]). destruct Hc. }
  cbn [length]. lia.
Qed.

(** [trim] of a blank text is the empty text. *)
Lemma trim_blank (s : string) : blank s -> Str.trim s = "".
Proof.
  intros (chars & Hws & ->). unfold Str.trim.
  rewrite bytes_concat.
  rewrite (trim_start_blank chars Hws) by now apply blank_length.
  reflexivity.
Qed.

(** A call of the client that was started shows in the trace. *)
Lemma withRetry_traced {X T} (h : Host X) (fn : Eff X T) (remaining : nat) (x : X) :
  snd (withRetry h fn (S remaining) x) <> [].
Proof.
  unfold withRetry.
  destruct (retryLoop_head h fn (S remaining) remaining 0 ThrownUndefined x)
    as (inner & rest & Hhead).
  rewrite Hhead. discriminate.
Qed.

(** C8.  When the raw input is empty or made of white space only,
    [handleGenerateRecord] returns at its guard: the state of the wizard
    (its stage included) and the host state are what they were and no
    event happened, whereas any call of [generateFormalRecord] would
    have left one.  No error is stored either. *)
Theorem blank_input_is_a_noop {X} (h : Host X) (s : AppState) (x : X) :
  blank (input s) ->
  handleGenerateRecord h s x = (s, x, [], Skipped)
  /\ (forall text key y, snd (generateFormalRecord h text key y) <> []).
Proof.
  intros Hblank. split.
  - unfold handleGenerateRecord. now rewrite (trim_blank _ Hblank).
  - intros text key y. apply withRetry_traced.
Qed.

Lemma blank_input_witness :
  handleGenerateRecord (failingHost serverError) blankTyped 0 = (blankTyped, 0, [], Skipped)
  /\ (forall text key y,
        snd (generateFormalRecord (failingHost serverError) text key y) <> []).
Proof.
  apply (blank_input_is_a_noop (failingHost serverError) blankTyped 0).
  exists blankChars. split.
  - unfold blankChars, whitespace. cbn [map].
    repeat (apply Forall_cons; [cbn; tauto|]). apply Forall_nil.
  - reflexivity.
Defined.

(** ** Back to the feedback *)

(** C9.  From the stage [visual], the button back to the feedback sets
    the stage to [feedback] and nothing else: the card image and the image
    prompt are what they were, and so is every other hook; the host is not
    involved. *)
Theorem backToFeedback_keeps_image {X} (h : Host X) (s : AppState) (x : X) :
  step s = Step.visual ->
  run h Transition.backToFeedback s x = (backToFeedback s, x, [], Completed)
  /\ step (backToFeedback s) = Step.feedback
  /\ cardImage (backToFeedback s) = cardImage s
  /\ imagePrompt (backToFeedback s) = imagePrompt s
  /\ pipeline (backToFeedback s) = Pipeline.setStage Step.feedback (pipeline s)
  /\ (input (backToFeedback s), formalRecord (backToFeedback s),
      feedback (backToFeedback s), selectedStyle (backToFeedback s),
      error (backToFeedback s), userApiKey (backToFeedback s))
     = (input s, formalRecord s, feedback s, selectedStyle s, error s, userApiKey s)
  /\ (isGenerating (backToFeedback s), hasKey (backToFeedback s),
      isEditing (backToFeedback s), refinementInput (backToFeedback s),
      isRefining (backToFeedback s), imageRefinementInput (backToFeedback s),
      isRefiningImage (backToFeedback s))
     = (isGenerating s, hasKey s, isEditing s, refinementInput s, isRefining s,
        imageRefinementInput s, isRefiningImage s).
Proof. intros _. destruct s. cbn. repeat split. Qed.

Lemma backToFeedback_witness :
  step (backToFeedback atVisual) = Step.feedback
  /\ cardImage (backToFeedback atVisual) = Some "data:image/png;base64,AAAA"
  /\ imagePrompt (backToFeedback atVisual) = Some "a prompt".
Proof.
  destruct (backToFeedback_keeps_image (failingHost serverError) atVisual 0 eq_refl)
    as (_ & Hstep & Himage & Hprompt & _).
  split; [exact Hstep|]. split; [exact Himage | exact Hprompt].
Defined.

(** ** Unknown style keys *)


Lemma styled_when_no_raw_prompt (rawPrompt : option string) :
  Str.truthy (orElse rawPrompt "") = false -> rawPrompt = None \/ rawPrompt = Some "".
Proof. destruct rawPrompt as [[|c t]|]; cbn; intros H; auto; discriminate. Qed.

(** X29.  For a style key that is neither one of the ten keys of the
    table nor the name of a property every object inherits, and without a
    raw prompt, the prompt of [generateCardImage] is built from the
    [warm_book] template, and the call as a whole does what the call with
    [warm_book] does: no error is raised for the unknown key. *)
Theorem unknown_style_falls_back {X} (h : Host X) (theme : JsValue)
    (styleKey : string) (rawPrompt customKey : option string) (x : X) :
  Js.has IMAGE_STYLES styleKey = false ->
  Js.Object_prototype styleKey = VUndefined ->
  Str.truthy (orElse rawPrompt "") = false ->
  finalPrompt theme styleKey rawPrompt
  = interp [Js.toString (Js.get IMAGE_STYLES "warm_book"); lit " Theme: ";
            Js.toString theme; lit ". "; lit noText]
  /\ generateCardImage h theme (Some styleKey) rawPrompt customKey x
     = generateCardImage h theme (Some "warm_book") rawPrompt customKey x.
Proof.
  intros Hown Hinherited Hraw.
  assert (Hauto : String.eqb styleKey "auto" = false).
  { destruct (String.eqb styleKey "auto") eqn:E; [|reflexivity].
    apply String.eqb_eq in E. subst styleKey. discriminate Hown. }
  assert (Hfallback : forall raw, raw = None \/ raw = Some "" ->
            finalPrompt theme styleKey raw
            = interp [Js.toString (Js.get IMAGE_STYLES "warm_book"); lit " Theme: ";
                      Js.toString theme; lit ". "; lit noText]).
  { assert (Hlookup : Js.lookup IMAGE_STYLES styleKey = VUndefined)
      by (unfold Js.lookup; now rewrite Hown).
    intros raw Hr. unfold finalPrompt. rewrite Hauto, Hlookup.
    change (Js.or VUndefined (Js.lookup IMAGE_STYLES "warm_book"))
      with (Js.get IMAGE_STYLES "warm_book").
    destruct Hr as [-> | ->]; reflexivity. }
  assert (Hwarm : forall raw, raw = None \/ raw = Some "" ->
            finalPrompt theme "warm_book" raw
            = interp [Js.toString (Js.get IMAGE_STYLES "warm_book"); lit " Theme: ";
                      Js.toString theme; lit ". "; lit noText]).
  { intros raw Hr. destruct Hr as [-> | ->]; reflexivity. }
  pose proof (styled_when_no_raw_prompt _ Hraw) as Hr.
  split; [now apply Hfallback|].
  unfold generateCardImage. now rewrite (Hfallback _ Hr), (Hwarm _ Hr).
Qed.

Lemma unknown_style_witness :
  finalPrompt (VString "calm") "watercolor" None
  = interp [Js.toString (Js.get IMAGE_STYLES "warm_book"); lit " Theme: ";
            Js.toString (VString "calm"); lit ". "; lit noText]
  /\ generateCardImage (failingHost serverError) (VString "calm") (Some "watercolor")
       None None 0
     = generateCardImage (failingHost serverError) (VString "calm") (Some "warm_book")
         None None 0.
Proof.
  apply (unknown_style_falls_back (failingHost serverError) (VString "calm")
           "watercolor" None None 0); reflexivity.
Defined.

(** * Further properties *)

(** ** The retry wrapper, in general *)

Section RetryInGeneral.

Context {X T : Type} (h : Host X) (fn : Eff X T).

(** Every run of the loop ends with some attempt [k]: the attempts before
    it failed with rate limits and were retried, each retry after one
    warning and one suspension, and what attempt [k] gives is the result. *)
Lemma retryLoop_settles (maxRetries remaining : nat) :
  forall i lastError x,
    S remaining + i = maxRetries ->
    exists k pre,
      k <= remaining
      /\ (forall j, j < k -> rateLimited h fn j x)
      /\ retryLoop h fn maxRetries (S remaining) i lastError x
         = (outcome h fn k x, hostAfter h fn k x,
            (pre ++ [Attempt (i + k) (snd (fn (hostBefore h fn k x)))])%list)
      /\ attempts pre = k /\ sleeps pre = k /\ warns pre = k
      /\ settled maxRetries (i + k) (outcome h fn k x).
Proof.
  induction remaining as [|remaining IH]; intros i lastError x Hinv.
  - exists 0, []. rewrite Nat.add_0_r.
    unfold outcome, hostAfter. cbn [hostBefore].
    destruct (fn x) as [[[v|e] x1] tr] eqn:Hfn; cbn [fst snd].
    + repeat split; try lia. cbn [retryLoop]. now rewrite Hfn.
    + repeat split; try lia.
      * apply (retryLoop_stop h fn _ _ _ _ _ _ _ _ Hfn). right. lia.
      * right. lia.
  - destruct (fn x) as [[[v|e] x1] tr] eqn:Hfn.
    + exists 0, []. rewrite Nat.add_0_r.
      unfold outcome, hostAfter. cbn [hostBefore]. rewrite Hfn. cbn [fst snd].
      repeat split; try lia. cbn [retryLoop]. now rewrite Hfn.
    + destruct (isRateLimit e) eqn:Hrate.
      * destruct (IH (S i) e (afterRetry h fn x)) as
          (k & pre & Hk & Hall & Hrun & Ha & Hs & Hw & Hset); [lia|].
        exists (S k),
          ([Attempt i tr;
            Warn (Math_round (backoff i (fst (Math_random h x1)))) (i + 1) maxRetries;
            Sleep (backoff i (fst (Math_random h x1)))] ++ pre)%list.
        split; [lia|]. split.
        { intros [|j] Hj.
          - exists e. unfold outcome. cbn [hostBefore]. rewrite Hfn. now split.
          - apply Hall. lia. }
        split.
        { rewrite (retryLoop_retry h fn _ _ _ _ _ _ _ _ Hfn Hrate) by lia.
          cbn zeta. rewrite Hrun. unfold outcome, hostAfter. cbn [hostBefore].
          replace (S i + k) with (i + S k) by lia.
          now rewrite <- app_assoc. }
        unfold attempts, sleeps, warns in *. cbn [filter isAttempt isSleep isWarn app length].
        rewrite Ha, Hs, Hw. repeat split.
        replace (i + S k) with (S i + k) by lia. exact Hset.
      * exists 0, []. rewrite Nat.add_0_r.
        unfold outcome, hostAfter. cbn [hostBefore]. rewrite Hfn. cbn [fst snd].
        repeat split; try lia.
        -- apply (retryLoop_stop h fn _ _ _ _ _ _ _ _ Hfn). now left.
        -- now left.
Qed.

Lemma count_last (f : Event -> bool) (pre : list Event) (ev : Event) :
  length (filter f (pre ++ [ev])) = length (filter f pre) + (if f ev then 1 else 0).
Proof. rewrite filter_app, length_app. cbn. now destruct (f ev). Qed.

Lemma attempts_le_maxRetries (maxRetries : nat) (x : X) :
  attempts (snd (withRetry h fn maxRetries x)) <= maxRetries.
Proof.
  unfold withRetry. destruct maxRetries as [|remaining]; [cbn; lia|].
  destruct (retryLoop_settles (S remaining) remaining 0 ThrownUndefined x)
    as (k & pre & Hk & _ & Hrun & Ha & _); [lia|].
  rewrite Hrun. cbn [snd]. unfold attempts in *. rewrite count_last, Ha. cbn. lia.
Qed.

(** A run of the loop that starts with iterations left is attempt [i]
    and then the retries, in the order of the loop. *)
Lemma retryLoop_inLoopOrder (maxRetries remaining : nat) :
  forall i lastError x,
    i + S remaining = maxRetries ->
    exists inner rest,
      snd (retryLoop h fn maxRetries (S remaining) i lastError x)
      = Attempt i inner :: rest
      /\ retries maxRetries (S i) rest = true.
Proof.
  induction remaining as [|remaining IH]; intros i lastError x Hinv;
    destruct (fn x) as [[[v|e] x1] tr] eqn:Hfn.
  - cbn [retryLoop]. rewrite Hfn. exists tr, []. now split.
  - rewrite (retryLoop_stop h fn _ _ _ _ _ _ _ _ Hfn) by (right; lia).
    exists tr, []. now split.
  - cbn [retryLoop]. rewrite Hfn. exists tr, []. now split.
  - destruct (isRateLimit e) eqn:Hrate.
    + rewrite (retryLoop_retry h fn _ _ _ _ _ _ _ _ Hfn Hrate) by lia.
      cbv zeta.
      destruct (IH (S i) e (afterRetry h fn x)) as (inner' & rest' & Hrun & Hrest); [lia|].
      destruct (retryLoop h fn maxRetries (S remaining) (S i) e (afterRetry h fn x))
        as [[r x3] tr'].
      cbn [snd] in *. subst tr'.
      eexists tr, _. split; [reflexivity|].
      cbn [app retries]. rewrite Hrest, Z.eqb_refl, !Nat.eqb_refl, Nat.add_1_r.
      now rewrite Nat.eqb_refl.
    + rewrite (retryLoop_stop h fn _ _ _ _ _ _ _ _ Hfn) by now left.
      exists tr, []. now split.
Qed.

(** X1.  [withRetry] never calls its operation more than [maxRetries]
    times, and calls it at least once unless [maxRetries] is 0.  Its trace
    is in the order of the loop: attempt 0, and then for each further
    attempt the warning that names it and the rounded delay, the suspension
    for that delay, and the attempt.  So every call but the first comes
    right after exactly one warning and one suspension. *)
Theorem withRetry_attempts_bounded (maxRetries : nat) (x : X) :
  let tr := snd (withRetry h fn maxRetries x) in
  attempts tr <= maxRetries
  /\ Nat.min 1 maxRetries <= attempts tr
  /\ sleeps tr = attempts tr - 1
  /\ warns tr = sleeps tr
  /\ inLoopOrder maxRetries tr = true.
Proof.
  unfold withRetry. destruct maxRetries as [|remaining].
  - cbn. repeat split; lia.
  - destruct (retryLoop_inLoopOrder (S remaining) remaining 0 ThrownUndefined x)
      as (inner & rest & Horder & Hrest); [lia|].
    destruct (retryLoop_settles (S remaining) remaining 0 ThrownUndefined x)
      as (k & pre & Hk & _ & Hrun & Ha & Hs & Hw & _); [lia|].
    cbv zeta. split; [|split; [|split; [|split]]].
    5: { rewrite Horder. exact Hrest. }
    all: rewrite Hrun; cbn [snd];
      unfold attempts, sleeps, warns in *; rewrite !count_last;
      cbn [isAttempt isSleep isWarn]; rewrite ?Ha, ?Hs, ?Hw; cbn; lia.
Qed.

(** X2.  What [withRetry] gives is what the last call of its operation
    gave, value or error, in the host state that call left: it neither
    makes up an error nor swallows one.  That last call is the first one
    that succeeded, failed otherwise than by a rate limit, or used up the
    attempts; all the calls before it failed by rate limits. *)
Theorem withRetry_gives_last_outcome (maxRetries : nat) (x : X) :
  1 <= maxRetries ->
  exists k,
    k < maxRetries
    /\ (forall j, j < k -> rateLimited h fn j x)
    /\ fst (withRetry h fn maxRetries x) = (outcome h fn k x, hostAfter h fn k x)
    /\ attempts (snd (withRetry h fn maxRetries x)) = S k
    /\ settled maxRetries k (outcome h fn k x).
Proof.
  intros Hmax. unfold withRetry. destruct maxRetries as [|remaining]; [lia|].
  destruct (retryLoop_settles (S remaining) remaining 0 ThrownUndefined x)
    as (k & pre & Hk & Hall & Hrun & Ha & _ & _ & Hset); [lia|].
  exists k. rewrite Hrun. cbn [fst snd]. repeat split; try lia; try assumption.
  unfold attempts in *. rewrite count_last, Ha. cbn. lia.
Qed.

(** X3.  When the operation fails by rate limits [k] times and then
    succeeds, with [k] below [maxRetries], [withRetry] returns the value of
    that call after [k + 1] calls and [k] suspensions. *)
Theorem withRetry_recovers (maxRetries k : nat) (x : X) (v : T) :
  k < maxRetries ->
  (forall j, j < k -> rateLimited h fn j x) ->
  outcome h fn k x = Normal v ->
  fst (withRetry h fn maxRetries x) = (Normal v, hostAfter h fn k x)
  /\ attempts (snd (withRetry h fn maxRetries x)) = S k
  /\ sleeps (snd (withRetry h fn maxRetries x)) = k.
Proof.
  intros Hk Hall Hv. unfold withRetry.
  destruct maxRetries as [|remaining]; [lia|].
  destruct (retryLoop_settles (S remaining) remaining 0 ThrownUndefined x)
    as (k' & pre & Hk' & Hall' & Hrun & Ha & Hs & _ & Hset); [lia|].
  assert (k' = k) as ->.
  { destruct (Nat.lt_trichotomy k' k) as [Hlt | [Heq | Hgt]]; [|exact Heq|].
    - destruct (Hall k' Hlt) as (e & He & Hrate). cbn [Nat.add] in Hset.
      rewrite He in Hset. cbn in Hset. destruct Hset as [Hno | Hend]; [congruence | lia].
    - destruct (Hall' k Hgt) as (e & He & _). congruence. }
  rewrite Hrun. cbn [fst snd]. rewrite Hv.
  unfold attempts, sleeps in *. rewrite !count_last, Ha, Hs. cbn. repeat split; lia.
Qed.

End RetryInGeneral.

Lemma withRetry_gives_last_outcome_witness :
  exists k,
    k < 3
    /\ (forall j, j < k ->
          rateLimited (failingHost quotaError) (flakyOperation 1 quotaError) j 0)
    /\ fst (withRetry (failingHost quotaError) (flakyOperation 1 quotaError) 3 0)
       = (outcome (failingHost quotaError) (flakyOperation 1 quotaError) k 0,
          hostAfter (failingHost quotaError) (flakyOperation 1 quotaError) k 0)
    /\ attempts (snd (withRetry (failingHost quotaError)
                        (flakyOperation 1 quotaError) 3 0)) = S k
    /\ settled 3 k (outcome (failingHost quotaError) (flakyOperation 1 quotaError) k 0).
Proof.
  apply (withRetry_gives_last_outcome (failingHost quotaError)
           (flakyOperation 1 quotaError) 3 0).
  lia.
Defined.

Lemma withRetry_recovers_witness :
  fst (withRetry (failingHost quotaError) (flakyOperation 2 quotaError) 3 0)
  = (Normal 2, 3)
  /\ attempts (snd (withRetry (failingHost quotaError)
                      (flakyOperation 2 quotaError) 3 0)) = 3
  /\ sleeps (snd (withRetry (failingHost quotaError)
                    (flakyOperation 2 quotaError) 3 0)) = 2.
Proof.
  apply (withRetry_recovers (failingHost quotaError) (flakyOperation 2 quotaError)
           3 2 0 2).
  - lia.
  - intros j Hj. exists quotaError.
    destruct j as [|[|j]]; [split; reflexivity | split; reflexivity | lia].
  - reflexivity.
Defined.

(** ** The time spent sleeping *)

Lemma backoffAhead_closed (r : nat) :
  forall i,
    backoffAhead (S r) i
    = (2 ^ Z.of_nat i * (2 ^ Z.of_nat r - 1) * 2000 + Z.of_nat r * 1000)%Z.
Proof.
  induction r as [|r IH]; intros i.
  - cbn. lia.
  - change (backoffAhead (S (S r)) i)
      with (2 ^ Z.of_nat i * 2000 + 1000 + backoffAhead (S r) (S i))%Z.
    rewrite IH. rewrite !Nat2Z.inj_succ, !Z.pow_succ_r by lia.
    generalize (2 ^ Z.of_nat i)%Z (2 ^ Z.of_nat r)%Z. intros a b. lia.
Qed.

Lemma worstBackoff_closed (maxRetries : nat) :
  backoffAhead maxRetries 0 = worstBackoff maxRetries.
Proof.
  unfold worstBackoff. destruct maxRetries as [|r]; [reflexivity|].
  rewrite backoffAhead_closed. cbn [Nat.sub]. rewrite Nat.sub_0_r.
  change (2 ^ Z.of_nat 0)%Z with 1%Z. lia.
Qed.

Section Backoff.

Context {X T : Type} (h : Host X) (fn : Eff X T).

Hypothesis random_range :
  forall y, (0 <= fst (Math_random h y) /\ fst (Math_random h y) < 1)%Q.



End Backoff.


(** ** The time spent sleeping, in binary64 *)

Section Backoff64.

Context {X T : Type} (h : Host X) (fn : Eff X T).

Hypothesis random_double :
  forall y, Double.isDouble (fst (Math_random h y)) = true
            /\ (0 <= fst (Math_random h y))%Q /\ (fst (Math_random h y) < 1)%Q.

Lemma retryLoop64_sleeps_within (maxRetries remaining : nat) :
  maxRetries <= 47 ->
  forall i lastError x,
    remaining + i = maxRetries ->
    (sleepTotal (snd (retryLoop64 h fn maxRetries remaining i lastError x))
     <= inject_Z (backoffAhead remaining i))%Q.
Proof.
  intros Hmax. induction remaining as [|remaining IH]; intros i lastError x Hinv.
  - apply Qle_refl.
  - assert (Hahead : (inject_Z 0 <= inject_Z (backoffAhead (S remaining) i))%Q).
    { destruct remaining; [apply Qle_refl|].
      rewrite backoffAhead_closed. rewrite <- Zle_Qle.
      assert (0 < 2 ^ Z.of_nat i)%Z by (apply Z.pow_pos_nonneg; lia).
      assert (1 <= 2 ^ Z.of_nat (S remaining))%Z.
      { change 1%Z with (2 ^ 0)%Z at 1. apply Z.pow_le_mono_r; lia. }
      nia. }
    cbn [retryLoop64]. destruct (fn x) as [[[v|e] x1] tr]; [exact Hahead|].
    rewrite retry_test.
    destruct (isRateLimit e && (S i <? maxRetries)%nat) eqn:Hretry; [|exact Hahead].
    apply andb_prop in Hretry as [_ Hlt]. apply Nat.ltb_lt in Hlt.
    destruct (random_double x1) as (Hdouble & Hlo & Hhi).
    destruct (Math_random h x1) as [u x2]. cbn [fst] in Hdouble, Hlo, Hhi.
    specialize (IH (S i) e x2).
    destruct (retryLoop64 h fn maxRetries remaining (S i) e x2) as [[r x3] tr'].
    cbn [snd app sleepTotal] in *.
    destruct remaining as [|remaining]; [lia|].
    change (backoffAhead (S (S remaining)) i)
      with (2 ^ Z.of_nat i * 2000 + 1000 + backoffAhead (S remaining) (S i))%Z.
    rewrite !inject_Z_plus, inject_Z_mult.
    destruct (backoff64_bounds i u) as [_ Hd]; try assumption; [lia|].
    assert (Hrest : (sleepTotal tr' <= inject_Z (backoffAhead (S remaining) (S i)))%Q)
      by (apply IH; lia).
    change (inject_Z 2000) with 2000%Q. change (inject_Z 1000) with 1000%Q.
    generalize dependent (backoff64 i u). intros d Hd.
    generalize dependent (inject_Z (2 ^ Z.of_nat i)). intros base Hd.
    generalize dependent (inject_Z (backoffAhead (S remaining) (S i))).
    intros ahead _ Hrest. lra.
Qed.

(** X30.  With the delays computed in binary64, as the code computes
    them, and [Math.random] returning doubles in [0, 1), the suspensions
    of one call of the wrapper add up to at most
    [(2^(maxRetries-1) - 1) * 2000 + (maxRetries-1) * 1000] milliseconds
    for every [maxRetries] up to 47, whatever the operation does: eight
    seconds with the default of three attempts. *)
Theorem withRetry64_sleeps_within (maxRetries : nat) (x : X) :
  maxRetries <= 47 ->
  (sleepTotal (snd (withRetry64 h fn maxRetries x))
   <= inject_Z (worstBackoff maxRetries))%Q
  /\ worstBackoff defaultRetries = 8000%Z.
Proof.
  intros Hmax. split; [|reflexivity].
  rewrite <- worstBackoff_closed. unfold withRetry64.
  apply retryLoop64_sleeps_within; lia.
Qed.

End Backoff64.

Lemma withRetry64_sleeps_within_witness :
  (sleepTotal (snd (withRetry64 (drawingHost nearOne52 quotaError)
                      (failingOperation quotaError) 3%nat 0%nat))
   <= inject_Z (worstBackoff 3%nat))%Q
  /\ worstBackoff defaultRetries = 8000%Z.
Proof.
  apply (withRetry64_sleeps_within (drawingHost nearOne52 quotaError)
           (failingOperation quotaError)).
  - intros y. cbn [drawingHost Math_random fst].
    split; [vm_compute; reflexivity|]. split; [discriminate | reflexivity].
  - lia.
Defined.

(** ** The requests of the client *)

Section Requests.

Context {X : Type} (h : Host X).

Lemma issued_attempt (i : nat) (k : string) (r : Request) (rest : list Event) :
  issued (Attempt i [Issued k r] :: rest) = (k, r) :: issued rest.
Proof. reflexivity. Qed.

(** When every call of the operation hands the same request to the
    provider, the requests of a run of the loop are that request, once
    for each attempt. *)
Lemma retryLoop_issues_same {T} (fn : Eff X T) (k : string) (r : Request)
    (maxRetries remaining : nat) :
  (forall y, snd (fn y) = [Issued k r]) ->
  forall i lastError x,
    issued (snd (retryLoop h fn maxRetries remaining i lastError x))
    = repeat (k, r) (attempts (snd (retryLoop h fn maxRetries remaining i lastError x))).
Proof.
  intros Hsame. induction remaining as [|remaining IH]; intros i lastError x.
  - reflexivity.
  - cbn [retryLoop]. pose proof (Hsame x) as Hx.
    destruct (fn x) as [[[v|e] x1] tr]; cbn [snd] in Hx; subst tr.
    + reflexivity.
    + destruct (isRateLimit e && _).
      * destruct (Math_random h x1) as [u x2].
        specialize (IH (S i) e x2).
        destruct (retryLoop h fn maxRetries remaining (S i) e x2) as [[c x3] tr'].
        cbn [snd] in *. cbn [app]. rewrite issued_attempt.
        unfold attempts in *. cbn. now rewrite IH.
      * reflexivity.
Qed.

(** The same when no call hands any. *)
Lemma retryLoop_issues_none {T} (fn : Eff X T) (maxRetries remaining : nat) :
  (forall y, snd (fn y) = []) ->
  forall i lastError x,
    issued (snd (retryLoop h fn maxRetries remaining i lastError x)) = [].
Proof.
  intros Hnone. induction remaining as [|remaining IH]; intros i lastError x.
  - reflexivity.
  - cbn [retryLoop]. pose proof (Hnone x) as Hx.
    destruct (fn x) as [[[v|e] x1] tr]; cbn [snd] in Hx; subst tr.
    + reflexivity.
    + destruct (isRateLimit e && _).
      * destruct (Math_random h x1) as [u x2].
        specialize (IH (S i) e x2).
        destruct (retryLoop h fn maxRetries remaining (S i) e x2) as [[c x3] tr'].
        cbn [snd] in *. cbn. exact IH.
      * reflexivity.
Qed.

Lemma generate_then {A} (ai : string) (req : Request) (k : Response -> Eff X A) :
  (forall response y, snd (k response y) = []) ->
  forall y, snd ((response <- generate h ai req ;; k response) y) = [Issued ai req].
Proof.
  intros Hquiet y. unfold bind, generate.
  destruct (generateContent h ai req y) as [[response|e] y1]; [|reflexivity].
  pose proof (Hquiet response y1) as Hk.
  destruct (k response y1) as [[c y2] tr]. cbn [snd] in *. now subst tr.
Qed.

Lemma template_then {A} (piece : option string) (k : string -> Eff X A) (t : list Event) :
  (forall p y, piece = Some p -> snd (k p y) = t) ->
  forall y, snd ((p <- template piece ;; k p) y) = match piece with Some _ => t | None => [] end.
Proof.
  intros Hk y. unfold bind, template. destruct piece as [p|]; [|reflexivity].
  cbn. pose proof (Hk p y eq_refl) as Hp.
  destruct (k p y) as [[c y2] tr]. cbn [snd] in *. now subst tr.
Qed.

Lemma parse_then_quiet (response : Response) (y : X) :
  snd ((data <- parsePayload h response ;; withFullText data) y) = [].
Proof.
  unfold bind, parsePayload.
  destruct (JSON.parse _) as [data|]; [|reflexivity]. cbn.
  unfold withFullText.
  destruct data; try reflexivity;
    unfold bind, template; destruct (interp _); reflexivity.
Qed.

(** X5.  Each of the five functions of the client hands the provider one
    request for each attempt of its retry loop: the same request every
    time, with the key [getAI] resolved, and three at most.  The two
    functions whose prompt is a template with a converted value hand none
    when the conversion throws. *)
Theorem client_requests (x : X) (customKey : option string) :
  (forall input,
     let tr := snd (generateFormalRecord h input customKey x) in
     issued tr
     = repeat (getAI h customKey,
               mkRequest "gemini-3.1-pro-preview" (Text (recordPrompt ++ input)) noConfig)
         (attempts tr)
     /\ attempts tr <= 3)
  /\ (forall formalRecord,
        let tr := snd (generateFeedbackSummary h formalRecord customKey x) in
        issued tr = repeat (getAI h customKey, feedbackRequest formalRecord) (attempts tr)
        /\ attempts tr <= 3)
  /\ (forall currentPrompt instruction,
        let tr := snd (refineImagePrompt h currentPrompt instruction customKey x) in
        issued tr
        = repeat (getAI h customKey,
                  mkRequest "gemini-3.1-pro-preview"
                    (Text (refinePromptHead ++ currentPrompt
                           ++ refinePromptMiddle ++ instruction))
                    (mkConfig (Some promptEngineer) None None None))
            (attempts tr)
        /\ attempts tr <= 3)
  /\ (forall theme styleKey rawPrompt,
        let tr := snd (generateCardImage h theme (Some styleKey) rawPrompt customKey x) in
        issued tr
        = match finalPrompt theme styleKey rawPrompt with
          | Some prompt => repeat (getAI h customKey, imageRequest prompt) (attempts tr)
          | None => []
          end
        /\ attempts tr <= 3)
  /\ (forall currentContent instruction type,
        let tr := snd (refineContent h currentContent instruction type customKey x) in
        issued tr
        = match interp [lit refineHead; Js.toString currentContent;
                        lit refineMiddle; lit instruction] with
          | Some body =>
              repeat (getAI h customKey,
                      mkRequest "gemini-3.1-pro-preview" (Text body)
                        (mkConfig (Some match type with
                                        | KRecord => recordEditor
                                        | KFeedback => feedbackEditor
                                        end) None None None))
                (attempts tr)
          | None => []
          end
        /\ attempts tr <= 3).
Proof.
  repeat split.
  - apply retryLoop_issues_same. apply generate_then. reflexivity.
  - apply attempts_le_maxRetries.
  - apply retryLoop_issues_same. apply generate_then. apply parse_then_quiet.
  - apply attempts_le_maxRetries.
  - apply retryLoop_issues_same. apply generate_then. reflexivity.
  - apply attempts_le_maxRetries.
  - unfold generateCardImage, withRetry.
    destruct (finalPrompt theme styleKey rawPrompt) as [prompt|] eqn:Hprompt.
    + apply retryLoop_issues_same. intros y.
      rewrite (template_then _ _ [Issued (getAI h customKey) (imageRequest prompt)]).
      * reflexivity.
      * intros p y0 Hp. inversion Hp; subst. now apply generate_then.
    + apply retryLoop_issues_none. intros y.
      now rewrite (template_then _ _ []).
  - apply attempts_le_maxRetries.
  - unfold refineContent, withRetry.
    destruct (interp _) as [body|] eqn:Hbody.
    + apply retryLoop_issues_same. intros y.
      rewrite (template_then _ _
                 [Issued (getAI h customKey)
                    (mkRequest "gemini-3.1-pro-preview" (Text body)
                       (mkConfig (Some match type with
                                       | KRecord => recordEditor
                                       | KFeedback => feedbackEditor
                                       end) None None None))]).
      * reflexivity.
      * intros p y0 Hp. inversion Hp; subst. now apply generate_then.
    + apply retryLoop_issues_none. intros y.
      now rewrite (template_then _ _ []).
  - apply attempts_le_maxRetries.
Qed.

End Requests.

(** ** Image prompts and image parts *)

Lemma append_empty_r (a : string) : a ++ "" = a.
Proof. induction a as [|c a IH]; cbn; [reflexivity | now rewrite IH]. Qed.

Lemma append_assoc (a b c : string) : (a ++ b) ++ c = a ++ b ++ c.
Proof. induction a as [|c0 a IH]; cbn; [reflexivity | now rewrite IH]. Qed.

Lemma concat_empty_sep (a : string) (l : list string) :
  String.concat "" (a :: l) = a ++ String.concat "" l.
Proof. destruct l; cbn; [now rewrite append_empty_r | reflexivity]. Qed.

(** X6.  Every prompt [generateCardImage] sends ends with the sentence
    that forbids text in the image, whether it comes from the raw prompt
    or from a style template. *)
Theorem prompt_ends_with_noText (theme : JsValue) (styleKey : string)
    (rawPrompt : option string) (prompt : string) :
  finalPrompt theme styleKey rawPrompt = Some prompt ->
  exists before, prompt = before ++ noText.
Proof.
  unfold finalPrompt.
  set (stylePrompt := Js.or _ _).
  assert (Hstyled :
    (if String.eqb styleKey "auto"
     then interp [Js.toString stylePrompt; lit " The theme is: "; Js.toString theme;
                  lit ". Create a visual metaphor for this theme. "; lit noText]
     else interp [Js.toString stylePrompt; lit " Theme: "; Js.toString theme;
                  lit ". "; lit noText]) = Some prompt ->
    exists before, prompt = before ++ noText).
  { unfold interp, lit. cbn [Js.all_some].
    destruct (Js.toString stylePrompt) as [a|], (Js.toString theme) as [b|];
      cbn [option_map]; try (destruct (String.eqb styleKey "auto"); discriminate).
    destruct (String.eqb styleKey "auto"); intros H; inversion H; subst; clear H.
    - exists (a ++ " The theme is: " ++ b
              ++ ". Create a visual metaphor for this theme. ").
      now rewrite !append_assoc.
    - exists (a ++ " Theme: " ++ b ++ ". "). now rewrite !append_assoc. }
  destruct rawPrompt as [raw|]; [|exact Hstyled].
  destruct (Str.truthy raw); [|exact Hstyled].
  intros H. inversion H; subst. exists (raw ++ ". ").
  now rewrite append_assoc.
Qed.

Lemma prompt_ends_with_noText_witness :
  exists before,
    "a quiet harbour. " ++ noText = before ++ noText.
Proof.
  apply (prompt_ends_with_noText (VString "calm") "auto" (Some "a quiet harbour")).
  reflexivity.
Defined.

(** X7.  With a raw prompt that is not empty, [generateCardImage] sends
    that prompt, a full stop and the sentence that forbids text; the theme
    and the style key play no part, so two calls that differ only in them
    do the same. *)
Theorem raw_prompt_overrides_style {X} (h : Host X) (theme theme' : JsValue)
    (styleKey styleKey' : option string) (raw : string) (customKey : option string)
    (x : X) :
  Str.truthy raw = true ->
  (forall key, finalPrompt theme key (Some raw) = Some (raw ++ ". " ++ noText))
  /\ generateCardImage h theme styleKey (Some raw) customKey x
     = generateCardImage h theme' styleKey' (Some raw) customKey x.
Proof.
  intros Hraw.
  assert (Hprompt : forall t key, finalPrompt t key (Some raw) = Some (raw ++ ". " ++ noText)).
  { intros t key. unfold finalPrompt. now rewrite Hraw. }
  split; [apply Hprompt|].
  unfold generateCardImage. now rewrite !Hprompt.
Qed.

Lemma raw_prompt_overrides_style_witness :
  (forall key, finalPrompt (VString "calm") key (Some "a quiet harbour")
               = Some ("a quiet harbour" ++ ". " ++ noText))
  /\ generateCardImage (answeringHost None) (VString "calm") (Some "auto")
       (Some "a quiet harbour") None 0
     = generateCardImage (answeringHost None) (VString "") (Some "ghibli_fresh")
         (Some "a quiet harbour") None 0.
Proof.
  apply (raw_prompt_overrides_style (answeringHost None)). reflexivity.
Defined.

(** X8.  The loop over the parts of the first candidate returns the data
    URI of the first part that carries inline data, whatever comes after
    it, and returns [null] exactly when no part carries any. *)
Theorem firstInline_finds_first (ps : list Part) :
  (firstInline ps = None <-> Forall (fun p => inlineData p = None) ps)
  /\ (forall before p after d,
        ps = (before ++ p :: after)%list ->
        Forall (fun q => inlineData q = None) before ->
        inlineData p = Some d ->
        firstInline ps
        = Some ("data:image/png;base64,"
                ++ match data d with Some b => b | None => "undefined" end)).
Proof.
  split.
  - induction ps as [|p ps IH]; cbn.
    + split; [constructor | reflexivity].
    + destruct (inlineData p) as [d|] eqn:Hd.
      * split; [discriminate|]. intros H. inversion H; subst. congruence.
      * split.
        -- intros H. constructor; [exact Hd | now apply IH].
        -- intros H. inversion H; subst. now apply IH.
  - intros before p after d -> Hbefore Hp.
    induction Hbefore as [|q before Hq _ IH]; cbn.
    + now rewrite Hp.
    + now rewrite Hq.
Qed.

Lemma firstInline_finds_first_witness :
  firstInline [mkPart (Some "caption") None;
               mkPart None (Some (mkInlineData (Some "AAAA")));
               mkPart None (Some (mkInlineData (Some "BBBB")))]
  = Some ("data:image/png;base64," ++ "AAAA").
Proof.
  apply (proj2 (firstInline_finds_first _)
           [mkPart (Some "caption") None]
           (mkPart None (Some (mkInlineData (Some "AAAA"))))
           [mkPart None (Some (mkInlineData (Some "BBBB")))]
           (mkInlineData (Some "AAAA"))).
  - reflexivity.
  - repeat constructor.
  - reflexivity.
Defined.

(** ** What the structured client returns *)

Lemma feedbackCard_notNumeral : notNumeral "feedbackCard".
Proof. intros d. destruct d; reflexivity. Qed.

Lemma healingSentence_notNumeral : notNumeral "healingSentence".
Proof. intros d. destruct d; reflexivity. Qed.

Lemma has_indexed {A} (f : A -> JsValue) (key : string) (l : list A) :
  notNumeral key -> forall i, Js.has (Js.indexed f i l) key = false.
Proof.
  intros Hkey. induction l as [|a l IH]; intros i; cbn; [reflexivity|].
  unfold Js.index_key. now rewrite Hkey, IH.
Qed.

(** Reading from the copy [{...data}] a name that is no numeral and is
    not inherited gives what reading from [data] gives. *)
Lemma lookup_spread (data : JsValue) (key : string) :
  notNumeral key ->
  Js.Object_prototype key = VUndefined ->
  Js.lookup (Js.spread data) key = Js.member data key.
Proof.
  intros Hkey Hproto. destruct data; cbn [Js.spread Js.member];
    try (unfold Js.lookup; cbn; exact Hproto).
  - unfold Js.lookup. now rewrite (has_indexed _ _ _ Hkey).
  - unfold Js.lookup. now rewrite (has_indexed _ _ _ Hkey).
  - reflexivity.
Qed.

Section Structured.

Context {X : Type} (h : Host X).

Lemma withFullText_shape (data : JsValue) (z : X) (result : Js.Props) :
  fst (fst (withFullText (X := X) data z)) = Normal result ->
  exists card healing,
    Js.toString (Js.member data "feedbackCard") = Some card
    /\ Js.toString (Js.member data "healingSentence") = Some healing
    /\ result = Js.set (Js.spread data) "fullText"
                  (VString (card ++ Str.nl ++ Str.nl ++ healing)).
Proof.
  assert (Hshape :
    fst (fst (bind (X := X)
                (template
                   (interp [Js.toString (Js.member data "feedbackCard");
                            lit (Str.nl ++ Str.nl);
                            Js.toString (Js.member data "healingSentence")]))
                (fun fullText =>
                   ret (Js.set (Js.spread data) "fullText" (VString fullText))) z))
    = Normal result ->
    exists card healing,
      Js.toString (Js.member data "feedbackCard") = Some card
      /\ Js.toString (Js.member data "healingSentence") = Some healing
      /\ result = Js.set (Js.spread data) "fullText"
                    (VString (card ++ Str.nl ++ Str.nl ++ healing))).
  { unfold bind, template, interp, lit. cbn [Js.all_some].
    destruct (Js.toString (Js.member data "feedbackCard")) as [card|];
      [|discriminate].
    destruct (Js.toString (Js.member data "healingSentence")) as [healing|];
      [|discriminate].
    cbn. intros H. inversion H. now exists card, healing. }
  destruct data; try exact Hshape. discriminate.
Qed.

(** A value the operation of [generateFeedbackSummary] returns is a copy
    of the parsed payload with [fullText] set to the join of the two
    fields read from the payload. *)
Lemma feedbackOperation_shape (formalRecord : string) (customKey : option string)
    (y : X) (result : Js.Props) :
  fst (fst ((response <- generate h (getAI h customKey) (feedbackRequest formalRecord) ;;
             data <- parsePayload h response ;;
             withFullText data) y)) = Normal result ->
  exists data card healing,
    Js.toString (Js.member data "feedbackCard") = Some card
    /\ Js.toString (Js.member data "healingSentence") = Some healing
    /\ result = Js.set (Js.spread data) "fullText"
                  (VString (card ++ Str.nl ++ Str.nl ++ healing)).
Proof.
  unfold bind at 1 2, generate.
  destruct (generateContent h _ _ y) as [[response|e] y1]; [|discriminate].
  unfold parsePayload.
  destruct (JSON.parse _) as [data|]; [|discriminate]. cbn [ret].
  destruct (withFullText data y1) as [[c y2] tr] eqn:Hw. cbn [fst].
  intros ->. exists data. apply (withFullText_shape data y1). now rewrite Hw.
Qed.

Lemma feedbackSummary_shape (formalRecord : string) (customKey : option string)
    (x : X) (result : Js.Props) :
  fst (fst (generateFeedbackSummary h formalRecord customKey x)) = Normal result ->
  exists data card healing,
    Js.toString (Js.member data "feedbackCard") = Some card
    /\ Js.toString (Js.member data "healingSentence") = Some healing
    /\ result = Js.set (Js.spread data) "fullText"
                  (VString (card ++ Str.nl ++ Str.nl ++ healing)).
Proof.
  unfold generateFeedbackSummary, withRetry, defaultRetries. intros Hresult.
  destruct (retryLoop_settles h
              (response <- generate h (getAI h customKey) (feedbackRequest formalRecord) ;;
               data <- parsePayload h response ;;
               withFullText data)
              3 2 0 ThrownUndefined x eq_refl)
    as (k & pre & _ & _ & Hrun & _).
  rewrite Hrun in Hresult. cbn [fst] in Hresult.
  now apply (feedbackOperation_shape formalRecord customKey _ _ Hresult).
Qed.

(** X9.  Whatever the provider answered, an object that
    [generateFeedbackSummary] returns is consistent: its [fullText] is a
    string, the text of its own [feedbackCard], a blank line and the text
    of its own [healingSentence] (["undefined"] for a field that is
    absent). *)
Theorem feedbackSummary_fullText_consistent (formalRecord : string)
    (customKey : option string) (x : X) (result : Js.Props) :
  fst (fst (generateFeedbackSummary h formalRecord customKey x)) = Normal result ->
  exists card healing,
    Js.toString (Js.lookup result "feedbackCard") = Some card
    /\ Js.toString (Js.lookup result "healingSentence") = Some healing
    /\ Js.lookup result "fullText" = VString (card ++ Str.nl ++ Str.nl ++ healing).
Proof.
  intros Hresult.
  destruct (feedbackSummary_shape _ _ _ _ Hresult)
    as (data & card & healing & Hcard & Hheal & ->).
  exists card, healing.
  rewrite lookup_set_same, !lookup_set_other by discriminate.
  rewrite (lookup_spread data "feedbackCard" feedbackCard_notNumeral eq_refl).
  rewrite (lookup_spread data "healingSentence" healingSentence_notNumeral eq_refl).
  now repeat split.
Qed.


End Structured.

Lemma feedbackSummary_fullText_consistent_witness :
  exists card healing,
    Js.toString (Js.lookup [("fullText", VString ("undefined" ++ Str.nl ++ Str.nl
                                                   ++ "undefined"))]
                   "feedbackCard") = Some card
    /\ Js.toString (Js.lookup [("fullText", VString ("undefined" ++ Str.nl ++ Str.nl
                                                      ++ "undefined"))]
                      "healingSentence") = Some healing
    /\ Js.lookup [("fullText", VString ("undefined" ++ Str.nl ++ Str.nl ++ "undefined"))]
         "fullText"
       = VString (card ++ Str.nl ++ Str.nl ++ healing).
Proof.
  apply (feedbackSummary_fullText_consistent (answeringHost None) "record" None 0).
  reflexivity.
Defined.


(** ** The handlers of the wizard *)

Section Wizard.

Context {X : Type} (h : Host X).

(** Takes a run of a handler apart along the calls it makes; [tac]
    closes each case. *)
Ltac handled Hrun tac :=
  repeat match type of Hrun with
         | context [match ?c with _ => _ end] =>
             let E := fresh "E" in destruct c eqn:E
         | context [if ?c then _ else _] =>
             let E := fresh "E" in destruct c eqn:E
         end;
  inversion Hrun; subst; clear Hrun; tac.

Ltac open_state :=
  repeat match goal with a : AppState |- _ => destruct a end.

(** X11.  The guards are no-ops.  [handleRefine] with a blank
    instruction, and [handleRefineImage] with a blank instruction or
    without an image prompt, return at once: same state, same host state,
    no event.  And whenever a transition returns at its guard, nothing
    has changed. *)
Theorem guards_are_noops (s : AppState) (x : X) :
  (blank (refinementInput s) -> handleRefine h s x = (s, x, [], Skipped))
  /\ (blank (imageRefinementInput s) \/ orElse (imagePrompt s) "" = "" ->
      handleRefineImage h s x = (s, x, [], Skipped))
  /\ (forall t s' x' tr,
        run h t s x = (s', x', tr, Skipped) -> s' = s /\ x' = x /\ tr = []).
Proof.
  split; [|split].
  - intros Hblank. unfold handleRefine. now rewrite (trim_blank _ Hblank).
  - intros [Hblank | Hprompt]; unfold handleRefineImage.
    + now rewrite (trim_blank _ Hblank).
    + rewrite Hprompt. cbn [Str.truthy negb]. now rewrite orb_true_r.
  - intros t s' x' tr Hrun. destruct t; cbn [run] in Hrun;
      try discriminate;
      [ unfold handleGenerateRecord in Hrun
      | unfold handleGoToFeedback in Hrun
      | unfold handleGoToVisual in Hrun
      | unfold handleRefine in Hrun
      | unfold handleRefineImage in Hrun ];
      handled Hrun ltac:(auto).
Qed.

(** X12.  A handler that went past its guard has lowered its own busy
    flag when it returns, whether it completed or caught an error, and has
    not touched the other two. *)
Theorem busy_flag_released (t : Transition.t) (s s' : AppState) (x x' : X)
    (tr : list Event) (path : Path) :
  run h t s x = (s', x', tr, path) ->
  path <> Skipped ->
  busy s' = released t s.
Proof.
  intros Hrun Hpath. destruct t; cbn [run] in Hrun;
    [ unfold handleGenerateRecord in Hrun
    | unfold handleGoToFeedback in Hrun
    | unfold handleGoToVisual in Hrun
    | | | unfold handleRefine in Hrun
    | unfold handleRefineImage in Hrun ];
    handled Hrun ltac:(try congruence; open_state; reflexivity).
Qed.

(** X13.  The error hook tells how the last transition went: a handler
    that completed has cleared it, a handler that caught an error has
    stored its message for that error, a handler that returned at its guard
    has left it.  Going back and resetting leave it too. *)
Theorem error_tells_outcome (t : Transition.t) (s s' : AppState) (x x' : X)
    (tr : list Event) (path : Path) :
  run h t s x = (s', x', tr, path) ->
  error s'
  = match path with
    | Skipped => error s
    | Completed => if callsClient t then None else error s
    | Caught e => Some (errorMessage t e)
    end.
Proof.
  intros Hrun. destruct t; cbn [run] in Hrun;
    [ unfold handleGenerateRecord in Hrun
    | unfold handleGoToFeedback in Hrun
    | unfold handleGoToVisual in Hrun
    | | | unfold handleRefine in Hrun
    | unfold handleRefineImage in Hrun ];
    handled Hrun ltac:(cbn [errorMessage callsClient];
                       repeat match goal with
                              | H : messageIncludes _ _ = _ |- _ => rewrite H
                              end;
                       open_state; reflexivity).
Qed.

(** X14.  The stage after a transition depends on the transition and
    on how it went only: a transition that completes leads to its target
    (the record, the feedback, the card, the first stage; a refinement
    stays), and one that fails or returns at its guard stays. *)
Theorem stage_after_transition (t : Transition.t) (s s' : AppState) (x x' : X)
    (tr : list Event) (path : Path) :
  run h t s x = (s', x', tr, path) ->
  step s' = match path with
            | Completed => target t (step s)
            | Skipped | Caught _ => step s
            end.
Proof.
  intros Hrun. destruct t; cbn [run] in Hrun;
    [ unfold handleGenerateRecord in Hrun
    | unfold handleGoToFeedback in Hrun
    | unfold handleGoToVisual in Hrun
    | | | unfold handleRefine in Hrun
    | unfold handleRefineImage in Hrun ];
    handled Hrun ltac:(open_state; reflexivity).
Qed.

(** X15.  Only a failed [handleGenerateRecord] whose error message
    mentions that the requested entity was not found marks the key as
    missing; every other outcome of every transition leaves [hasKey], the
    key itself and the selected style as they were. *)
Theorem hasKey_only_cleared_for_missing_entity (t : Transition.t)
    (s s' : AppState) (x x' : X) (tr : list Event) (path : Path) :
  run h t s x = (s', x', tr, path) ->
  hasKey s'
  = match t, path with
    | Transition.generateRecord, Caught e =>
        if messageIncludes "Requested entity was not found" (thrownMessage e)
        then false else hasKey s
    | _, _ => hasKey s
    end
  /\ userApiKey s' = userApiKey s
  /\ selectedStyle s' = selectedStyle s.
Proof.
  intros Hrun. destruct t; cbn [run] in Hrun;
    [ unfold handleGenerateRecord in Hrun
    | unfold handleGoToFeedback in Hrun
    | unfold handleGoToVisual in Hrun
    | | | unfold handleRefine in Hrun
    | unfold handleRefineImage in Hrun ];
    handled Hrun ltac:(repeat match goal with
                              | H : messageIncludes _ _ = _ |- _ => rewrite H
                              end;
                       open_state; repeat split).
Qed.

End Wizard.

Lemma guards_are_noops_witness :
  handleRefine (failingHost serverError) atFeedback 0 = (atFeedback, 0, [], Skipped).
Proof.
  apply (proj1 (guards_are_noops (failingHost serverError) atFeedback 0)).
  exists []. split; [constructor | reflexivity].
Defined.

Lemma busy_flag_released_witness :
  busy (fst (fst (fst (run (failingHost serverError) Transition.generateVisual
                         atFeedback 0))))
  = released Transition.generateVisual atFeedback.
Proof.
  apply (busy_flag_released (failingHost serverError) Transition.generateVisual
           atFeedback _ 0
           (snd (fst (fst (run (failingHost serverError) Transition.generateVisual
                             atFeedback 0))))
           (snd (fst (run (failingHost serverError) Transition.generateVisual
                        atFeedback 0)))
           (Caught serverError)).
  - vm_compute. reflexivity.
  - discriminate.
Defined.

Lemma error_tells_outcome_witness :
  error (fst (fst (fst (run (failingHost quotaError) Transition.generateRecord
                          atRecord 0))))
  = Some errQuota.
Proof.
  apply (error_tells_outcome (failingHost quotaError) Transition.generateRecord
           atRecord _ 0
           (snd (fst (fst (run (failingHost quotaError) Transition.generateRecord
                             atRecord 0))))
           (snd (fst (run (failingHost quotaError) Transition.generateRecord
                        atRecord 0)))
           (Caught quotaError)).
  vm_compute. reflexivity.
Defined.

Lemma stage_after_transition_witness :
  step (fst (fst (fst (run (answeringHost (Some samplePayload))
                         Transition.generateFeedback atRecord 0))))
  = Step.feedback.
Proof.
  apply (stage_after_transition (answeringHost (Some samplePayload))
           Transition.generateFeedback atRecord _ 0
           (snd (fst (fst (run (answeringHost (Some samplePayload))
                             Transition.generateFeedback atRecord 0))))
           (snd (fst (run (answeringHost (Some samplePayload))
                        Transition.generateFeedback atRecord 0)))
           Completed).
  vm_compute. reflexivity.
Defined.

Lemma hasKey_only_cleared_for_missing_entity_witness :
  hasKey (fst (fst (fst (run (failingHost quotaError) Transition.generateRecord
                           atRecord 0))))
  = hasKey atRecord
  /\ userApiKey (fst (fst (fst (run (failingHost quotaError) Transition.generateRecord
                                  atRecord 0))))
     = userApiKey atRecord
  /\ selectedStyle (fst (fst (fst (run (failingHost quotaError)
                                     Transition.generateRecord atRecord 0))))
     = selectedStyle atRecord.
Proof.
  apply (hasKey_only_cleared_for_missing_entity (failingHost quotaError)
           Transition.generateRecord atRecord _ 0
           (snd (fst (fst (run (failingHost quotaError) Transition.generateRecord
                             atRecord 0))))
           (snd (fst (run (failingHost quotaError) Transition.generateRecord
                        atRecord 0)))
           (Caught quotaError)).
  vm_compute. reflexivity.
Defined.

Lemma truthy_app_r (a b : string) : Str.truthy b = true -> Str.truthy (a ++ b) = true.
Proof. destruct a; [trivial | reflexivity]. Qed.

(** The prompt [handleGoToVisual] builds is never empty. *)
Lemma visualPrompt_truthy (s : AppState) (prompt : string) :
  visualPrompt s = Some prompt -> Str.truthy prompt = true.
Proof.
  unfold visualPrompt, interp, lit. cbn [Js.all_some].
  destruct (Js.toString (Js.lookup IMAGE_STYLES (selectedStyle s))) as [a|],
    (Js.toString (visualTheme s)) as [b|], (String.eqb (selectedStyle s) "auto");
    cbn [option_map]; try discriminate; intros H; inversion H; subst; clear H.
  - reflexivity.
  - destruct a; reflexivity.
Qed.

Lemma set_set (p : Js.Props) (k : string) (v w : JsValue) :
  Js.set (Js.set p k v) k w = Js.set p k w.
Proof.
  induction p as [|[k' u] p IH]; cbn.
  - now rewrite String.eqb_refl.
  - destruct (String.eqb k' k) eqn:E; cbn; rewrite E; [reflexivity | now rewrite IH].
Qed.

Section WizardCalls.

Context {X : Type} (h : Host X).

Lemma generateCardImage_issued (theme : JsValue) (styleKey : string)
    (rawPrompt customKey : option string) (x : X) (prompt : string) :
  finalPrompt theme styleKey rawPrompt = Some prompt ->
  issued (snd (generateCardImage h theme (Some styleKey) rawPrompt customKey x))
  = repeat (getAI h customKey, imageRequest prompt)
      (attempts (snd (generateCardImage h theme (Some styleKey) rawPrompt customKey x))).
Proof.
  intros Hprompt. unfold generateCardImage, withRetry. rewrite Hprompt.
  apply retryLoop_issues_same. intros y.
  rewrite (template_then _ _ [Issued (getAI h customKey) (imageRequest prompt)]).
  - reflexivity.
  - intros p y0 Hp. inversion Hp; subst. now apply generate_then.
Qed.

(** X16.  [handleRefine] changes the text of the current stage and
    nothing else of the pipeline.  When it completes, the instruction is
    cleared; at the record stage the formal record becomes the refined
    text (the empty text when the service returned none) and the feedback
    is as before; at any other stage the formal record is as before.  When
    it fails, the instruction, the record and the feedback are all kept,
    so the user can try again. *)
Theorem refine_changes_stage_text (s s' : AppState) (x x' : X)
    (tr : list Event) (path : Path) :
  handleRefine h s x = (s', x', tr, path) ->
  let isRecord := Step_eqb (step s) Step.record in
  let call :=
    refineContent h
      (if isRecord then VString (formalRecord s)
       else Js.or (feedbackField (feedback s) "fullText") (VString ""))
      (refinementInput s) (if isRecord then KRecord else KFeedback)
      (Some (userApiKey s)) x in
  (input s', cardImage s', imagePrompt s', step s')
  = (input s, cardImage s, imagePrompt s, step s)
  /\ match path with
     | Skipped => s' = s
     | Caught e =>
         fst (fst call) = Throw e
         /\ refinementInput s' = refinementInput s
         /\ formalRecord s' = formalRecord s
         /\ feedback s' = feedback s
     | Completed =>
         exists refined,
           fst (fst call) = Normal refined
           /\ refinementInput s' = ""
           /\ formalRecord s'
              = (if isRecord then orElse refined "" else formalRecord s)
           /\ feedback s'
              = (if isRecord then feedback s
                 else option_map (fun p => Js.set p "fullText" (ofText refined))
                        (feedback s))
     end.
Proof.
  intros Hrun isRecord call. subst call isRecord. unfold handleRefine in Hrun.
  destruct (negb _).
  { inversion Hrun; subst. now split. }
  destruct (refineContent _ _ _ _ _ _) as [[[refined|e] x1] tr1];
    inversion Hrun; subst; clear Hrun; cbn [fst].
  - split; [destruct (Step_eqb _ _); destruct s; reflexivity|].
    exists refined. split; [reflexivity|].
    destruct (Step_eqb (step s) Step.record); destruct s as [? ? ? [fb|]];
      repeat split.
  - split; [destruct s; reflexivity|]. destruct s; repeat split.
Qed.

(** X17.  [handleRefineImage] leaves everything of the pipeline but the
    image prompt and the card image.  When the service returns no refined
    prompt, or an empty one, it completes without asking for an image:
    prompt and image are kept and the events are those of the one call.
    When it returns a prompt and the image call succeeds, the prompt is
    the refined one and the card image is what the image call returned.
    In both cases the instruction is cleared. *)
Theorem refineImage_completes (s s' : AppState) (x x' : X) (tr : list Event) :
  handleRefineImage h s x = (s', x', tr, Completed) ->
  let first :=
    refineImagePrompt h (orElse (imagePrompt s) "") (imageRefinementInput s)
      (Some (userApiKey s)) x in
  (input s', formalRecord s', feedback s', step s')
  = (input s, formalRecord s, feedback s, step s)
  /\ imageRefinementInput s' = ""
  /\ exists refined,
       fst (fst first) = Normal refined
       /\ if Str.truthy (orElse refined "")
          then exists image,
                 fst (fst (generateCardImage h (VString "") (Some (selectedStyle s))
                             refined (Some (userApiKey s)) (snd (fst first))))
                 = Normal image
                 /\ imagePrompt s' = refined /\ cardImage s' = image
          else imagePrompt s' = imagePrompt s /\ cardImage s' = cardImage s
               /\ tr = snd first /\ x' = snd (fst first).
Proof.
  intros Hrun first. subst first. unfold handleRefineImage in Hrun.
  destruct (_ || _); [discriminate|].
  destruct (refineImagePrompt _ _ _ _ _) as [[[refined|e] x1] tr1];
    [|discriminate]. cbn [fst snd].
  destruct (Str.truthy (orElse refined "")) eqn:Htruthy.
  - destruct (generateCardImage _ _ _ _ _ _) as [[[image|e] x2] tr2] eqn:Himage;
      [|discriminate].
    inversion Hrun; subst; clear Hrun.
    split; [destruct s; reflexivity|]. split; [destruct s; reflexivity|].
    exists refined. split; [reflexivity|]. rewrite Htruthy.
    exists image. split; [now rewrite Himage|]. destruct s; now split.
  - inversion Hrun; subst; clear Hrun.
    split; [destruct s; reflexivity|]. split; [destruct s; reflexivity|].
    exists refined. split; [reflexivity|]. rewrite Htruthy.
    destruct s; repeat split.
Qed.

(** X18.  Whatever style is selected, [handleGoToVisual] hands
    [generateCardImage] the prompt it built as a raw prompt, and that
    prompt is never empty: every request is for that prompt, a full stop
    and the sentence that forbids text, so the style templates of the
    client are not consulted.  When the call succeeds the wizard shows the
    card stage with the stored prompt, even when the provider returned no
    image. *)
Theorem goToVisual_sends_its_prompt (s s' : AppState) (x x' : X)
    (tr : list Event) (path : Path) (prompt : string) :
  handleGoToVisual h s x = (s', x', tr, path) ->
  visualPrompt s = Some prompt ->
  issued tr
  = repeat (getAI h (Some (userApiKey s)), imageRequest (prompt ++ ". " ++ noText))
      (attempts tr)
  /\ imagePrompt s' = Some prompt
  /\ (path = Completed ->
      step s' = Step.visual
      /\ fst (fst (generateCardImage h (visualTheme s) (Some (selectedStyle s))
                     (Some prompt) (Some (userApiKey s)) x))
         = Normal (cardImage s')).
Proof.
  intros Hrun Hprompt. unfold handleGoToVisual in Hrun. rewrite Hprompt in Hrun.
  pose proof (generateCardImage_issued (visualTheme s) (selectedStyle s)
                (Some prompt) (Some (userApiKey s)) x (prompt ++ ". " ++ noText))
    as Hissued.
  destruct (generateCardImage _ _ _ _ _ _) as [[[image|e] x1] tr1];
    inversion Hrun; subst; clear Hrun; cbn [fst snd] in *.
  - split.
    { apply Hissued. unfold finalPrompt.
      now rewrite (visualPrompt_truthy _ _ Hprompt). }
    split; [destruct s; reflexivity|]. intros _. destruct s; now split.
  - split.
    { apply Hissued. unfold finalPrompt.
      now rewrite (visualPrompt_truthy _ _ Hprompt). }
    split; [destruct s; reflexivity|]. discriminate.
Qed.

(** X19.  [handleGoToFeedback] completes exactly when
    [generateFeedbackSummary] returns, and then stores the very object
    the service returned: the [fullText] it computes again is the one the
    object already has.  The stage is then the feedback and the editor is
    closed.  When the service throws, the feedback hook is untouched. *)
Theorem goToFeedback_stores_summary (s s' : AppState) (x x' : X)
    (tr : list Event) (path : Path) :
  handleGoToFeedback h s x = (s', x', tr, path) ->
  match fst (fst (generateFeedbackSummary h (formalRecord s) (Some (userApiKey s)) x)) with
  | Normal summary =>
      path = Completed /\ feedback s' = Some summary
      /\ step s' = Step.feedback /\ isEditing s' = false
  | Throw e => path = Caught e /\ feedback s' = feedback s /\ isEditing s' = isEditing s
  end
  /\ (input s', formalRecord s', cardImage s', imagePrompt s')
     = (input s, formalRecord s, cardImage s, imagePrompt s).
Proof.
  intros Hrun. unfold handleGoToFeedback in Hrun.
  destruct (generateFeedbackSummary _ _ _ _) as [[[summary|e] x1] tr1] eqn:Hcall;
    cbn [fst].
  - destruct (feedbackSummary_shape h (formalRecord s) (Some (userApiKey s)) x summary)
      as (data & card & healing & Hcard & Hheal & ->); [now rewrite Hcall|].
    rewrite !lookup_set_other in Hrun by discriminate.
    rewrite (lookup_spread data "feedbackCard" feedbackCard_notNumeral eq_refl) in Hrun.
    rewrite (lookup_spread data "healingSentence" healingSentence_notNumeral eq_refl)
      in Hrun.
    unfold interp, lit in Hrun. cbn [Js.all_some] in Hrun.
    rewrite Hcard, Hheal in Hrun. cbn [option_map String.concat] in Hrun.
    change ((Str.nl ++ Str.nl) ++ "" ++ healing) with (Str.nl ++ Str.nl ++ healing)
      in Hrun.
    change (card ++ "" ++ Str.nl ++ Str.nl ++ healing)
      with (card ++ Str.nl ++ Str.nl ++ healing) in Hrun.
    rewrite set_set in Hrun.
    inversion Hrun; subst; clear Hrun. destruct s; repeat split.
  - inversion Hrun; subst; clear Hrun. destruct s; repeat split.
Qed.

(** X20.  When [handleRefineImage] catches an error, the instruction is
    kept.  If the error came from the refinement call, prompt and image
    are as before.  If it came from the image call, the wizard is left
    with the refined prompt and without a card image: the image shown
    before is gone. *)
Theorem refineImage_failure_drops_image (s s' : AppState) (x x' : X)
    (tr : list Event) (e : Thrown) :
  handleRefineImage h s x = (s', x', tr, Caught e) ->
  let first :=
    refineImagePrompt h (orElse (imagePrompt s) "") (imageRefinementInput s)
      (Some (userApiKey s)) x in
  imageRefinementInput s' = imageRefinementInput s
  /\ match fst (fst first) with
     | Throw e1 =>
         e1 = e /\ imagePrompt s' = imagePrompt s /\ cardImage s' = cardImage s
     | Normal refined =>
         fst (fst (generateCardImage h (VString "") (Some (selectedStyle s))
                     refined (Some (userApiKey s)) (snd (fst first))))
         = Throw e
         /\ imagePrompt s' = refined /\ cardImage s' = None
     end.
Proof.
  intros Hrun first. subst first. unfold handleRefineImage in Hrun.
  destruct (_ || _); [discriminate|].
  destruct (refineImagePrompt _ _ _ _ _) as [[[refined|e1] x1] tr1]; cbn [fst snd].
  - destruct (Str.truthy (orElse refined "")); [|discriminate].
    destruct (generateCardImage _ _ _ _ _ _) as [[[image|e2] x2] tr2] eqn:Himage;
      [discriminate|].
    inversion Hrun; subst; clear Hrun. destruct s; repeat split.
  - inversion Hrun; subst; clear Hrun. destruct s; repeat split.
Qed.

(** X21.  [handleGenerateRecord] tests the trimmed notes but sends the
    notes as typed.  When the call returns, the formal record is the text
    returned, the empty text when none was returned; when it throws, the
    record is kept.  Either way the notes, the feedback, the card image
    and the image prompt of an earlier pass stay as they are, and the host
    and the events are those of the one call. *)
Theorem generateRecord_outcome (s s' : AppState) (x x' : X)
    (tr : list Event) (path : Path) :
  handleGenerateRecord h s x = (s', x', tr, path) ->
  path <> Skipped ->
  let call := generateFormalRecord h (input s) (Some (userApiKey s)) x in
  x' = snd (fst call) /\ tr = snd call
  /\ (input s', feedback s', cardImage s', imagePrompt s')
     = (input s, feedback s, cardImage s, imagePrompt s)
  /\ match fst (fst call) with
     | Normal record => path = Completed /\ formalRecord s' = orElse record ""
     | Throw e => path = Caught e /\ formalRecord s' = formalRecord s
     end.
Proof.
  intros Hrun Hpath call. subst call. unfold handleGenerateRecord in Hrun.
  destruct (negb _); [inversion Hrun; congruence|].
  destruct (generateFormalRecord _ _ _ _) as [[[record|e] x1] tr1];
    [|destruct (messageIncludes _ _)];
    inversion Hrun; subst; clear Hrun; destruct s; repeat split.
Qed.

End WizardCalls.

Lemma refine_changes_stage_text_witness :
  let s' := fst (fst (fst (handleRefine refiningHost refiningFeedback 0))) in
  (input s', cardImage s', imagePrompt s', step s')
  = (input refiningFeedback, cardImage refiningFeedback,
     imagePrompt refiningFeedback, step refiningFeedback).
Proof.
  intros s'.
  apply (proj1 (refine_changes_stage_text refiningHost refiningFeedback s' 0
                  (snd (fst (fst (handleRefine refiningHost refiningFeedback 0))))
                  (snd (fst (handleRefine refiningHost refiningFeedback 0)))
                  Completed eq_refl)).
Defined.

Lemma refineImage_completes_witness :
  imageRefinementInput
    (fst (fst (fst (handleRefineImage refiningHost refiningImage 0)))) = "".
Proof.
  apply (proj1 (proj2 (refineImage_completes refiningHost refiningImage _ 0
                         (snd (fst (fst (handleRefineImage refiningHost refiningImage 0))))
                         (snd (fst (handleRefineImage refiningHost refiningImage 0)))
                         eq_refl))).
Defined.

Lemma refineImage_failure_drops_image_witness :
  let s' := fst (fst (fst (handleRefineImage (falteringHost serverError)
                             refiningImage 0))) in
  imageRefinementInput s' = "warmer"
  /\ cardImage refiningImage = Some "data:image/png;base64,AAAA"
  /\ cardImage s' = None.
Proof.
  intros s'.
  pose proof (refineImage_failure_drops_image (falteringHost serverError)
                refiningImage s' 0
                (snd (fst (fst (handleRefineImage (falteringHost serverError)
                                  refiningImage 0))))
                (snd (fst (handleRefineImage (falteringHost serverError)
                             refiningImage 0)))
                serverError eq_refl) as [Hinput [_ [_ Himage]]].
  split; [exact Hinput|]. split; [reflexivity | exact Himage].
Defined.

Lemma goToVisual_sends_its_prompt_witness :
  let prompt := match visualPrompt atFeedback with Some p => p | None => "" end in
  imagePrompt (fst (fst (fst (handleGoToVisual (failingHost serverError)
                                atFeedback 0))))
  = Some prompt.
Proof.
  intros prompt.
  apply (proj1 (proj2 (goToVisual_sends_its_prompt (failingHost serverError)
                         atFeedback _ 0
                         (snd (fst (fst (handleGoToVisual (failingHost serverError)
                                           atFeedback 0))))
                         (snd (fst (handleGoToVisual (failingHost serverError)
                                      atFeedback 0)))
                         (Caught serverError) prompt eq_refl eq_refl))).
Defined.

Lemma goToFeedback_stores_summary_witness :
  let s' := fst (fst (fst (handleGoToFeedback (answeringHost (Some samplePayload))
                             atRecord 0))) in
  (input s', formalRecord s', cardImage s', imagePrompt s')
  = (input atRecord, formalRecord atRecord, cardImage atRecord, imagePrompt atRecord).
Proof.
  intros s'.
  apply (proj2 (goToFeedback_stores_summary (answeringHost (Some samplePayload))
                  atRecord s' 0
                  (snd (fst (fst (handleGoToFeedback
                                    (answeringHost (Some samplePayload)) atRecord 0))))
                  (snd (fst (handleGoToFeedback
                               (answeringHost (Some samplePayload)) atRecord 0)))
                  Completed eq_refl)).
Defined.

Lemma generateRecord_outcome_witness :
  let s' := fst (fst (fst (handleGenerateRecord (answeringHost None) atRecord 0))) in
  formalRecord s' = "".
Proof.
  intros s'.
  pose proof (generateRecord_outcome (answeringHost None) atRecord s' 0
                (snd (fst (fst (handleGenerateRecord (answeringHost None) atRecord 0))))
                (snd (fst (handleGenerateRecord (answeringHost None) atRecord 0)))
                Completed eq_refl) as Hout.
  apply Hout. discriminate.
Defined.

(** X22.  [reset] brings the six fields of the pipeline back to their
    first values from any state and closes the editor, and it is
    idempotent.  It does not clear the error message, the two refinement
    instructions, the busy flags, the selected style or the key. *)
Theorem reset_clears_the_pipeline_only (s : AppState) :
  pipeline (reset s) = pipeline initialState
  /\ isEditing (reset s) = false
  /\ reset (reset s) = reset s
  /\ (error (reset s), refinementInput (reset s), imageRefinementInput (reset s),
      busy (reset s))
     = (error s, refinementInput s, imageRefinementInput s, busy s)
  /\ (selectedStyle (reset s), userApiKey (reset s), hasKey (reset s))
     = (selectedStyle s, userApiKey s, hasKey s).
Proof. destruct s. repeat split. Qed.

(** ** The exported document *)

Lemma split_cons (s : string) : exists line lines, ExportService.split s = line :: lines.
Proof.
  induction s as [|c s (line & lines & IH)]; cbn [ExportService.split].
  - now exists "", [].
  - rewrite IH. destruct (Ascii.eqb c ExportService.newline);
      do 2 eexists; reflexivity.
Qed.

Lemma split_length (s : string) : length (ExportService.split s) = S (lineBreaks s).
Proof.
  induction s as [|c s IH]; [reflexivity|]. cbn [ExportService.split lineBreaks].
  destruct (split_cons s) as (line & lines & Hs). rewrite Hs in *.
  destruct (Ascii.eqb c ExportService.newline); cbn [length] in *; lia.
Qed.

Lemma split_join (s : string) :
  String.concat (String ExportService.newline "") (ExportService.split s) = s.
Proof.
  induction s as [|c s IH]; [reflexivity|]. cbn [ExportService.split].
  destruct (split_cons s) as (line & lines & Hs). rewrite Hs in *.
  destruct (Ascii.eqb c ExportService.newline) eqn:Hc.
  - apply Ascii.eqb_eq in Hc. subst c.
    change (String.concat (String ExportService.newline "") ("" :: line :: lines))
      with (String ExportService.newline
              (String.concat (String ExportService.newline "") (line :: lines))).
    now rewrite IH.
  - destruct lines as [|next lines]; cbn in *; now rewrite IH.
Qed.

Lemma split_lines (s : string) :
  Forall (fun line => lineBreaks line = 0) (ExportService.split s).
Proof.
  induction s as [|c s IH]; [repeat constructor|]. cbn [ExportService.split].
  destruct (split_cons s) as (line & lines & Hs). rewrite Hs in *.
  inversion IH; subst.
  destruct (Ascii.eqb c ExportService.newline) eqn:Hc.
  - now repeat constructor.
  - constructor; [|assumption]. cbn [lineBreaks]. now rewrite Hc.
Qed.

(** X23.  The document has one section, with one paragraph for each line
    of the markdown text, empty lines included: one more than the text has
    line feeds.  The lines are the text cut at its line feeds: none holds
    a line feed, and joined by line feeds they give the text back. *)
Theorem one_paragraph_per_line (markdown : string) :
  ExportService.sections (ExportService.document markdown)
  = [map ExportService.paragraph (ExportService.split markdown)]
  /\ length (paragraphs markdown) = S (lineBreaks markdown)
  /\ Forall (fun line => lineBreaks line = 0) (ExportService.split markdown)
  /\ String.concat (String ExportService.newline "") (ExportService.split markdown)
     = markdown.
Proof.
  split; [reflexivity|]. split; [|split].
  - unfold paragraphs. cbn. now rewrite app_nil_r, length_map, split_length.
  - apply split_lines.
  - apply split_join.
Qed.

Lemma prefix_app (p s : string) : String.prefix p (p ++ s) = true.
Proof.
  induction p as [|c p IH]; cbn; [now destruct s|].
  destruct (ascii_dec c c); [exact IH | congruence].
Qed.

Lemma drop_app (p s : string) : ExportService.drop (String.length p) (p ++ s) = s.
Proof. induction p as [|c p IH]; cbn; [now destruct s | exact IH]. Qed.

(** Replacing a pattern that starts the text removes that occurrence. *)
Lemma replace_prefix (p r s : string) :
  ExportService.replace p r (p ++ s) = r ++ s.
Proof.
  destruct p as [|c p].
  - cbn. destruct s; reflexivity.
  - cbn [append ExportService.replace]. change (String c (p ++ s)) with (String c p ++ s).
    now rewrite prefix_app, drop_app.
Qed.

(** X24.  A line that, trimmed, starts with one, two or three hashes and
    a space is a heading of that level, and its text is what follows that
    marker, as it stands: only the marker at the start is removed, and a
    later copy of it in the line stays. *)
Theorem heading_text_follows_marker (line body : string)
    (level : ExportService.HeadingLevel) :
  Str.trim line = marker level ++ body ->
  ExportService.paragraph line
  = ExportService.mkParagraph (Some body) (Some level) None [].
Proof.
  intros Htrim. unfold ExportService.paragraph. rewrite Htrim.
  destruct level; cbn [marker].
  - now rewrite prefix_app, replace_prefix.
  - change (String.prefix "# " ("## " ++ body)) with false. cbv iota.
    now rewrite prefix_app, replace_prefix.
  - change (String.prefix "# " ("### " ++ body)) with false.
    change (String.prefix "## " ("### " ++ body)) with false. cbv iota.
    now rewrite prefix_app, replace_prefix.
Qed.

(** X25.  A line that, trimmed, starts with a hyphen or an asterisk and a
    space is a bullet of level 0 without a heading, and its text is what
    follows the two characters. *)
Theorem bullet_text_follows_marker (line body : string) (c : ascii) :
  Str.trim line = String c (String " " body) ->
  c = "-"%char \/ c = "*"%char ->
  ExportService.paragraph line
  = ExportService.mkParagraph (Some body) None (Some 0) [].
Proof.
  intros Htrim [-> | ->]; unfold ExportService.paragraph; rewrite Htrim;
    destruct body; reflexivity.
Qed.

(** X26.  Markers without their space are no markers.  A line that,
    trimmed, starts with four hashes, or is a single character, or has a
    second character that is neither a space nor a hash, is a plain
    paragraph: one run with the whole trimmed line, hashes and asterisks
    included, and neither heading nor bullet. *)
Theorem unmarked_line_is_plain (line : string) :
  (forall rest, Str.trim line = "####" ++ rest ->
                ExportService.paragraph line = plainParagraph (Str.trim line))
  /\ (forall c, Str.trim line = String c "" ->
                ExportService.paragraph line = plainParagraph (Str.trim line))
  /\ (forall c d rest,
        Str.trim line = String c (String d rest) ->
        d <> " "%char -> d <> "#"%char ->
        ExportService.paragraph line = plainParagraph (Str.trim line)).
Proof.
  unfold ExportService.paragraph. repeat split.
  - intros rest ->. destruct rest as [|r rest]; [reflexivity|].
    cbn -[ascii_dec]. destruct (ascii_dec " " r); reflexivity.
  - intros c ->. cbn -[ascii_dec].
    repeat match goal with
           | |- context [ascii_dec ?a ?b] => destruct (ascii_dec a b)
           end; reflexivity.
  - intros c d rest -> Hspace Hhash. cbn -[ascii_dec].
    repeat match goal with
           | |- context [ascii_dec ?a ?b] => destruct (ascii_dec a b)
           end; try congruence; reflexivity.
Qed.

Lemma lineBreaks_app (a b : string) : lineBreaks (a ++ b) = lineBreaks a + lineBreaks b.
Proof. induction a as [|c a IH]; cbn [append lineBreaks]; [reflexivity | lia]. Qed.

Lemma of_bytes_app (l l' : list N) :
  Str.of_bytes (l ++ l') = Str.of_bytes l ++ Str.of_bytes l'.
Proof.
  unfold Str.of_bytes. induction l as [|b l IH]; cbn; [reflexivity | now rewrite IH].
Qed.

Lemma of_bytes_bytes (s : string) : Str.of_bytes (Str.bytes s) = s.
Proof.
  unfold Str.of_bytes, Str.bytes. induction s as [|c s IH]; cbn; [reflexivity|].
  now rewrite ascii_N_embedding, IH.
Qed.

Lemma trim_start_suffix (fuel : nat) :
  forall l, exists pre, l = (pre ++ Str.trim_start fuel l)%list.
Proof.
  induction fuel as [|fuel IH]; intros l.
  - exists []. cbn [Str.trim_start]. now destruct (Str.ws_width l).
  - cbn [Str.trim_start]. destruct (Str.ws_width l) as [|w]; [now exists []|].
    destruct (IH (skipn (S w) l)) as (pre & Hpre).
    exists (firstn (S w) l ++ pre)%list.
    rewrite <- app_assoc, <- Hpre. symmetry. apply firstn_skipn.
Qed.

Lemma trim_end_prefix (l : list N) : exists post, l = (Str.trim_end l ++ post)%list.
Proof.
  induction l as [|b l (post & IH)]; [now exists []|].
  cbn [Str.trim_end]. destruct (Str.all_ws _ _).
  - now exists (b :: l).
  - exists post. cbn [app]. now rewrite <- IH.
Qed.

(** The trimmed text is a part of the text. *)
Lemma trim_within (s : string) : exists a b, s = a ++ Str.trim s ++ b.
Proof.
  unfold Str.trim.
  destruct (trim_start_suffix (length (Str.bytes s)) (Str.bytes s)) as (pre & Hpre).
  destruct (trim_end_prefix (Str.trim_start (length (Str.bytes s)) (Str.bytes s)))
    as (post & Hpost).
  exists (Str.of_bytes pre), (Str.of_bytes post).
  rewrite <- !of_bytes_app, <- Hpost, <- Hpre. symmetry. apply of_bytes_bytes.
Qed.

Lemma lineBreaks_trim (line : string) : lineBreaks line = 0 -> lineBreaks (Str.trim line) = 0.
Proof.
  intros Hline. destruct (trim_within line) as (a & b & Hab).
  rewrite Hab, !lineBreaks_app in Hline. lia.
Qed.

Lemma lineBreaks_drop (n : nat) :
  forall s, lineBreaks s = 0 -> lineBreaks (ExportService.drop n s) = 0.
Proof.
  induction n as [|n IH]; intros s Hs; [exact Hs|].
  destruct s as [|c s]; [reflexivity|]. cbn [ExportService.drop]. apply IH.
  cbn [lineBreaks] in Hs. lia.
Qed.

Lemma replace_at_prefix (p r s : string) :
  String.prefix p s = true ->
  ExportService.replace p r s = r ++ ExportService.drop (String.length p) s.
Proof. intros Hp. destruct s; cbn [ExportService.replace]; now rewrite Hp. Qed.

Lemma paragraph_of_line (line : string) :
  lineBreaks line = 0 ->
  exists t,
    texts (ExportService.paragraph line) = [t]
    /\ lineBreaks t = 0
    /\ (ExportService.text (ExportService.paragraph line) = Some t
        /\ ExportService.children (ExportService.paragraph line) = []
        /\ (ExportService.heading (ExportService.paragraph line) = None
            \/ ExportService.bullet (ExportService.paragraph line) = None)
        \/ ExportService.paragraph line = plainParagraph t /\ t <> "").
Proof.
  intros Hline. apply lineBreaks_trim in Hline.
  unfold ExportService.paragraph. set (trimmed := Str.trim line) in *.
  destruct (String.prefix "# " trimmed) eqn:H1;
    [|destruct (String.prefix "## " trimmed) eqn:H2;
      [|destruct (String.prefix "### " trimmed) eqn:H3;
        [|destruct (String.prefix "- " trimmed || String.prefix "* " trimmed);
          [|destruct (0 <? String.length trimmed)%nat eqn:Hlen]]]].
  - rewrite (replace_at_prefix _ _ _ H1). eexists. split; [reflexivity|].
    split; [now apply lineBreaks_drop | left; repeat split; now right].
  - rewrite (replace_at_prefix _ _ _ H2). eexists. split; [reflexivity|].
    split; [now apply lineBreaks_drop | left; repeat split; now right].
  - rewrite (replace_at_prefix _ _ _ H3). eexists. split; [reflexivity|].
    split; [now apply lineBreaks_drop | left; repeat split; now right].
  - eexists. split; [reflexivity|].
    split; [now apply lineBreaks_drop | left; repeat split; now left].
  - exists trimmed. split; [reflexivity|]. split; [exact Hline|]. right.
    split; [reflexivity|]. intros Hempty. rewrite Hempty in Hlen. discriminate.
  - exists "". split; [reflexivity|]. split; [reflexivity|].
    left. repeat split. now left.
Qed.

(** X27.  Every paragraph of the document shows exactly one text, and
    that text holds no line feed.  The text is either the [text] option of
    a paragraph without runs, which is never a heading and a bullet at
    once, or the one run of a plain paragraph, and then it is not
    empty. *)
Theorem paragraph_invariant (markdown : string) (p : ExportService.Paragraph) :
  In p (paragraphs markdown) ->
  exists t,
    texts p = [t]
    /\ lineBreaks t = 0
    /\ (ExportService.text p = Some t
        /\ ExportService.children p = []
        /\ (ExportService.heading p = None \/ ExportService.bullet p = None)
        \/ p = plainParagraph t /\ t <> "").
Proof.
  unfold paragraphs. cbn [ExportService.document ExportService.sections concat].
  rewrite app_nil_r. intros Hin. apply in_map_iff in Hin as (line & <- & Hline).
  apply paragraph_of_line.
  pose proof (split_lines markdown) as Hlines.
  rewrite Forall_forall in Hlines. now apply Hlines.
Qed.

Lemma whitespace_cases (c : string) :
  In c whitespace -> c = String ExportService.newline "" \/ lineBreaks c = 0.
Proof.
  unfold whitespace. cbn [map]. intros Hc.
  repeat (destruct Hc as [<- | Hc]; [(now left) || (now right)|]).
  destruct Hc.
Qed.

Lemma split_app (a b : string) :
  lineBreaks a = 0 ->
  ExportService.split (a ++ b)
  = match ExportService.split b with
    | line :: lines => (a ++ line) :: lines
    | [] => [a]
    end.
Proof.
  destruct (split_cons b) as (line & lines & Hb). rewrite Hb.
  induction a as [|c a IH]; intros Ha; cbn [append]; [exact Hb|].
  cbn [lineBreaks] in Ha. cbn [ExportService.split].
  destruct (Ascii.eqb c ExportService.newline); [discriminate|].
  now rewrite IH by exact Ha.
Qed.

Lemma blank_cons (c : string) (s : string) : In c whitespace -> blank s -> blank (c ++ s).
Proof.
  intros Hc (chars & Hchars & ->). exists (c :: chars).
  split; [now constructor | now rewrite concat_empty_sep].
Qed.

(** The lines of a blank text are blank. *)
Lemma blank_lines (chars : list string) :
  Forall (fun c => In c whitespace) chars ->
  Forall blank (ExportService.split (String.concat "" chars)).
Proof.
  induction 1 as [|c chars Hc _ IH].
  - repeat constructor. now exists [].
  - rewrite concat_empty_sep.
    destruct (split_cons (String.concat "" chars)) as (line & lines & Hs).
    rewrite Hs in IH. inversion IH; subst.
    destruct (whitespace_cases c Hc) as [-> | Hplain].
    + cbn [append ExportService.split]. rewrite Hs.
      change (Ascii.eqb ExportService.newline ExportService.newline) with true.
      cbv iota. constructor; [now exists [] | now constructor].
    + rewrite (split_app _ _ Hplain), Hs.
      constructor; [now apply blank_cons | assumption].
Qed.

Lemma blank_paragraphs (lines : list string) :
  Forall blank lines ->
  map ExportService.paragraph lines = repeat emptyParagraph (length lines).
Proof.
  induction 1 as [|line lines Hline _ IH]; [reflexivity|].
  cbn [map length repeat]. rewrite IH. f_equal.
  unfold ExportService.paragraph. now rewrite (trim_blank _ Hline).
Qed.

(** X28.  The download tests the record, not the trimmed record: a record
    of white space only that is not empty is exported all the same, as a
    document of empty paragraphs, one for each line. *)
Theorem blank_record_is_exported {Y Blob : Type}
    (Packer_toBlob : ExportService.Document -> Y -> Completion Blob * Y)
    (saveAs : Blob -> string -> Y -> Y) (s : AppState) (y : Y) :
  blank (formalRecord s) ->
  formalRecord s <> "" ->
  ExportService.handleDownloadWord Packer_toBlob saveAs s y
  = ExportService.exportToWord Packer_toBlob saveAs (formalRecord s) y
  /\ ExportService.document (formalRecord s)
     = ExportService.mkDocument
         [repeat emptyParagraph (S (lineBreaks (formalRecord s)))].
Proof.
  intros Hblank Hrecord. split.
  - unfold ExportService.handleDownloadWord.
    destruct (formalRecord s); [congruence | reflexivity].
  - unfold ExportService.document. rewrite <- split_length.
    destruct Hblank as (chars & Hchars & ->).
    now rewrite (blank_paragraphs _ (blank_lines chars Hchars)).
Qed.

(** ** Instances for the exported document *)

Lemma heading_text_follows_marker_witness :
  ExportService.paragraph "  ## Goals ## 1 "
  = ExportService.mkParagraph (Some "Goals ## 1") (Some ExportService.HEADING_2) None [].
Proof.
  apply (heading_text_follows_marker "  ## Goals ## 1 " "Goals ## 1"
           ExportService.HEADING_2).
  vm_compute. reflexivity.
Defined.

Lemma bullet_text_follows_marker_witness :
  ExportService.paragraph "* item"
  = ExportService.mkParagraph (Some "item") None (Some 0) [].
Proof.
  apply (bullet_text_follows_marker "* item" "item" "*"%char).
  - vm_compute. reflexivity.
  - now right.
Defined.

Lemma unmarked_line_is_plain_witness :
  ExportService.paragraph "**bold**" = plainParagraph (Str.trim "**bold**").
Proof.
  apply (proj2 (proj2 (unmarked_line_is_plain "**bold**")) "*"%char "*"%char "bold**").
  - vm_compute. reflexivity.
  - discriminate.
  - discriminate.
Defined.

Lemma paragraph_invariant_witness :
  exists t,
    texts (plainParagraph "body") = [t]
    /\ lineBreaks t = 0
    /\ (ExportService.text (plainParagraph "body") = Some t
        /\ ExportService.children (plainParagraph "body") = []
        /\ (ExportService.heading (plainParagraph "body") = None
            \/ ExportService.bullet (plainParagraph "body") = None)
        \/ plainParagraph "body" = plainParagraph t /\ t <> "").
Proof.
  apply (paragraph_invariant ("# Title" ++ Str.nl ++ Str.nl ++ " body ")).
  vm_compute. do 2 right. now left.
Defined.

Lemma blank_record_is_exported_witness :
  ExportService.handleDownloadWord packAlways saveName blankRecord []
  = ExportService.exportToWord packAlways saveName (formalRecord blankRecord) []
  /\ ExportService.document (formalRecord blankRecord)
     = ExportService.mkDocument
         [repeat emptyParagraph (S (lineBreaks (formalRecord blankRecord)))].
Proof.
  apply (blank_record_is_exported packAlways saveName blankRecord []).
  - exists blankRecordChars. split.
    + unfold blankRecordChars, whitespace. cbn [map].
      repeat (apply Forall_cons; [cbn; tauto|]). apply Forall_nil.
    + reflexivity.
  - discriminate.
Defined.
